(** * ContractInfoMCP: a shallow embedding of the contract inspector

    The development follows the Python package [contract_inspector]:
    - [utils.py]: address validation and checksum normalisation, the ABI
      filter, the retry policy;
    - [etherscan_client.py]: the throttled metadata transport;
    - [web3_client.py]: single and batched view-function calls;
    - [contract_analyzer.py]: the orchestrator and the result classifier.

    Python [str] is embedded as [string], [int] as [Z], a [dict] read with
    [.get] as an association list, an exception as a value of [exn], and an
    [async] function as a function that returns its result together with
    the list of effects it performed, in program order. *)

From Stdlib Require Import List String Ascii Bool ZArith QArith Qpower Lia.
From Stdlib Require Import DecimalString DecimalPos Nnat.
Import ListNotations.

Local Open Scope string_scope.
Local Open Scope Z_scope.

(* ===================================================================== *)
(** ** Python values, exceptions and results *)
(* ===================================================================== *)

Module Py.

(** The exception classes the package distinguishes.  In [web3.exceptions]
    [ContractLogicError] derives from [Web3Exception]; everything here
    derives from [Exception]. *)
Inductive exn_class :=
| ContractLogicError
| Web3Exception
| TypeError
| OverflowError
| KeyError
| AttributeError
| OtherException.

Record exn := mkExn { exn_cls : exn_class; exn_msg : string }.

(** [isinstance(e, Web3Exception)] *)
Definition is_web3_exception (e : exn) : bool :=
  match exn_cls e with
  | ContractLogicError | Web3Exception => true
  | _ => false
  end.

Definition is_contract_logic_error (e : exn) : bool :=
  match exn_cls e with
  | ContractLogicError => true
  | _ => false
  end.

(** The outcome of evaluating a Python expression: a value or a raised
    exception. *)
Inductive result (A : Type) :=
| Ok (a : A)
| Raise (e : exn).
Arguments Ok {A} a.
Arguments Raise {A} e.

Definition bind {A B} (r : result A) (k : A -> result B) : result B :=
  match r with
  | Ok a => k a
  | Raise e => Raise e
  end.

(** Decoded return values of a contract call ([Any] in the source).
    [VOther repr] stands for any other object, carried by its [str()]. *)
Inductive value :=
| VInt (z : Z)
| VBool (b : bool)
| VStr (s : string)
| VOther (repr : string).

End Py.
Import Py.

Notation "x <- c1 ;; c2" := (Py.bind c1 (fun x => c2))
  (at level 61, c1 at next level, right associativity).

(* ===================================================================== *)
(** ** Strings *)
(* ===================================================================== *)

Module Str.

Definition newline : ascii := ascii_of_nat 10.

Definition in_range (lo hi c : ascii) : bool :=
  ((nat_of_ascii lo <=? nat_of_ascii c) && (nat_of_ascii c <=? nat_of_ascii hi))%nat.

Definition is_digit (c : ascii) : bool := in_range "0" "9" c.
Definition is_lower_hex (c : ascii) : bool := in_range "a" "f" c.
Definition is_upper_hex (c : ascii) : bool := in_range "A" "F" c.

(** Membership in the character class [[a-fA-F0-9]]. *)
Definition is_hex (c : ascii) : bool :=
  is_lower_hex c || is_upper_hex c || is_digit c.

(** A digit or a lower-case hexadecimal letter. *)
Definition is_lower_digit (c : ascii) : bool := is_digit c || is_lower_hex c.

Fixpoint all_chars (p : ascii -> bool) (s : string) : bool :=
  match s with
  | EmptyString => true
  | String c s' => p c && all_chars p s'
  end.

Fixpoint map_chars (f : ascii -> ascii) (s : string) : string :=
  match s with
  | EmptyString => EmptyString
  | String c s' => String (f c) (map_chars f s')
  end.

(** [c.lower()] and [c.upper()] on one ASCII character. *)
Definition lower_char (c : ascii) : ascii :=
  if in_range "A" "Z" c then ascii_of_nat (nat_of_ascii c + 32) else c.
Definition upper_char (c : ascii) : ascii :=
  if in_range "a" "z" c then ascii_of_nat (nat_of_ascii c - 32) else c.

Definition lower (s : string) : string := map_chars lower_char s.

(** [s.startswith(p)] *)
Definition startswith (s p : string) : bool := String.prefix p s.

(** ASCII white space, what [str.strip()] removes of an ASCII text.  The
    method also removes the white space outside ASCII, which is not
    represented. *)
Definition is_space (c : ascii) : bool :=
  let n := nat_of_ascii c in
  ((9 <=? n) && (n <=? 13) || (28 <=? n) && (n <=? 32))%nat.

Fixpoint lstrip (s : string) : string :=
  match s with
  | String c s' => if is_space c then lstrip s' else s
  | EmptyString => EmptyString
  end.

Fixpoint rstrip (s : string) : string :=
  match s with
  | String c s' =>
      match rstrip s' with
      | EmptyString => if is_space c then EmptyString else String c EmptyString
      | kept => String c kept
      end
  | EmptyString => EmptyString
  end.

Definition strip (s : string) : string := rstrip (lstrip s).

(** [str(n)] for an [int].  The interpreter refuses the conversion of an
    integer of more than 4300 digits ([ValueError]); the numeral is the
    one [str] returns below that limit, and the statements keep to it. *)
Definition of_Z (z : Z) : string := NilZero.string_of_int (Z.to_int z).

End Str.

(* ===================================================================== *)
(** ** utils.py: is_valid_ethereum_address *)
(* ===================================================================== *)

Module Re.

(** The fragment of Python's [re] syntax that the package uses. *)
Inductive atom :=
| Bol                                   (* ^ *)
| Eol                                   (* $ *)
| Lit (c : ascii)                       (* a literal character *)
| Class (ranges : list (ascii * ascii)) (* [a-b...] *).

Definition in_class (ranges : list (ascii * ascii)) (c : ascii) : bool :=
  existsb (fun r => Str.in_range (fst r) (snd r) c) ranges.

(** [re.match(p, s)]: the pattern is matched at the start of [s] and need
    not consume all of it.  [at0] tells whether the current position is
    the start of the string.  Without [re.MULTILINE], [$] matches at the
    end of the string and also just before a newline that ends it. *)
Fixpoint match_at (at0 : bool) (p : list atom) (s : string) : bool :=
  match p with
  | [] => true
  | Bol :: p' => at0 && match_at at0 p' s
  | Eol :: p' =>
      match s with
      | EmptyString => match_at at0 p' s
      | String c EmptyString =>
          Ascii.eqb c Str.newline && match_at at0 p' s
      | _ => false
      end
  | Lit c :: p' =>
      match s with
      | String c' s' => Ascii.eqb c c' && match_at false p' s'
      | EmptyString => false
      end
  | Class rs :: p' =>
      match s with
      | String c' s' => in_class rs c' && match_at false p' s'
      | EmptyString => false
      end
  end.

Definition re_match (p : list atom) (s : string) : bool := match_at true p s.

(** [x{n}] for a one-character atom [x]. *)
Definition times (n : nat) (x : atom) : list atom := repeat x n.

End Re.

(** [r'^0x[a-fA-F0-9]{40}$'] *)
Definition address_pattern : list Re.atom :=
  ([Re.Bol; Re.Lit "0"; Re.Lit "x"]
     ++ Re.times 40 (Re.Class [("a", "f"); ("A", "F"); ("0", "9")]%char)
     ++ [Re.Eol])%list.

Definition is_valid_ethereum_address (address : string) : bool :=
  if String.eqb address "" then false
  else if negb (Re.re_match address_pattern address) then false
  else true.

(** The format the function documents: [0x], then 40 hexadecimal digits,
    42 characters in all. *)
Definition exact_address_format (s : string) : Prop :=
  exists body : string,
    s = "0x" ++ body /\ String.length body = 40%nat /\ Str.all_chars Str.is_hex body = true.

(* ===================================================================== *)
(** ** utils.py: to_checksum_address *)
(* ===================================================================== *)

Module Web3Lib.

(** [remove_0x_prefix]: drops a leading [0x] or [0X]. *)
Definition remove_0x_prefix (s : string) : string :=
  match s with
  | String "0" (String "x" rest) => rest
  | String "0" (String "X" rest) => rest
  | _ => s
  end.

(** [int(c, 16)] for one hexadecimal digit. *)
Definition hex_value (c : ascii) : option Z :=
  let n := Z.of_nat (nat_of_ascii c) in
  if Str.is_digit c then Some (n - 48)
  else if Str.is_lower_hex c then Some (n - 87)
  else if Str.is_upper_hex c then Some (n - 55)
  else None.

(** The casing step: character [i] of the lower-case body becomes upper
    case when digit [i] of the hash exceeds 7.  Indexing past the end of
    the hash, or a hash character that is no digit, raises. *)
Fixpoint recase (body hash : string) : option string :=
  match body with
  | EmptyString => Some EmptyString
  | String c body' =>
      match hash with
      | EmptyString => None
      | String h hash' =>
          match hex_value h, recase body' hash' with
          | Some v, Some rest =>
              Some (String (if 7 <? v then Str.upper_char c else c) rest)
          | _, _ => None
          end
      end
  end.

(** Modelled from the spec: [Web3.to_checksum_address] belongs to the
    [web3] package, which is not part of the sources.  Section 4.1 gives
    the algorithm (EIP-55): hash the lower-case hexadecimal body and set
    each digit to upper case when the corresponding nibble of the hash
    exceeds 7.  The input is an optionally [0x]-prefixed string of 40
    hexadecimal digits; anything else raises.  [keccak_hex] is the
    hexadecimal digest of a text, taken as a parameter. *)
Definition to_checksum_address (keccak_hex : string -> string) (value : string)
  : result string :=
  let unprefixed := remove_0x_prefix value in
  if Str.all_chars Str.is_hex unprefixed && (String.length unprefixed =? 40)%nat then
    let body := Str.lower unprefixed in
    match recase body (keccak_hex body) with
    | Some cased => Ok ("0x" ++ cased)
    | None => Raise (mkExn OtherException "checksum computation failed")
    end
  else
    Raise (mkExn OtherException "Unknown format, attempted to normalize to address").

End Web3Lib.

(** [try: return Web3.to_checksum_address(address) / except Exception:
    return address] *)
Definition to_checksum_address (keccak_hex : string -> string) (address : string) : string :=
  match Web3Lib.to_checksum_address keccak_hex address with
  | Ok checksummed => checksummed
  | Raise _ => address
  end.

(* ===================================================================== *)
(** ** Decoded JSON and utils.py: extract_view_functions *)
(* ===================================================================== *)

(** What [json.loads] produces.  A [dict] is kept as an association list
    read from the front.  Numbers that are not integers play no role in
    the package and are left out. *)
#[warnings="-register-all"]
Inductive json :=
| JNull
| JBool (b : bool)
| JNum (z : Z)
| JStr (s : string)
| JArr (items : list json)
| JObj (fields : list (string * json)).

Definition dict := list (string * json).

Module Dict.

(** [d.get(key)], [None] when the key is absent. *)
Fixpoint get (d : dict) (key : string) : option json :=
  match d with
  | [] => None
  | (k, v) :: d' => if String.eqb k key then Some v else get d' key
  end.

(** [d.get(key, default)] *)
Definition get_default (d : dict) (key : string) (default : json) : json :=
  match get d key with
  | Some v => v
  | None => default
  end.

(** [d[key] = v] *)
Fixpoint set (d : dict) (key : string) (v : json) : dict :=
  match d with
  | [] => [(key, v)]
  | (k, v') :: d' =>
      if String.eqb k key then (k, v) :: d' else (k, v') :: set d' key v
  end.

(** [d.update(other)] *)
Definition update (d other : dict) : dict :=
  fold_left (fun acc kv => set acc (fst kv) (snd kv)) other d.

End Dict.

Module Json.

(** The name Python gives to the type of a decoded value. *)
Definition type_name (j : json) : string :=
  match j with
  | JNull => "NoneType"
  | JBool _ => "bool"
  | JNum _ => "int"
  | JStr _ => "str"
  | JArr _ => "list"
  | JObj _ => "dict"
  end.

(** [len(j)] *)
Definition len (j : json) : result Z :=
  match j with
  | JStr s => Ok (Z.of_nat (String.length s))
  | JArr xs => Ok (Z.of_nat (List.length xs))
  | JObj fs => Ok (Z.of_nat (List.length fs))
  | _ => Raise (mkExn TypeError ("object of type '" ++ type_name j ++ "' has no len()"))
  end.

(** [bool(j)], the truth value used by [if not j]. *)
Definition truthy (j : json) : bool :=
  match j with
  | JNull => false
  | JBool b => b
  | JNum z => negb (z =? 0)
  | JStr s => negb (String.eqb s "")
  | JArr xs => match xs with [] => false | _ => true end
  | JObj fs => match fs with [] => false | _ => true end
  end.

(** [j == s] for a string literal [s]. *)
Definition eq_str (j : option json) (s : string) : bool :=
  match j with
  | Some (JStr s') => String.eqb s' s
  | _ => false
  end.

(** [j.get(key)] on an arbitrary value: only a [dict] has it. *)
Definition get (j : json) (key : string) : result (option json) :=
  match j with
  | JObj fs => Ok (Dict.get fs key)
  | _ => Raise (mkExn AttributeError
                  ("'" ++ type_name j ++ "' object has no attribute 'get'"))
  end.

(** [j.get(key, default)] *)
Definition get_default (j : json) (key : string) (default : json) : result json :=
  match j with
  | JObj fs => Ok (Dict.get_default fs key default)
  | _ => Raise (mkExn AttributeError
                  ("'" ++ type_name j ++ "' object has no attribute 'get'"))
  end.

End Json.

(** The test of the [if] in [extract_view_functions]; [and] evaluates its
    operands left to right and stops at the first false one, so [len] is
    reached only by view and pure functions. *)
Definition is_view_function (item : json) : result bool :=
  ty <- Json.get item "type" ;;
  if Json.eq_str ty "function" then
    mutability <- Json.get item "stateMutability" ;;
    if Json.eq_str mutability "view" || Json.eq_str mutability "pure" then
      inputs <- Json.get_default item "inputs" (JArr []) ;;
      n <- Json.len inputs ;;
      Ok (n =? 0)
    else Ok false
  else Ok false.

Fixpoint extract_view_functions (abi : list json) : result (list json) :=
  match abi with
  | [] => Ok []
  | item :: abi' =>
      keep <- is_view_function item ;;
      view_functions <- extract_view_functions abi' ;;
      Ok (if keep then item :: view_functions else view_functions)
  end.

(** An ABI entry as the data model has it: a [dict] whose [inputs], when
    present, is a list. *)
Definition abi_entry (item : json) : Prop :=
  exists fields, item = JObj fields /\
    exists params, Dict.get_default fields "inputs" (JArr []) = JArr params.

(** The selection predicate in the spec's words: kind [function],
    mutability [view] or [pure], no declared input. *)
Definition invocable (item : json) : bool :=
  match item with
  | JObj fields =>
      Json.eq_str (Dict.get fields "type") "function"
      && (Json.eq_str (Dict.get fields "stateMutability") "view"
          || Json.eq_str (Dict.get fields "stateMutability") "pure")
      && match Dict.get_default fields "inputs" (JArr []) with
         | JArr [] => true
         | _ => false
         end
  | _ => false
  end.

(* ===================================================================== *)
(** ** Effects *)
(* ===================================================================== *)

(** What an [async] function of the package does to the outside world.
    A run is described by its result and the list of these effects in
    program order. *)
Inductive event :=
| EvSleep (delay : Q)                  (* asyncio.sleep(delay) *)
| EvThrottleAcquire                    (* entering [async with throttler] *)
| EvThrottleRelease                    (* leaving it *)
| EvHttpGet (params : dict)            (* requests.get(base_url, params) *)
| EvIsConnected                        (* w3.is_connected() *)
| EvGetCode (address : string)         (* w3.eth.get_code(address) *)
| EvCreateContract (address : string)  (* w3.eth.contract(address, abi) *)
| EvCall (function_name : string)      (* func().call() *).

(** An effectful computation: its result and its trace. *)
Definition io (A : Type) : Type := (result A * list event)%type.

(** A Python callable that may answer differently each time it is called:
    [f k] is what call number [k] (from 0) returns and does. *)
Definition callable (A : Type) : Type := nat -> io A.

(** The effects that reach the network. *)
Definition is_network_call (ev : event) : bool :=
  match ev with
  | EvHttpGet _ | EvIsConnected | EvGetCode _ | EvCall _ => true
  | EvSleep _ | EvThrottleAcquire | EvThrottleRelease | EvCreateContract _ => false
  end.

Definition is_http_get (ev : event) : bool :=
  match ev with EvHttpGet _ => true | _ => false end.

Definition is_throttle_acquire (ev : event) : bool :=
  match ev with EvThrottleAcquire => true | _ => false end.

(* ===================================================================== *)
(** ** utils.py: retry_with_backoff *)
(* ===================================================================== *)

(** [raise last_exception]; raising [None] is a [TypeError]. *)
Definition raise_last {A} (last_exception : option exn) : result A :=
  match last_exception with
  | Some e => Raise e
  | None => Raise (mkExn TypeError "exceptions must derive from BaseException")
  end.

(** [base_delay * (backoff_factor ** attempt)].  The two operations are
    floating point operations: they return the exact power and the exact
    product where a float holds them, round otherwise, and the power
    raises [OverflowError] beyond the range of the format.  The delay is
    given here as the exact rational number, which is the value computed
    under [exact_delays] below; the statements about delays assume it. *)
Definition backoff_delay (base_delay backoff_factor : Q) (attempt : nat) : Q :=
  (base_delay * backoff_factor ^ Z.of_nat attempt)%Q.

(** [range(n)] *)
Definition range (n : Z) : list nat := seq 0 (Z.to_nat n).

(** The body of the [for attempt in ...] loop, over the attempts still to
    run.  The loop is left by [return] on success and by [break] at
    [attempt == max_retries]; when the attempts run out it falls through
    to [raise last_exception]. *)
Fixpoint retry_loop {A} (func : callable A) (max_retries : Z)
    (base_delay backoff_factor : Q)
    (attempts : list nat) (last_exception : option exn) : io A :=
  match attempts with
  | [] => (raise_last last_exception, [])
  | attempt :: rest =>
      match func attempt with
      | (Ok v, evs) => (Ok v, evs)
      | (Raise e, evs) =>
          if Z.of_nat attempt =? max_retries then (raise_last (Some e), evs)
          else
            let delay := backoff_delay base_delay backoff_factor attempt in
            let '(r, evs') :=
              retry_loop func max_retries base_delay backoff_factor rest (Some e) in
            (r, (evs ++ EvSleep delay :: evs')%list)
      end
  end.

Definition retry_with_backoff {A} (func : callable A) (max_retries : Z)
    (base_delay backoff_factor : Q) : io A :=
  retry_loop func max_retries base_delay backoff_factor
    (range (max_retries + 1)) None.

(** The defaults of the signature. *)
Definition default_base_delay : Q := 1.
Definition default_backoff_factor : Q := 2.

(* ===================================================================== *)
(** ** config.py and the outside world *)
(* ===================================================================== *)

Record Config := {
  etherscan_api_key : string;
  chain_id : Z;
  max_retries : Z;
}.

(** A bound contract: [getattr(contract.functions, name, None)] gives, for
    a function of the ABI, a callable whose [call()] is answered by the
    node. *)
Record Contract := {
  functions : string -> option (nat -> result value);
}.

(** Everything outside the package: the libraries' pure functions and the
    answers of the two services. *)
Record World := {
  keccak_hex : string -> string;
  json_loads : string -> option json;
  now_isoformat : string;
  is_connected : nat -> result bool;
  get_code : string -> nat -> result Z;          (* len(code) *)
  eth_contract : string -> list json -> nat -> result Contract;
  http_get_json : dict -> nat -> result json;    (* raise_for_status, then .json() *)
}.

(** Sequencing of effectful steps: the traces are concatenated. *)
Definition io_bind {A B} (m : io A) (k : A -> io B) : io B :=
  match m with
  | (Ok a, evs) => let '(r, evs') := k a in (r, (evs ++ evs')%list)
  | (Raise e, evs) => (Raise e, evs)
  end.

(** [try: body / except Exception: return default] *)
Definition io_catch {A} (m : io A) (default : A) : io A :=
  match m with
  | (Ok a, evs) => (Ok a, evs)
  | (Raise _, evs) => (Ok default, evs)
  end.

(** A step without effects. *)
Definition io_pure {A} (r : result A) : io A := (r, []).

(* ===================================================================== *)
(** ** etherscan_client.py *)
(* ===================================================================== *)

Section EtherscanClient.

Variable config : Config.
Variable world : World.

(** The rate limiter slot is taken on entering [async with
    self.throttler] and the whole retry loop runs inside that block. *)
Definition _make_request (params : dict) : io json :=
  let params :=
    Dict.update params
      [("apikey", JStr (etherscan_api_key config));
       ("chainid", JNum (chain_id config))] in
  let make_sync_request : callable json :=
    fun k => (http_get_json world params k, [EvHttpGet params]) in
  let '(r, evs) :=
    retry_with_backoff make_sync_request (max_retries config)
      default_base_delay default_backoff_factor in
  (r, (EvThrottleAcquire :: evs ++ [EvThrottleRelease])%list).

(** [safe_json_loads]: [TypeError] for a value that is no string and
    [JSONDecodeError] both give [None]. *)
Definition safe_json_loads (data : json) : option json :=
  match data with
  | JStr text => json_loads world text
  | _ => None
  end.

Definition contract_query (action contract_address : string) : dict :=
  [("module", JStr "contract"); ("action", JStr action);
   ("address", JStr contract_address)].

Definition get_contract_abi (contract_address : string) : io (option (list json)) :=
  io_catch
    (io_bind (_make_request (contract_query "getabi" contract_address))
       (fun response => io_pure (
          status <- Json.get response "status" ;;
          if negb (Json.eq_str status "1") then Ok None
          else
            abi_string <- Json.get_default response "result" (JStr "") ;;
            if negb (Json.truthy abi_string) then Ok None
            else
              match safe_json_loads abi_string with
              | Some (JArr abi) => Ok (Some abi)
              | _ => Ok None
              end)))
    None.

Definition get_contract_source_code (contract_address : string) : io (option json) :=
  io_catch
    (io_bind (_make_request (contract_query "getsourcecode" contract_address))
       (fun response => io_pure (
          status <- Json.get response "status" ;;
          if negb (Json.eq_str status "1") then Ok None
          else
            result <- Json.get_default response "result" (JArr []) ;;
            match result with
            | JArr (first :: _) => Ok (Some first)
            | _ => Ok None
            end)))
    None.

(** [source_info.get("ContractName", "").strip() or None] *)
Definition get_contract_name (contract_address : string) : io (option string) :=
  io_catch
    (io_bind (get_contract_source_code contract_address)
       (fun source_info => io_pure (
          match source_info with
          | None => Ok None
          | Some info =>
              if negb (Json.truthy info) then Ok None
              else
                name <- Json.get_default info "ContractName" (JStr "") ;;
                match name with
                | JStr text =>
                    let stripped := Str.strip text in
                    Ok (if String.eqb stripped "" then None else Some stripped)
                | _ => Raise (mkExn AttributeError "object has no attribute 'strip'")
                end
          end)))
    None.

End EtherscanClient.

(* ===================================================================== *)
(** ** web3_client.py *)
(* ===================================================================== *)

(** The [dict] a call returns: [result] only on success, [error] only on
    failure.  The name is whatever the caller passed: the orchestrator
    passes [func["name"]] as decoded. *)
Record call_result := {
  cr_function_name : json;
  cr_status : string;
  cr_result : option value;
  cr_error : option string;
}.

Definition call_success (function_name : json) (v : value) : call_result :=
  {| cr_function_name := function_name; cr_status := "success";
     cr_result := Some v; cr_error := None |}.

Definition call_error (function_name : json) (msg : string) : call_result :=
  {| cr_function_name := function_name; cr_status := "error";
     cr_result := None; cr_error := Some msg |}.

(** The state of the two objects the analyzer owns. *)
Record Analyzer := {
  _initialized : bool;
  _connection_verified : bool;
}.

Section Web3Client.

Variable config : Config.
Variable world : World.

Definition verify_connection (self : Analyzer) : io bool * Analyzer :=
  let check_connection : callable bool :=
    fun k => (is_connected world k, [EvIsConnected]) in
  match retry_with_backoff check_connection 3
          default_base_delay default_backoff_factor with
  | (Ok verified, evs) =>
      ((Ok verified, evs),
       {| _initialized := _initialized self; _connection_verified := verified |})
  | (Raise _, evs) => ((Ok false, evs), self)
  end.

Definition is_contract_address (address : string) : io bool :=
  let checksum_address := to_checksum_address (keccak_hex world) address in
  let get_code : callable bool :=
    fun k => (code_len <- get_code world checksum_address k ;; Ok (0 <? code_len),
              [EvGetCode checksum_address]) in
  io_catch
    (retry_with_backoff get_code (max_retries config)
       default_base_delay default_backoff_factor)
    false.

Definition get_contract_instance (address : string) (abi : list json)
  : io (option Contract) :=
  let checksum_address := to_checksum_address (keccak_hex world) address in
  let create_contract : callable (option Contract) :=
    fun k => (c <- eth_contract world checksum_address abi k ;; Ok (Some c),
              [EvCreateContract checksum_address]) in
  io_catch
    (retry_with_backoff create_contract (max_retries config)
       default_base_delay default_backoff_factor)
    None.

(** The three [except] clauses, tried in order. *)
Definition classify_exception (function_name : json) (e : exn) : call_result :=
  if is_contract_logic_error e then
    call_error function_name ("合约逻辑错误: " ++ exn_msg e)
  else if is_web3_exception e then
    call_error function_name ("Web3 错误: " ++ exn_msg e)
  else
    call_error function_name ("未知错误: " ++ exn_msg e).

(** The whole body is inside [try].  [getattr(contract.functions,
    function_name, None)] with a name that is no string raises
    [TypeError], which the last [except] clause turns into an outcome. *)
Definition call_view_function (contract : Contract) (function_name : json)
  : io call_result :=
  match function_name with
  | JStr name =>
      match functions contract name with
      | None =>
          (Ok (call_error function_name ("函数 " ++ name ++ " 不存在")), [])
      | Some func =>
          let call_function : callable value :=
            fun k => (func k, [EvCall name]) in
          match retry_with_backoff call_function (max_retries config)
                  default_base_delay default_backoff_factor with
          | (Ok result, evs) => (Ok (call_success function_name result), evs)
          | (Raise e, evs) => (Ok (classify_exception function_name e), evs)
          end
      end
  | _ =>
      (Ok (classify_exception function_name
             (mkExn TypeError
                ("attribute name must be string, not '"
                   ++ Json.type_name function_name ++ "'"))), [])
  end.

(** [asyncio.gather] with [return_exceptions=True]: one entry per
    task, in the order of the tasks, an exception taking the place of
    the result of the task that raised it.  The traces are listed task
    by task; the interleaving the event loop picks is not represented. *)
Definition gather {A} (tasks : list (io A)) : list (result A) * list event :=
  (map fst tasks, List.concat (map snd tasks)).

(** [function_names[i]] *)
Definition index {A} (xs : list A) (i : nat) : result A :=
  match nth_error xs i with
  | Some x => Ok x
  | None => Raise (mkExn OtherException "list index out of range")
  end.

(** The [for i, result in enumerate(results)] loop; [i] is the index of
    the head of [results]. *)
Fixpoint process_gathered (function_names : list json) (i : nat)
    (results : list (result call_result)) (processed_results : list call_result)
  : result (list call_result) :=
  match results with
  | [] => Ok processed_results
  | Raise e :: rest =>
      name <- index function_names i ;;
      process_gathered function_names (S i) rest
        (processed_results ++ [call_error name ("调用异常: " ++ exn_msg e)])%list
  | Ok r :: rest =>
      process_gathered function_names (S i) rest (processed_results ++ [r])%list
  end.

Definition batch_call_view_functions (contract : Contract) (function_names : list json)
  : io (list call_result) :=
  let tasks := map (call_view_function contract) function_names in
  let '(results, evs) := gather tasks in
  (process_gathered function_names 0 results [], evs).

End Web3Client.

(* ===================================================================== *)
(** ** Floats: [int / int] and the [.6f] format *)
(* ===================================================================== *)

Module Float.

(** A finite binary64 number, [mantissa * 2 ^ exponent] with
    [|mantissa| <= 2^53]. *)
Record t := mk { mantissa : Z; exponent : Z }.

(** [n / d] rounded to the nearest integer, ties to the even one, for
    [0 <= n] and [0 < d]. *)
Definition round_half_even (n d : Z) : Z :=
  let q := n / d in
  let r := n mod d in
  if 2 * r <? d then q
  else if d <? 2 * r then q + 1
  else if Z.even q then q else q + 1.

(** [floor (log2 (a / b))] for positive [a] and [b]. *)
Definition log2_quotient (a b : Z) : Z :=
  let k := Z.log2 a - Z.log2 b in
  let below := if 0 <=? k then a <? b * 2 ^ k else a * 2 ^ (- k) <? b in
  if below then k - 1 else k.

(** The quotient of two positive integers, correctly rounded to 53
    significant bits (or to a multiple of [2^-1074] when subnormal). *)
Definition divide_pos (a b : Z) : t :=
  let e := Z.max (log2_quotient a b - 52) (-1074) in
  let m := if 0 <=? e then round_half_even a (b * 2 ^ e)
           else round_half_even (a * 2 ^ (- e)) b in
  mk m e.

Definition overflows (x : t) : bool :=
  (0 <=? exponent x) && (2 ^ 1024 <=? Z.abs (mantissa x) * 2 ^ exponent x).

(** [a / b] on two [int]s: true division, correctly rounded. *)
Definition true_divide (a b : Z) : result t :=
  if b =? 0 then Raise (mkExn OtherException "division by zero")
  else if a =? 0 then Ok (mk 0 0)
  else
    let x := divide_pos (Z.abs a) (Z.abs b) in
    if overflows x then
      Raise (mkExn OverflowError "integer division result too large for a float")
    else Ok (mk (Z.sgn a * Z.sgn b * mantissa x) (exponent x)).

(** A natural number below [10^width], left-padded with zeros. *)
Fixpoint pad_digits (width : nat) (n : Z) : string :=
  match width with
  | O => EmptyString
  | S w => (pad_digits w (n / 10) ++ Str.of_Z (n mod 10))%string
  end.

(** [f"{x:.6f}"]: the exact value of [x] rounded to six decimals, ties
    to even. *)
Definition format_f6 (x : t) : string :=
  let m := Z.abs (mantissa x) in
  let e := exponent x in
  let scaled := if 0 <=? e then m * 2 ^ e * 10 ^ 6
                else round_half_even (m * 10 ^ 6) (2 ^ (- e)) in
  ((if (mantissa x <? 0)%Z then "-" else "")
     ++ Str.of_Z (scaled / 10 ^ 6) ++ "." ++ pad_digits 6 (scaled mod 10 ^ 6))%string.

End Float.

(* ===================================================================== *)
(** ** contract_analyzer.py *)
(* ===================================================================== *)

(** An entry of [successful_functions]; the two optional keys are the
    ones the classifier may attach. *)
Record formatted_result := {
  fr_function_name : json;
  fr_result : value;
  fr_type : string;
  fr_status : string;
  fr_formatted_value : option string;
  fr_checksum_address : option string;
}.

(** An entry of [failed_functions]. *)
Record failed_call := {
  fc_function_name : json;
  fc_error : string;
  fc_status : string;
}.

Record analysis_summary := {
  total_view_functions : Z;
  successful_calls : Z;
  failed_calls : Z;
}.

(** The [dict] that [analyze_contract] returns.  A key that a report
    lacks and a key bound to [None] are both [None] here. *)
Record report := {
  status : string;
  error : option string;
  message : option string;
  contract_address : option string;
  contract_name : option string;
  total_functions : option Z;
  summary : option analysis_summary;
  successful_functions : option (list formatted_result);
  failed_functions : option (list failed_call);
  timestamp : string;
}.

Definition error_report (msg : string) (address : option string) (now : string) : report :=
  {| status := "error"; error := Some msg; message := None;
     contract_address := address; contract_name := None; total_functions := None;
     summary := None; successful_functions := None; failed_functions := None;
     timestamp := now |}.

Definition warning_report (msg address : string) (total : Z) (now : string) : report :=
  {| status := "warning"; error := None; message := Some msg;
     contract_address := Some address; contract_name := None;
     total_functions := Some total;
     summary := None; successful_functions := None; failed_functions := None;
     timestamp := now |}.

(** [isinstance(v, int)], with the integer: [bool] is a subclass of
    [int]. *)
Definition as_int (v : value) : option Z :=
  match v with
  | VInt z => Some z
  | VBool b => Some (if b then 1 else 0)
  | _ => None
  end.

(** [str(v)] *)
Definition py_str (v : value) : string :=
  match v with
  | VInt z => Str.of_Z z
  | VBool b => if b then "True" else "False"
  | VStr s => s
  | VOther repr => repr
  end.

Definition _format_large_number (value : Z) : result string :=
  if 10 ^ 18 <=? value then
    x <- Float.true_divide value (10 ^ 18) ;;
    Ok (Float.format_f6 x ++ " Ether")
  else if 10 ^ 15 <=? value then
    x <- Float.true_divide value (10 ^ 15) ;;
    Ok (Float.format_f6 x ++ " milli-Ether")
  else if 10 ^ 12 <=? value then
    x <- Float.true_divide value (10 ^ 12) ;;
    Ok (Float.format_f6 x ++ " micro-Ether")
  else Ok (Str.of_Z value).

Definition _get_output_type (func_info : json) : result json :=
  outputs <- Json.get_default func_info "outputs" (JArr []) ;;
  if negb (Json.truthy outputs) then Ok (JStr "void")
  else
    n <- Json.len outputs ;;
    if n =? 1 then
      match outputs with
      | JArr (first :: _) => Json.get_default first "type" (JStr "unknown")
      | JStr _ => Raise (mkExn AttributeError "'str' object has no attribute 'get'")
      | _ => Raise (mkExn KeyError "0")
      end
    else Ok (JStr "tuple").

Section ContractAnalyzer.

Variable config : Config.
Variable world : World.

Definition initialize (self : Analyzer) : io bool * Analyzer :=
  if _initialized self then ((Ok true, []), self)
  else
    let '((connection_ok, evs), self) := verify_connection world self in
    match connection_ok with
    | Ok true =>
        ((Ok true, evs),
         {| _initialized := true;
            _connection_verified := _connection_verified self |})
    | Ok false => ((Ok false, evs), self)
    | Raise e => ((Raise e, evs), self)
    end.

(** [output_type.startswith("uint")]: only a [str] has the method. *)
Definition as_type_string (output_type : json) : result string :=
  match output_type with
  | JStr s => Ok s
  | _ => Raise (mkExn AttributeError
                  ("'" ++ Json.type_name output_type
                     ++ "' object has no attribute 'startswith'"))
  end.

(** [result["result"]] *)
Definition result_of (r : call_result) : result value :=
  match cr_result r with
  | Some v => Ok v
  | None => Raise (mkExn KeyError "'result'")
  end.

(** The four keys every entry of [successful_functions] has. *)
Definition basic_result (r : call_result) (value : value) (output_type : string)
  : formatted_result :=
  {| fr_function_name := cr_function_name r; fr_result := value;
     fr_type := output_type; fr_status := "success";
     fr_formatted_value := None; fr_checksum_address := None |}.

(** [formatted_result["formatted_value"] = text] *)
Definition set_formatted_value (fr : formatted_result) (text : string)
  : formatted_result :=
  {| fr_function_name := fr_function_name fr; fr_result := fr_result fr;
     fr_type := fr_type fr; fr_status := fr_status fr;
     fr_formatted_value := Some text;
     fr_checksum_address := fr_checksum_address fr |}.

(** [formatted_result["checksum_address"] = text] *)
Definition set_checksum_address (fr : formatted_result) (text : string)
  : formatted_result :=
  {| fr_function_name := fr_function_name fr; fr_result := fr_result fr;
     fr_type := fr_type fr; fr_status := fr_status fr;
     fr_formatted_value := fr_formatted_value fr;
     fr_checksum_address := Some text |}.

(** The branch of step 7 taken by a successful call: the basic keys,
    then the value attached for the type. *)
Definition format_success (func_info : json) (r : call_result)
  : result formatted_result :=
  output_type <- _get_output_type func_info ;;
  value <- result_of r ;;
  output_type <- as_type_string output_type ;;
  let formatted_result := basic_result r value output_type in
  match (if Str.startswith output_type "uint" then as_int value else None) with
  | Some n =>
      if 10 ^ 15 <? n then
        text <- _format_large_number n ;;
        Ok (set_formatted_value formatted_result text)
      else Ok formatted_result
  | None =>
      if String.eqb output_type "address" then
        Ok (set_checksum_address formatted_result
              (to_checksum_address (keccak_hex world) (py_str value)))
      else Ok formatted_result
  end.

(** The branch taken by every other call. *)
Definition format_failure (r : call_result) : failed_call :=
  {| fc_function_name := cr_function_name r;
     fc_error := match cr_error r with
                 | Some msg => msg
                 | None => "未知错误"
                 end;
     fc_status := "failed" |}.

(** The loop [for i, result in enumerate(call_results)] of step 7, at
    index [i], with the two lists built so far. *)
Fixpoint partition_results (view_functions : list json) (i : nat)
    (call_results : list call_result)
    (successful_calls : list formatted_result) (failed_calls : list failed_call)
  : result (list formatted_result * list failed_call) :=
  match call_results with
  | [] => Ok (successful_calls, failed_calls)
  | r :: rest =>
      if String.eqb (cr_status r) "success" then
        func_info <- index view_functions i ;;
        formatted_result <- format_success func_info r ;;
        partition_results view_functions (S i) rest
          (successful_calls ++ [formatted_result])%list failed_calls
      else
        partition_results view_functions (S i) rest
          successful_calls (failed_calls ++ [format_failure r])%list
  end.

(** [[func["name"] for func in view_functions]] *)
Fixpoint function_names_of (view_functions : list json) : result (list json) :=
  match view_functions with
  | [] => Ok []
  | func :: rest =>
      name <- Json.get func "name" ;;
      match name with
      | Some name =>
          names <- function_names_of rest ;;
          Ok (name :: names)
      | None => Raise (mkExn KeyError "'name'")
      end
  end.

(** [len([f for f in abi if f.get("type") == "function"])] *)
Fixpoint count_functions (abi : list json) : result Z :=
  match abi with
  | [] => Ok 0
  | f :: rest =>
      ty <- Json.get f "type" ;;
      n <- count_functions rest ;;
      Ok (if Json.eq_str ty "function" then 1 + n else n)
  end.

(** [len(xs)] *)
Definition len {A} (xs : list A) : Z := Z.of_nat (List.length xs).

(** Steps 3 to 7, once the address is known to be a contract. *)
Definition analyze_abi (checksum_address : string) (abi : list json) : io report :=
  let now := now_isoformat world in
  io_bind (io_pure (extract_view_functions abi)) (fun view_functions =>
  match view_functions with
  | [] =>
      io_pure (total <- count_functions abi ;;
               Ok (warning_report "合约中没有找到无参数的 view 函数"
                     checksum_address total now))
  | _ =>
      io_bind (get_contract_instance config world checksum_address abi) (fun contract =>
      match contract with
      | None =>
          io_pure (Ok (error_report "创建合约实例失败" (Some checksum_address) now))
      | Some contract =>
          io_bind (io_pure (function_names_of view_functions)) (fun function_names =>
          io_bind (batch_call_view_functions config contract function_names)
            (fun call_results =>
          io_bind (io_pure (partition_results view_functions 0 call_results [] []))
            (fun lists =>
          let '(successful_calls, failed_calls) := lists in
          io_bind (get_contract_name config world checksum_address)
            (fun contract_name =>
          io_pure (Ok
            {| status := "success"; error := None; message := None;
               contract_address := Some checksum_address;
               contract_name := contract_name;
               total_functions := None;
               summary := Some
                 {| total_view_functions := len view_functions;
                    successful_calls := len successful_calls;
                    failed_calls := len failed_calls |};
               successful_functions := Some successful_calls;
               failed_functions :=
                 match failed_calls with
                 | [] => None
                 | _ => Some failed_calls
                 end;
               timestamp := now |})))))
      end)
  end).

Definition analyze_contract (self : Analyzer) (contract_address : string)
  : io report * Analyzer :=
  let now := now_isoformat world in
  let '(initialized, self) := initialize self in
  (io_bind initialized (fun ok =>
   if negb ok then
     io_pure (Ok (error_report "分析器初始化失败" None now))
   else if negb (is_valid_ethereum_address contract_address) then
     io_pure (Ok (error_report ("无效的以太坊地址格式: " ++ contract_address) None now))
   else
     let checksum_address :=
       to_checksum_address (keccak_hex world) contract_address in
     io_bind (is_contract_address config world checksum_address) (fun is_contract =>
     if negb is_contract then
       io_pure (Ok (error_report ("地址 " ++ checksum_address ++ " 不是合约地址")
                      None now))
     else
       io_bind (get_contract_abi config world checksum_address) (fun abi =>
       match abi with
       | None | Some [] =>
           io_pure (Ok (error_report "无法获取合约 ABI，可能合约未验证"
                          (Some checksum_address) now))
       | Some abi => analyze_abi checksum_address abi
       end))),
   self).

End ContractAnalyzer.

(* ===================================================================== *)
(** ** Vocabulary of the statements *)
(* ===================================================================== *)

(** The trace of the attempts number [a] to [a + more] of a retried
    callable when all but the last one raise: each attempt's own effects,
    and between attempt [j] and the next one a sleep of
    [base_delay * backoff_factor ^ j]. *)
Fixpoint attempts_trace {A} (func : callable A) (base_delay backoff_factor : Q)
    (a more : nat) : list event :=
  match more with
  | O => snd (func a)
  | S more' =>
      (snd (func a) ++ EvSleep (backoff_delay base_delay backoff_factor a)
         :: attempts_trace func base_delay backoff_factor (S a) more')%list
  end.

(** Call number [k] of [func] raises. *)
Definition raises {A} (func : callable A) (k : nat) : Prop :=
  exists e, fst (func k) = Raise e.

(** A rational number that a binary64 float holds: [m * 2^e] with a
    mantissa of at most 53 bits and an exponent in the range of the
    format. *)
Definition binary64 (q : Q) : Prop :=
  exists m e : Z,
    Z.abs m < 2 ^ 53 /\ -1074 <= e <= 971 /\ (q == inject_Z m * 2 ^ e)%Q.

(** The delays of the retry policy lose nothing to floating point: the
    two arguments are floats, and for every attempt that a sleep can
    follow, the power [backoff_factor ** attempt] and its product with
    [base_delay] are numbers a float holds, so that both operations
    return them as they are.  The defaults [1.0] and [2.0] satisfy it up
    to a budget of 1024 retries. *)
Definition exact_delays (base_delay backoff_factor : Q) (max_retries : Z) : Prop :=
  binary64 base_delay /\ binary64 backoff_factor /\
  forall attempt : nat,
    Z.of_nat attempt < max_retries ->
    binary64 (backoff_factor ^ Z.of_nat attempt) /\
    binary64 (base_delay * backoff_factor ^ Z.of_nat attempt).

(** Reading a trace from the left, every HTTP request finds a rate
    limiter slot acquired since the request before it; [fresh] tells
    whether such a slot is at hand. *)
Fixpoint slot_before_each_request (fresh : bool) (trace : list event) : bool :=
  match trace with
  | [] => true
  | EvThrottleAcquire :: rest => slot_before_each_request true rest
  | EvHttpGet _ :: rest => fresh && slot_before_each_request false rest
  | _ :: rest => slot_before_each_request fresh rest
  end.

(** The effects of a retried HTTP request: the request and the sleeps. *)
Definition is_request_or_sleep (ev : event) : bool :=
  match ev with
  | EvHttpGet _ | EvSleep _ => true
  | _ => false
  end.

(** [xs.count] of the events that satisfy [p]. *)
Definition count_events (p : event -> bool) (trace : list event) : nat :=
  List.length (filter p trace).

(** The invocation of [name] on [contract] cannot succeed: the name is no
    string, the contract has no such function, or every attempt the
    retry budget allows raises. *)
Definition invocation_fails (config : Config) (contract : Contract) (name : json) : Prop :=
  match name with
  | JStr s =>
      match functions contract s with
      | None => True
      | Some func =>
          forall k, Z.of_nat k <= max_retries config -> exists e, func k = Raise e
      end
  | _ => True
  end.

(** The invocation of [name] on [contract] returns [v]: some attempt
    within the retry budget returns it after the attempts before it
    raised. *)
Definition invocation_returns (config : Config) (contract : Contract) (name : json)
    (v : value) : Prop :=
  exists s func k,
    name = JStr s /\ functions contract s = Some func /\
    Z.of_nat k <= max_retries config /\
    (forall j, (j < k)%nat -> exists e, func j = Raise e) /\
    func k = Ok v.

(** Two contracts answer the invocation of [name] alike. *)
Definition same_invocation (c1 c2 : Contract) (name : json) : Prop :=
  match name with
  | JStr s =>
      match functions c1 s, functions c2 s with
      | None, None => True
      | Some f1, Some f2 => forall k, f1 k = f2 k
      | _, _ => False
      end
  | _ => True
  end.

(** The entry of the batch for one name: the outcome of its call, or, had
    the call itself raised, the outcome the batch makes of the exception. *)
Definition call_outcome (config : Config) (contract : Contract) (name : json)
  : call_result :=
  match fst (call_view_function config contract name) with
  | Ok r => r
  | Raise e => call_error name ("调用异常: " ++ exn_msg e)
  end.

(** The effects of the liveness check: the probe and the backoff sleeps. *)
Definition is_probe_or_sleep (ev : event) : bool :=
  match ev with
  | EvIsConnected | EvSleep _ => true
  | _ => false
  end.

(** The two reasons a malformed address can meet. *)
Definition invalid_address_report (world : World) (contract_address : string) : report :=
  error_report ("无效的以太坊地址格式: " ++ contract_address) None (now_isoformat world).

Definition initialization_failed_report (world : World) : report :=
  error_report "分析器初始化失败" None (now_isoformat world).



(** A report whose summary and lists agree. *)
Definition consistent (rep : report) : Prop :=
  exists s successful,
    summary rep = Some s /\
    successful_functions rep = Some successful /\
    total_view_functions s = successful_calls s + failed_calls s /\
    len successful = successful_calls s /\
    (failed_calls s = 0 -> failed_functions rep = None) /\
    failed_functions rep <> Some [] /\
    (forall failed, failed_functions rep = Some failed -> len failed = failed_calls s).

(* ===================================================================== *)
(** ** Sample inputs *)
(* ===================================================================== *)

Module Sample.

(** Forty times the digit [a]. *)
Definition forty_a : string := "aaaaaaaaaaaaaaaaaaaaaaaaaaaaaaaaaaaaaaaa".

(** A well-formed address followed by a line feed, 43 characters. *)
Definition address_with_newline : string :=
  "0x" ++ forty_a ++ String Str.newline "".

(** The EIP-55 reference address in lower case. *)
Definition lower_address : string := "0x5aaeb6053f3e94c9b9a09f33669435e7ef1beaed".

(** A hash for the examples: the Keccak-256 digest of the body of
    [lower_address], and zeros for every other text. *)
Definition sample_keccak (text : string) : string :=
  if String.eqb text "5aaeb6053f3e94c9b9a09f33669435e7ef1beaed"
  then "d385650ce8fdc6db7ee3a091d34814dbc4ce18219ffae52182efff4034d707e5"
  else "0000000000000000000000000000000000000000000000000000000000000000".

End Sample.

(** A token contract, its ABI and a world that serves it. *)
Module Token.

Definition address : string := Sample.lower_address.

Definition abi_entry_of (kind name mutability : string) (inputs outputs : list json)
  : json :=
  JObj [("type", JStr kind); ("name", JStr name);
        ("stateMutability", JStr mutability);
        ("inputs", JArr inputs); ("outputs", JArr outputs)].

Definition param (name type : string) : json :=
  JObj [("name", JStr name); ("type", JStr type)].

Definition totalSupply : json :=
  abi_entry_of "function" "totalSupply" "view" [] [param "" "uint256"].
Definition balanceOf : json :=
  abi_entry_of "function" "balanceOf" "view" [param "owner" "address"] [param "" "uint256"].
Definition transfer : json :=
  abi_entry_of "function" "transfer" "nonpayable" [] [param "" "bool"].
Definition paused : json :=
  abi_entry_of "function" "paused" "view" [] [param "" "bool"].

Definition abi : list json := [totalSupply; balanceOf; transfer; paused].

(** [totalSupply()] answers at once; [paused()] reverts at each call. *)
Definition contract : Contract :=
  {| functions := fun name =>
       if String.eqb name "totalSupply" then
         Some (fun _ => Ok (VInt 1000000000000000000000))
       else if String.eqb name "paused" then
         Some (fun _ => Raise (mkExn ContractLogicError "execution reverted"))
       else None |}.

(** The same contract with a [paused()] that answers. *)
Definition healthy_contract : Contract :=
  {| functions := fun name =>
       if String.eqb name "totalSupply" then
         Some (fun _ => Ok (VInt 1000000000000000000000))
       else if String.eqb name "paused" then
         Some (fun _ => Ok (VBool false))
       else None |}.

Definition config : Config :=
  {| etherscan_api_key := "KEY"; chain_id := 1; max_retries := 3 |}.

(** The answers of the metadata service to the two actions. *)
Definition explorer (params : dict) : result json :=
  if Json.eq_str (Dict.get params "action") "getabi" then
    Ok (JObj [("status", JStr "1"); ("message", JStr "OK");
              ("result", JStr "<abi>")])
  else
    Ok (JObj [("status", JStr "1"); ("message", JStr "OK");
              ("result", JArr [JObj [("ContractName", JStr " Token ")]])]).

(** A world around the token, given the answers of the liveness probe
    and of the HTTP transport. *)
Definition world_with (probe : nat -> result bool) (http : dict -> nat -> result json)
  : World :=
  {| keccak_hex := Sample.sample_keccak;
     json_loads := fun text =>
       if String.eqb text "<abi>" then Some (JArr abi) else None;
     now_isoformat := "2025-01-01T00:00:00";
     is_connected := probe;
     get_code := fun _ _ => Ok 2048;
     eth_contract := fun _ _ _ => Ok contract;
     http_get_json := http |}.

(** Both services up. *)
Definition world : World := world_with (fun _ => Ok true) (fun params _ => explorer params).

(** The node is not reachable. *)
Definition offline_world : World :=
  world_with (fun _ => Ok false) (fun params _ => explorer params).

(** The first HTTP attempt of each request times out. *)
Definition flaky_world : World :=
  world_with (fun _ => Ok true)
    (fun params k =>
       match k with
       | O => Raise (mkExn OtherException "timed out")
       | _ => explorer params
       end).

(** A callable that raises twice and then returns. *)
Definition flaky : callable Z :=
  fun k =>
    if (k <? 2)%nat then (Raise (mkExn OtherException "timed out"), [EvIsConnected])
    else (Ok 7, [EvIsConnected]).

Definition fresh_analyzer : Analyzer :=
  {| _initialized := false; _connection_verified := false |}.

End Token.

(** The report of the sample token. *)
Definition token_report : result report :=
  fst (fst (analyze_contract Token.config Token.world Token.fresh_analyzer Token.address)).

(* ===================================================================== *)
(** ** utils.py: truncate_string, format_wei_value, format_function_result *)
(* ===================================================================== *)

Section TruncateString.

(** [len] and slicing count characters, so the text is taken as the list
    of its characters, whatever the alphabet; [dot] is the full stop. *)
Context {char : Type}.
Variable dot : char.

(** [text[:stop]]: a negative [stop] counts from the end. *)
Definition slice_to (text : list char) (stop : Z) : list char :=
  if 0 <=? stop then firstn (Z.to_nat stop) text
  else firstn (Z.to_nat (Z.of_nat (List.length text) + stop)) text.

Definition truncate_string (text : list char) (max_length : Z) : list char :=
  if Z.of_nat (List.length text) <=? max_length then text
  else (slice_to text (max_length - 3) ++ [dot; dot; dot])%list.

End TruncateString.

Module Fmt.

(** [s.rstrip(c)] for a one-character argument. *)
Fixpoint rstrip_char (c : ascii) (s : string) : string :=
  match s with
  | String c' s' =>
      match rstrip_char c s' with
      | EmptyString => if Ascii.eqb c' c then EmptyString else String c' EmptyString
      | kept => String c' kept
      end
  | EmptyString => EmptyString
  end.

(** [f"{x:.{digits}f}"]: the exact value of [x] rounded to [digits]
    decimals, ties to even; no decimal point when [digits] is 0. *)
Definition format_fixed (digits : nat) (x : Float.t) : string :=
  let m := Z.abs (Float.mantissa x) in
  let e := Float.exponent x in
  let unit := 10 ^ Z.of_nat digits in
  let scaled := if 0 <=? e then m * 2 ^ e * unit
                else Float.round_half_even (m * unit) (2 ^ (- e)) in
  ((if (Float.mantissa x <? 0)%Z then "-" else "")
     ++ Str.of_Z (scaled / unit)
     ++ match digits with
        | O => ""
        | _ => "." ++ Float.pad_digits digits (scaled mod unit)
        end)%string.

(** [f"{value / divisor:.{digits}f}"] for an [int] by a positive [int].
    Division and format are symmetric in the sign, and a negative
    quotient keeps its sign when it rounds to zero ([-0.0]): the sign is
    therefore printed apart from the quotient of the absolute value. *)
Definition format_quotient (digits : nat) (value divisor : Z) : result string :=
  x <- Float.true_divide (Z.abs value) divisor ;;
  Ok ((if (value <? 0)%Z then "-" else "") ++ format_fixed digits x)%string.

(** [needle in s] *)
Fixpoint contains (needle s : string) : bool :=
  String.prefix needle s
  || match s with
     | String _ s' => contains needle s'
     | EmptyString => false
     end.

End Fmt.

(** The body of the [try] of [format_wei_value].  With a negative
    [decimals] the divisor is a float and the format specifier has a
    negative precision: whatever the division does, an exception is
    raised before a string is produced. *)
Definition format_wei_value_try (value decimals : Z) : result string :=
  if value =? 0 then Ok "0"
  else if decimals <? 0 then
    Raise (mkExn OtherException "Format specifier missing precision")
  else
    printed <- Fmt.format_quotient (Z.to_nat decimals) value (10 ^ decimals) ;;
    let formatted := Fmt.rstrip_char "." (Fmt.rstrip_char "0" printed) in
    Ok (if String.eqb formatted "" then "0" else formatted).

(** [except Exception: return str(value)] *)
Definition format_wei_value (value decimals : Z) : string :=
  match format_wei_value_try value decimals with
  | Ok formatted => formatted
  | Raise _ => Str.of_Z value
  end.

(** [bool(v)]; the truth value of an object known only by its [str()] is
    given by [truth]. *)
Definition py_bool (truth : string -> bool) (v : value) : bool :=
  match v with
  | VInt z => negb (z =? 0)
  | VBool b => b
  | VStr s => negb (String.eqb s "")
  | VOther repr => truth repr
  end.

(** [isinstance(v, str)], with the string. *)
Definition as_str (v : value) : option string :=
  match v with
  | VStr s => Some s
  | _ => None
  end.

(** [format_function_result]; [format_wei_value] is called with its
    default of 18 decimals. *)
Definition format_function_result (keccak_hex : string -> string)
    (truth : string -> bool) (func_name : string) (result : value)
    (output_type : string) : formatted_result :=
  let formatted_result :=
    {| fr_function_name := JStr func_name; fr_result := result;
       fr_type := output_type; fr_status := "success";
       fr_formatted_value := None; fr_checksum_address := None |} in
  match (if Str.startswith output_type "uint" then as_int result else None) with
  | Some n =>
      set_formatted_value formatted_result
        (if Fmt.contains "256" output_type then format_wei_value n 18
         else py_str result)
  | None =>
      match (if String.eqb output_type "address" then as_str result else None) with
      | Some address =>
          set_checksum_address formatted_result
            (to_checksum_address keccak_hex address)
      | None =>
          if String.eqb output_type "bool" then
            {| fr_function_name := JStr func_name;
               fr_result := VBool (py_bool truth result);
               fr_type := output_type; fr_status := "success";
               fr_formatted_value := None; fr_checksum_address := None |}
          else formatted_result
      end
  end.

(* ===================================================================== *)
(** ** etherscan_client.py: is_contract_verified *)
(* ===================================================================== *)

(** [bool(j.strip())]: only a [str] has the method. *)
Definition nonblank (j : json) : result bool :=
  match j with
  | JStr text => Ok (negb (String.eqb (Str.strip text) ""))
  | _ => Raise (mkExn AttributeError
                  ("'" ++ Json.type_name j ++ "' object has no attribute 'strip'"))
  end.

(** Both fields are read before [or] combines them. *)
Definition is_contract_verified (config : Config) (world : World)
    (contract_address : string) : io bool :=
  io_catch
    (io_bind (get_contract_source_code config world contract_address)
       (fun source_info => io_pure (
          match source_info with
          | None => Ok false
          | Some info =>
              if negb (Json.truthy info) then Ok false
              else
                source <- Json.get_default info "SourceCode" (JStr "") ;;
                has_source <- nonblank source ;;
                abi <- Json.get_default info "ABI" (JStr "") ;;
                has_abi <- nonblank abi ;;
                Ok (has_source || has_abi)
          end)))
    false.

(* ===================================================================== *)
(** ** contract_analyzer.py: get_contract_summary *)
(* ===================================================================== *)

(** The two [dict]s the summary can be: the one with the key [error], and
    the one with the four keys of the overview. *)
Inductive summary_dict :=
| SummaryError (error : string)
| Summary (address : string) (is_contract is_verified : bool)
    (contract_name : option string).

(** The values of the [dict] display are evaluated in the order written. *)
Definition get_contract_summary (config : Config) (world : World)
    (contract_address : string) : io summary_dict :=
  if negb (is_valid_ethereum_address contract_address) then
    io_pure (Ok (SummaryError "无效的地址格式"))
  else
    let checksum_address :=
      to_checksum_address (keccak_hex world) contract_address in
    io_bind (is_contract_address config world checksum_address) (fun is_contract =>
    io_bind (is_contract_verified config world checksum_address) (fun is_verified =>
    io_bind (get_contract_name config world checksum_address) (fun contract_name =>
    io_pure (Ok (Summary checksum_address is_contract is_verified contract_name))))).

(* ===================================================================== *)
(** ** main.py: the two tools *)
(* ===================================================================== *)

Module Text.

(** A [str] is held as its UTF-8 bytes; [len] counts characters, that is
    the bytes that do not continue a character. *)
Definition is_continuation (c : ascii) : bool :=
  let n := nat_of_ascii c in ((128 <=? n) && (n <=? 191))%nat.

Fixpoint len (s : string) : Z :=
  match s with
  | EmptyString => 0
  | String c s' => (if is_continuation c then 0 else 1) + len s'
  end.

End Text.

(** What a tool hands to [json.dumps]. *)
Inductive tool_payload :=
| ReportPayload (r : report)
| SummaryPayload (s : summary_dict)
| ErrorPayload (status error contract_address tool : string).

Section Tools.

(** [json.dumps(..., ensure_ascii=False, indent=2)], which raises on a
    value it cannot serialize. *)
Variable json_dumps : tool_payload -> result string.
Variable config : Config.
Variable world : World.

(** The two [raise ValueError] stand before the [try]; [self] is the
    analyzer of the module. *)
Definition contract_info (self : Analyzer) (contract_address : string)
  : io string * Analyzer :=
  if String.eqb contract_address "" then
    ((Raise (mkExn OtherException "合约地址不能为空且必须是字符串"), []), self)
  else if negb (Str.startswith contract_address "0x")
          || negb (Text.len contract_address =? 42) then
    ((Raise (mkExn OtherException
               "合约地址格式无效，必须是0x开头的42位十六进制字符串"), []), self)
  else
    let '((result, evs), self) := analyze_contract config world self contract_address in
    match (r <- result ;; json_dumps (ReportPayload r)) with
    | Ok formatted_result => ((Ok formatted_result, evs), self)
    | Raise e =>
        ((json_dumps (ErrorPayload "error" ("合约分析失败: " ++ exn_msg e)
                        contract_address "contract_info"), evs), self)
    end.

Definition contract_summary (contract_address : string) : io string :=
  if String.eqb contract_address "" then
    (Raise (mkExn OtherException "合约地址不能为空且必须是字符串"), [])
  else if negb (Str.startswith contract_address "0x")
          || negb (Text.len contract_address =? 42) then
    (Raise (mkExn OtherException
              "合约地址格式无效，必须是0x开头的42位十六进制字符串"), [])
  else
    let '(result, evs) := get_contract_summary config world contract_address in
    match (s <- result ;; json_dumps (SummaryPayload s)) with
    | Ok formatted_result => (Ok formatted_result, evs)
    | Raise e =>
        (json_dumps (ErrorPayload "error" ("获取合约摘要失败: " ++ exn_msg e)
                       contract_address "contract_summary"), evs)
    end.

End Tools.

(* ===================================================================== *)
(** ** Vocabulary of the further statements *)
(* ===================================================================== *)

(** The step of the pipeline an effect belongs to: 1 the liveness probe,
    2 the code lookup, 3 the ABI request, 4 the binding of the contract,
    5 the calls, 6 the name request.  Sleeps and the rate limiter belong
    to the step they occur in. *)
Definition phase (ev : event) : option nat :=
  match ev with
  | EvIsConnected => Some 1%nat
  | EvGetCode _ => Some 2%nat
  | EvHttpGet params =>
      if Json.eq_str (Dict.get params "action") "getabi" then Some 3%nat
      else Some 6%nat
  | EvCreateContract _ => Some 4%nat
  | EvCall _ => Some 5%nat
  | EvSleep _ | EvThrottleAcquire | EvThrottleRelease => None
  end.

(** The steps of a trace never go back, starting from step [current]. *)
Fixpoint in_phase_order (current : nat) (trace : list event) : bool :=
  match trace with
  | [] => true
  | ev :: rest =>
      match phase ev with
      | None => in_phase_order current rest
      | Some p => (current <=? p)%nat && in_phase_order p rest
      end
  end.

(** The effects of step [p], or of no step. *)
Definition in_phase (p : nat) (ev : event) : bool :=
  match phase ev with
  | None => true
  | Some q => (q =? p)%nat
  end.

Definition is_probe (ev : event) : bool :=
  match ev with EvIsConnected => true | _ => false end.

Definition is_call (ev : event) : bool :=
  match ev with EvCall _ => true | _ => false end.

Definition is_get_code (ev : event) : bool :=
  match ev with EvGetCode _ => true | _ => false end.

(** The parameters of the HTTP requests of a trace. *)
Fixpoint requests_of (trace : list event) : list dict :=
  match trace with
  | [] => []
  | EvHttpGet params :: rest => params :: requests_of rest
  | _ :: rest => requests_of rest
  end.

(** [result["status"] == "success"] *)
Definition is_success (r : call_result) : bool := String.eqb (cr_status r) "success".

(** Two more worlds around the sample token: one where the address has
    no code, one whose ABI has no view function without inputs. *)
Module Scenario.

Definition world_with (code_len : Z) (abi : list json) : World :=
  {| keccak_hex := keccak_hex Token.world;
     json_loads := fun text =>
       if String.eqb text "<abi>" then Some (JArr abi) else None;
     now_isoformat := now_isoformat Token.world;
     is_connected := is_connected Token.world;
     get_code := fun _ _ => Ok code_len;
     eth_contract := eth_contract Token.world;
     http_get_json := http_get_json Token.world |}.

Definition empty_account : World := world_with 0 Token.abi.

Definition plain_abi : list json := [Token.balanceOf; Token.transfer].

Definition plain_token : World := world_with 2048 plain_abi.

Definition checksum_address : string :=
  to_checksum_address (keccak_hex Token.world) Token.address.

Definition initialized : Analyzer :=
  {| _initialized := true; _connection_verified := true |}.

(** A stand-in for [json.dumps]: every payload is serializable. *)
Definition dumps (payload : tool_payload) : result string :=
  match payload with
  | ReportPayload r => Ok (status r)
  | SummaryPayload _ => Ok "summary"
  | ErrorPayload status _ _ _ => Ok status
  end.

End Scenario.

(** What the orchestrator calls for an address: [contract] is the
    contract bound to the ABI that the explorer returns for
    [checksum_address], and [names] are the names of the view functions
    without inputs of that ABI, in its order. *)
Definition bound_view_functions (config : Config) (world : World)
    (checksum_address : string) (contract : Contract) (names : list json) : Prop :=
  exists abi view_functions,
    fst (get_contract_abi config world checksum_address) = Ok (Some abi) /\
    fst (get_contract_instance config world checksum_address abi) = Ok (Some contract) /\
    extract_view_functions abi = Ok view_functions /\
    function_names_of view_functions = Ok names.

(** The entries of [failed_functions], none when the key holds [None]. *)
Definition failed_entries (rep : report) : list failed_call :=
  match failed_functions rep with
  | Some failed => failed
  | None => []
  end.

(** [entry] is what the orchestrator makes of an outcome that is no
    success: the outcome has status [error], the entry has status
    [failed], with the name and the error text of the outcome. *)
Definition relabelled (outcome : call_result) (entry : failed_call) : Prop :=
  cr_status outcome = "error" /\
  fc_status entry = "failed" /\
  fc_function_name entry = cr_function_name outcome /\
  cr_error outcome = Some (fc_error entry).

(** The entries of a success report follow the ABI of the address: of
    the names of its view functions, in its order, [successful_functions]
    lists those whose call on the bound contract succeeds and
    [failed_functions] lists the others, each entry with the status of
    its list; [failed_functions] is never an empty list. *)
Definition listed_in_order (config : Config) (world : World)
    (checksum_address : string) (rep : report) : Prop :=
  exists contract names successful,
    bound_view_functions config world checksum_address contract names /\
    successful_functions rep = Some successful /\
    map fr_function_name successful
      = filter (fun name => is_success (call_outcome config contract name)) names /\
    Forall (fun fr => fr_status fr = "success") successful /\
    map fc_function_name (failed_entries rep)
      = filter (fun name => negb (is_success (call_outcome config contract name)))
          names /\
    Forall (fun fc => fc_status fc = "failed") (failed_entries rep) /\
    failed_functions rep <> Some [].

(* ===================================================================== *)
(** * Properties *)
(* ===================================================================== *)

(** ** Address validation *)

Section AddressValidation.

Local Abbreviation hex_class := (Re.Class [("a", "f"); ("A", "F"); ("0", "9")]%char).

Lemma in_hex_class (c : ascii) :
  Re.in_class [("a", "f"); ("A", "F"); ("0", "9")]%char c = Str.is_hex c.
Proof.
  unfold Re.in_class, Str.is_hex, Str.is_lower_hex, Str.is_upper_hex, Str.is_digit.
  simpl. rewrite orb_false_r, orb_assoc. reflexivity.
Qed.

(** What [[a-fA-F0-9]{n}$] accepts: [n] digits, then the end of the
    string or one final newline. *)
Lemma match_digits_eol (n : nat) :
  forall (at0 : bool) (s : string),
    Re.match_at at0 (Re.times n hex_class ++ [Re.Eol])%list s = true <->
    exists body,
      String.length body = n /\ Str.all_chars Str.is_hex body = true /\
      (s = body \/ s = body ++ String Str.newline "").
Proof.
  induction n as [|n IH]; intros at0 s.
  - simpl. split.
    + intros H. exists "". repeat split.
      destruct s as [|c [|c' s']]; try discriminate.
      * now left.
      * right. apply andb_prop in H as [H _].
        apply Ascii.eqb_eq in H. now subst.
    + intros (body & Hlen & _ & Hs).
      destruct body; [|discriminate]. simpl in Hs.
      destruct Hs as [-> | ->]; reflexivity.
  - cbn [Re.times repeat app Re.match_at]. fold (Re.times n hex_class).
    destruct s as [|c s]; split.
    + discriminate.
    + intros (body & Hlen & _ & Hs).
      destruct body; [discriminate|]. destruct Hs; discriminate.
    + intros H. apply andb_prop in H as [Hc H].
      rewrite in_hex_class in Hc.
      apply IH in H as (body & Hlen & Hall & Hs).
      exists (String c body). simpl. rewrite Hlen, Hc, Hall.
      repeat split. destruct Hs as [-> | ->]; [now left | now right].
    + intros (body & Hlen & Hall & Hs).
      destruct body as [|c' body]; [discriminate|].
      simpl in Hlen, Hall. apply andb_prop in Hall as [Hc Hall].
      assert (c = c' /\ (s = body \/ s = body ++ String Str.newline "")) as [-> Hs'].
      { destruct Hs as [Hs | Hs]; simpl in Hs; inversion Hs; auto. }
      cbn [Re.match_at]. rewrite in_hex_class, Hc. simpl.
      apply IH. exists body. repeat split; auto.
Qed.

(** The strings the validator accepts. *)
Lemma is_valid_ethereum_address_accepts (s : string) :
  is_valid_ethereum_address s = true <->
  exists body,
    String.length body = 40%nat /\ Str.all_chars Str.is_hex body = true /\
    (s = "0x" ++ body \/ s = "0x" ++ body ++ String Str.newline "").
Proof.
  unfold is_valid_ethereum_address.
  destruct (String.eqb_spec s "") as [-> | Hne].
  - split; [discriminate|].
    intros (body & _ & _ & [H | H]); discriminate.
  - destruct (Re.re_match address_pattern s) eqn:Hm; simpl.
    + split; [intros _ | reflexivity].
      unfold Re.re_match, address_pattern in Hm.
      cbn [app Re.match_at andb] in Hm.
      destruct s as [|c0 [|c1 s]]; try discriminate.
      { apply andb_prop in Hm as [_ Hm]. discriminate. }
      apply andb_prop in Hm as [H0 Hm]. apply andb_prop in Hm as [H1 Hm].
      apply Ascii.eqb_eq in H0, H1. subst c0 c1.
      apply (match_digits_eol 40) in Hm as (body & Hl & Ha & Hs).
      exists body. repeat split; auto.
      destruct Hs as [-> | ->]; [now left | now right].
    + split; [discriminate|].
      intros (body & Hl & Ha & Hs).
      assert (Re.re_match address_pattern s = true) as Hm'; [|congruence].
      unfold Re.re_match, address_pattern.
      cbn [app Re.match_at andb].
      assert (exists t, s = String "0" (String "x" t) /\
                        (t = body \/ t = body ++ String Str.newline "")) as (t & -> & Ht).
      { destruct Hs as [-> | ->]; eexists; split; simpl; eauto. }
      cbn [Re.match_at]. rewrite !Ascii.eqb_refl. cbn [andb].
      apply (match_digits_eol 40). exists body. auto.
Qed.

End AddressValidation.

(** C8 (code defect).  The validator is meant to accept exactly [0x]
    followed by 40 hexadecimal digits, 42 characters as its comment says.
    It also accepts such an address followed by one line feed: the
    43-character string [Sample.address_with_newline] is declared valid
    although it does not have the documented format. *)
Theorem is_valid_ethereum_address_trailing_newline :
  is_valid_ethereum_address Sample.address_with_newline = true /\
  String.length Sample.address_with_newline = 43%nat /\
  ~ exact_address_format Sample.address_with_newline.
Proof.
  split; [reflexivity | split; [reflexivity|]].
  intros (body & Hs & Hlen & _).
  apply (f_equal String.length) in Hs.
  simpl in Hs. rewrite Hlen in Hs. discriminate.
Qed.

(** Apart from that final line feed the validator is exact: a string of
    the documented format is accepted, upper and lower case alike, and an
    accepted string that does not end in a line feed has the format. *)
Lemma is_valid_ethereum_address_exact (s : string) :
  (exact_address_format s -> is_valid_ethereum_address s = true) /\
  (is_valid_ethereum_address s = true ->
     exact_address_format s \/
     exists t, s = t ++ String Str.newline "" /\ exact_address_format t).
Proof.
  split.
  - intros (body & -> & Hlen & Hall).
    apply is_valid_ethereum_address_accepts. exists body. auto.
  - intros H. apply is_valid_ethereum_address_accepts in H as (body & Hlen & Hall & [-> | ->]).
    + left. exists body. auto.
    + right. exists ("0x" ++ body). split; [reflexivity|]. exists body. auto.
Qed.

(** ** Checksum normalisation *)

Section Checksum.

Local Abbreviation is_lower_digit := Str.is_lower_digit.

Ltac by_cases_on_char c :=
  destruct c as [[] [] [] [] [] [] [] []]; vm_compute; intuition congruence.

Lemma lower_char_hex (c : ascii) :
  Str.is_hex c = true -> is_lower_digit (Str.lower_char c) = true.
Proof. by_cases_on_char c. Qed.

Lemma lower_digit_facts (c : ascii) :
  is_lower_digit c = true ->
  Str.is_hex c = true /\ Str.is_hex (Str.upper_char c) = true /\
  Str.lower_char c = c /\ Str.lower_char (Str.upper_char c) = c.
Proof. by_cases_on_char c. Qed.

Lemma lower_all_hex (s : string) :
  Str.all_chars Str.is_hex s = true ->
  Str.all_chars is_lower_digit (Str.lower s) = true.
Proof.
  unfold Str.lower.
  induction s as [|c s IH]; simpl; [reflexivity|].
  intros H. apply andb_prop in H as [Hc Hs].
  now rewrite (lower_char_hex c Hc), (IH Hs).
Qed.

Lemma lower_length (s : string) : String.length (Str.lower s) = String.length s.
Proof. unfold Str.lower. induction s; simpl; congruence. Qed.

(** Recasing keeps the digits hexadecimal and the length, and lowering
    its result gives the body back. *)
Lemma recase_facts (body : string) :
  forall hash cased,
    Str.all_chars is_lower_digit body = true ->
    Web3Lib.recase body hash = Some cased ->
    Str.all_chars Str.is_hex cased = true /\
    String.length cased = String.length body /\
    Str.lower cased = body.
Proof.
  induction body as [|c body IH]; intros hash cased Hall Hre; simpl in *.
  - inversion Hre. auto.
  - apply andb_prop in Hall as [Hc Hall].
    destruct hash as [|h hash]; [discriminate|].
    destruct (Web3Lib.hex_value h) as [v|]; [|discriminate].
    destruct (Web3Lib.recase body hash) as [rest|] eqn:Hrest; [|discriminate].
    inversion Hre; subst cased; clear Hre.
    destruct (IH _ _ Hall Hrest) as (Hhex & Hlen & Hlow).
    destruct (lower_digit_facts c Hc) as (H1 & H2 & H3 & H4).
    unfold Str.lower in *.
    destruct (7 <? v); simpl; rewrite ?H1, ?H2, ?H3, ?H4, Hhex, Hlen, Hlow; auto.
Qed.

Variable keccak_hex : string -> string.

(** What the library returns, it returns for its own result too. *)
Lemma web3_checksum_fixed (x y : string) :
  Web3Lib.to_checksum_address keccak_hex x = Ok y ->
  Web3Lib.to_checksum_address keccak_hex y = Ok y.
Proof.
  unfold Web3Lib.to_checksum_address.
  destruct (Str.all_chars Str.is_hex (Web3Lib.remove_0x_prefix x)
            && (String.length (Web3Lib.remove_0x_prefix x) =? 40)%nat) eqn:Hok;
    [|discriminate].
  apply andb_prop in Hok as [Hhex Hlen]. apply Nat.eqb_eq in Hlen.
  set (body := Str.lower (Web3Lib.remove_0x_prefix x)).
  destruct (Web3Lib.recase body (keccak_hex body)) as [cased|] eqn:Hre; [|discriminate].
  intros Hy. inversion Hy; subst y; clear Hy.
  destruct (recase_facts body _ _ (lower_all_hex _ Hhex) Hre) as (Hhex' & Hlen' & Hlow).
  change (Web3Lib.remove_0x_prefix (String "0" (String "x" cased))) with cased.
  rewrite Hhex', Hlen'. unfold body at 1. rewrite lower_length, Hlen. simpl.
  rewrite Hlow, Hre. reflexivity.
Qed.

(** C9.  [to_checksum_address] always returns a string: either the
    library's checksum, or, when the library raises, its argument
    unchanged; and applying it twice gives what applying it once gives. *)
Theorem to_checksum_address_total_idempotent (x : string) :
  (to_checksum_address keccak_hex x = x \/
   Web3Lib.to_checksum_address keccak_hex x = Ok (to_checksum_address keccak_hex x)) /\
  (forall e, Web3Lib.to_checksum_address keccak_hex x = Raise e ->
             to_checksum_address keccak_hex x = x) /\
  to_checksum_address keccak_hex (to_checksum_address keccak_hex x)
    = to_checksum_address keccak_hex x.
Proof.
  unfold to_checksum_address at 1 2 3 5 6.
  destruct (Web3Lib.to_checksum_address keccak_hex x) as [y|e] eqn:Hx.
  - repeat split; auto; [discriminate|].
    unfold to_checksum_address. now rewrite (web3_checksum_fixed x y Hx).
  - repeat split; auto.
    unfold to_checksum_address. now rewrite Hx.
Qed.

End Checksum.

(** The EIP-55 reference vector, under the sample hash. *)
Example to_checksum_address_reference :
  to_checksum_address Sample.sample_keccak Sample.lower_address
    = "0x5aAeb6053F3E94C9b9A09f33669435E7Ef1BeAed".
Proof. reflexivity. Qed.

(** ** The retry policy *)

Section Retry.

Context {A : Type}.
Variable func : callable A.
Variable max_retries : Z.
Variables base_delay backoff_factor : Q.

Local Abbreviation loop := (retry_loop func max_retries base_delay backoff_factor).
Local Abbreviation trace := (attempts_trace func base_delay backoff_factor).

(** A success after [more] failures ends the loop with that success. *)
Lemma retry_loop_success (v : A) (more : nat) :
  forall a len last,
    (a + more < a + len)%nat ->
    Z.of_nat (a + more) <= max_retries ->
    (forall j, (a <= j < a + more)%nat -> raises func j) ->
    fst (func (a + more)%nat) = Ok v ->
    loop (seq a len) last = (Ok v, trace a more).
Proof.
  induction more as [|more IH]; intros a len last Hlen Hmax Hfail Hok.
  - rewrite Nat.add_0_r in *.
    destruct len as [|len]; [lia|]. simpl.
    destruct (func a) as [r evs]. simpl in Hok. now subst r.
  - destruct len as [|len]; [lia|]. simpl.
    destruct (Hfail a ltac:(lia)) as [e He].
    destruct (func a) as [r evs]. simpl in He. subst r.
    destruct (Z.eqb_spec (Z.of_nat a) max_retries) as [Heq|_]; [lia|].
    rewrite (IH (S a) len (Some e)).
    + reflexivity.
    + lia.
    + now replace (S a + more)%nat with (a + S more)%nat by lia.
    + intros j Hj. apply Hfail. lia.
    + now replace (S a + more)%nat with (a + S more)%nat by lia.
Qed.

(** When every remaining attempt raises, the loop is left at attempt
    [max_retries] with the exception of that attempt. *)
Lemma retry_loop_exhausted (e : exn) (more : nat) :
  forall a last,
    Z.of_nat (a + more) = max_retries ->
    (forall j, (a <= j <= a + more)%nat -> raises func j) ->
    fst (func (a + more)%nat) = Raise e ->
    loop (seq a (S more)) last = (Raise e, trace a more).
Proof.
  induction more as [|more IH]; intros a last Hmax Hfail He.
  - rewrite Nat.add_0_r in *. simpl.
    destruct (func a) as [r evs]. simpl in He. subst r.
    destruct (Z.eqb_spec (Z.of_nat a) max_retries) as [_|Hne]; [reflexivity | lia].
  - change (seq a (S (S more))) with (a :: seq (S a) (S more)).
    cbn [retry_loop attempts_trace].
    destruct (Hfail a ltac:(lia)) as [e' He'].
    destruct (func a) as [r evs]. simpl in He'. subst r.
    destruct (Z.eqb_spec (Z.of_nat a) max_retries) as [Heq|_]; [lia|].
    rewrite (IH (S a) (Some e')).
    + reflexivity.
    + lia.
    + intros j Hj. apply Hfail. lia.
    + now replace (S a + more)%nat with (a + S more)%nat by lia.
Qed.

(** The loop raises only when every remaining attempt raised, and then
    it raises what attempt [max_retries] raised. *)
Lemma retry_loop_raise_inv (e : exn) (more : nat) :
  forall a last,
    Z.of_nat (a + more) = max_retries ->
    fst (loop (seq a (S more)) last) = Raise e ->
    (forall j, (a <= j <= a + more)%nat -> raises func j) /\
    fst (func (a + more)%nat) = Raise e.
Proof.
  induction more as [|more IH]; intros a last Hmax.
  - rewrite Nat.add_0_r in *. simpl.
    destruct (func a) as [[v|e'] evs] eqn:Hf; [discriminate|].
    destruct (Z.eqb_spec (Z.of_nat a) max_retries) as [_|Hne]; [|lia].
    simpl. intros He. inversion He; subst e'. split; [|reflexivity].
    intros j Hj. assert (j = a) as -> by lia. exists e. now rewrite Hf.
  - change (seq a (S (S more))) with (a :: seq (S a) (S more)).
    cbn [retry_loop].
    destruct (func a) as [[v|e'] evs] eqn:Hf; [discriminate|].
    destruct (Z.eqb_spec (Z.of_nat a) max_retries) as [Heq|_]; [lia|].
    destruct (loop (seq (S a) (S more)) (Some e')) as [r evs'] eqn:Hrest.
    simpl. intros ->.
    destruct (IH (S a) (Some e') ltac:(lia)) as [Hall Hlast].
    { now rewrite Hrest. }
    replace (S a + more)%nat with (a + S more)%nat in * by lia.
    split; [|assumption].
    intros j Hj. destruct (Nat.eq_dec j a) as [->|Hne].
    + exists e'. now rewrite Hf.
    + apply Hall. lia.
Qed.

(** The effects of the loop are sleeps and effects of the attempts, and
    it makes at most as many attempts as it was given. *)
Lemma retry_loop_trace (p : event -> bool) :
  (forall k, forallb p (snd (func k)) = true) ->
  (forall d, p (EvSleep d) = true) ->
  forall attempts last, forallb p (snd (loop attempts last)) = true.
Proof.
  intros Hp Hsleep. induction attempts as [|a rest IH]; intros last; simpl.
  - reflexivity.
  - specialize (Hp a). destruct (func a) as [[v|e] evs]; simpl in *; [assumption|].
    destruct (Z.of_nat a =? max_retries); simpl; [assumption|].
    specialize (IH (Some e)).
    destruct (loop rest (Some e)) as [r evs']. simpl in *.
    rewrite forallb_app, Hp. simpl. now rewrite Hsleep, IH.
Qed.

Lemma retry_loop_attempts (p : event -> bool) :
  (forall k, (count_events p (snd (func k)) <= 1)%nat) ->
  (forall d, p (EvSleep d) = false) ->
  forall attempts last,
    (count_events p (snd (loop attempts last)) <= List.length attempts)%nat.
Proof.
  intros Hp Hsleep. unfold count_events in *.
  induction attempts as [|a rest IH]; intros last; simpl.
  - lia.
  - specialize (Hp a). destruct (func a) as [[v|e] evs]; simpl in *; [lia|].
    destruct (Z.of_nat a =? max_retries); simpl; [lia|].
    specialize (IH (Some e)).
    destruct (loop rest (Some e)) as [r evs']. simpl in *.
    rewrite filter_app, length_app. simpl. rewrite Hsleep. lia.
Qed.

(** The trace of the attempts, written out: every attempt but the last
    is followed by its sleep. *)
Lemma attempts_trace_eq (more : nat) :
  forall a,
    attempts_trace func base_delay backoff_factor a more
    = (List.concat
         (map (fun j => snd (func j)
                          ++ [EvSleep (base_delay * backoff_factor ^ Z.of_nat j)%Q])
            (seq a more))
         ++ snd (func (a + more)%nat))%list.
Proof.
  induction more as [|more IH]; intros a.
  - simpl. now rewrite Nat.add_0_r.
  - cbn [attempts_trace seq map List.concat]. rewrite IH, <- !app_assoc.
    unfold backoff_delay. cbn [app].
    now replace (S a + more)%nat with (a + S more)%nat by lia.
Qed.

(** C4, as the code has it.  With a retry budget [max_retries >= 0],
    and delays that the floating point computation gives exactly, the
    policy makes at most [max_retries + 1] attempts, the first one at
    once.  It returns the first success: when attempt [k <= max_retries]
    succeeds after [k] failures, that value comes back, and the effects
    are those of the attempts [0] to [k], each failed attempt [j]
    followed by a sleep of [base_delay * backoff_factor ^ j].  When all
    [max_retries + 1] attempts raise, it raises the exception of the last
    attempt, after the same sleeps.  And that is the only way it
    raises. *)
Theorem retry_with_backoff_spec (Hbudget : 0 <= max_retries)
    (Hexact : exact_delays base_delay backoff_factor max_retries) :
  let n := Z.to_nat max_retries in
  let run := retry_with_backoff func max_retries base_delay backoff_factor in
  let delay (j : nat) := (base_delay * backoff_factor ^ Z.of_nat j)%Q in
  let trace (k : nat) :=
    (List.concat (map (fun j => snd (func j) ++ [EvSleep (delay j)]) (seq 0 k))
       ++ snd (func k))%list in
  (forall k v,
      (k <= n)%nat ->
      (forall j, (j < k)%nat -> raises func j) ->
      fst (func k) = Ok v ->
      run = (Ok v, trace k)) /\
  (forall e,
      (forall j, (j <= n)%nat -> raises func j) ->
      fst (func n) = Raise e ->
      run = (Raise e, trace n)) /\
  (forall e,
      fst run = Raise e ->
      (forall j, (j <= n)%nat -> raises func j) /\ fst (func n) = Raise e).
Proof.
  intros n run delay trace. unfold run, trace, delay, retry_with_backoff, range.
  replace (Z.to_nat (max_retries + 1)) with (S n) by lia.
  repeat split.
  - intros k v Hk Hfail Hok.
    rewrite (retry_loop_success v k 0%nat (S n) None); simpl; auto; try lia.
    + now rewrite attempts_trace_eq.
    + intros j Hj. apply Hfail. lia.
  - intros e Hfail He.
    rewrite (retry_loop_exhausted e n 0%nat None); simpl; auto; try lia.
    + now rewrite attempts_trace_eq.
    + intros j Hj. apply Hfail. lia.
  - intros j Hj.
    destruct (retry_loop_raise_inv e n 0%nat None ltac:(simpl; lia) H) as [Hall _].
    apply Hall. simpl. lia.
  - destruct (retry_loop_raise_inv e n 0%nat None ltac:(simpl; lia) H) as [_ Hlast].
    exact Hlast.
Qed.

(** A negative budget leaves no attempt at all: the loop body never
    runs and [raise last_exception] raises a [TypeError]. *)
Lemma retry_with_backoff_negative_budget :
  max_retries < 0 ->
  retry_with_backoff func max_retries base_delay backoff_factor
    = (Raise (mkExn TypeError "exceptions must derive from BaseException"), []).
Proof.
  intros H. unfold retry_with_backoff, range.
  replace (Z.to_nat (max_retries + 1)) with 0%nat by lia. reflexivity.
Qed.

End Retry.

(** The scenario of the spec: two failures, then a success on the third
    attempt, within a budget of three retries, after sleeps of one and
    of two seconds. *)
Lemma retry_with_backoff_spec_witness :
  0 <= 3 /\ exact_delays 1 2 3 /\
  retry_with_backoff Token.flaky 3 1 2
    = (Ok 7, [EvIsConnected; EvSleep 1; EvIsConnected; EvSleep 2; EvIsConnected]).
Proof.
  assert (exact_delays 1 2 3) as Hexact.
  { split; [exists 1, 0; repeat split; lia|].
    split; [exists 2, 0; repeat split; lia|].
    intros [|[|[|j]]] Hj; [| | |lia].
    - split; exists 1, 0; repeat split; lia.
    - split; exists 2, 0; repeat split; lia.
    - split; exists 4, 0; repeat split; lia. }
  split; [lia|]. split; [exact Hexact|].
  apply (proj1 (retry_with_backoff_spec Token.flaky 3 1 2 ltac:(lia) Hexact) 2%nat 7).
  - simpl. lia.
  - intros j Hj. exists (mkExn OtherException "timed out").
    destruct j as [|[|j]]; [reflexivity | reflexivity | lia].
  - reflexivity.
Defined.

(** C4, as the spec states it, fails for a negative budget: the loop has
    no attempt to make, not even the first one, and the caller of an
    operation that would succeed at once observes a [TypeError], which
    is the exception of no attempt. *)
Lemma retry_with_backoff_no_attempt :
  let steady : callable Z := fun _ => (Ok 7, [EvIsConnected]) in
  fst (steady 0%nat) = Ok 7 /\
  retry_with_backoff steady (-1) 1 2
    = (Raise (mkExn TypeError "exceptions must derive from BaseException"), []).
Proof. split; reflexivity. Qed.

(** With the defaults the sleeps last 1, 2, 4, ... seconds. *)
Lemma default_backoff_delay (attempt : nat) :
  (backoff_delay default_base_delay default_backoff_factor attempt
     == inject_Z (2 ^ Z.of_nat attempt))%Q.
Proof.
  unfold backoff_delay, default_base_delay, default_backoff_factor.
  rewrite Qmult_1_l. change 2%Q with (inject_Z 2).
  symmetry. apply Zpower_Qpower. lia.
Qed.

(** A power of two up to [2^1023] is a number a float holds. *)
Lemma binary64_pow2 (j : nat) :
  (j <= 1023)%nat -> binary64 (2 ^ Z.of_nat j).
Proof.
  intros Hj. unfold binary64.
  destruct (Z.le_gt_cases (Z.of_nat j) 971) as [Hsmall|Hlarge].
  - exists 1, (Z.of_nat j). repeat split; try lia.
    now rewrite Qmult_1_l.
  - exists (2 ^ (Z.of_nat j - 971)), 971.
    assert (0 < 2 ^ (Z.of_nat j - 971)) by (apply Z.pow_pos_nonneg; lia).
    repeat split; try lia.
    + rewrite Z.abs_eq by lia. apply Z.pow_lt_mono_r; lia.
    + rewrite (Zpower_Qpower 2 (Z.of_nat j - 971)) by lia.
      change (inject_Z 2) with 2%Q.
      rewrite <- Qpower_plus by discriminate.
      now replace (Z.of_nat j - 971 + 971) with (Z.of_nat j) by lia.
Qed.

(** The delays of the defaults, [1.0] and [2.0], are exact up to a
    budget of 1024 retries. *)
Lemma exact_delays_default (max_retries : Z) :
  max_retries <= 1024 ->
  exact_delays default_base_delay default_backoff_factor max_retries.
Proof.
  intros Hmax. unfold exact_delays, default_base_delay, default_backoff_factor.
  split; [exists 1, 0; repeat split; lia|].
  split; [exists 2, 0; repeat split; lia|].
  intros attempt Hattempt.
  assert (binary64 (2 ^ Z.of_nat attempt)) as Hpow by (apply binary64_pow2; lia).
  split; [exact Hpow|].
  destruct Hpow as (m & e & Hm & He & Heq).
  exists m, e. repeat split; try lia. now rewrite Qmult_1_l.
Qed.

(** ** The throttled transport *)

Section Transport.

Variable config : Config.
Variable world : World.

(** C3, as the code has it.  One request takes the rate limiter slot
    once, as its first effect, and releases it as its last; everything
    in between is the retry loop: at most [max_retries + 1] HTTP
    attempts and the backoff sleeps, with no further acquisition. *)
Theorem make_request_one_slot (params : dict) :
  exists attempts,
    snd (_make_request config world params)
      = (EvThrottleAcquire :: attempts ++ [EvThrottleRelease])%list /\
    forallb is_request_or_sleep attempts = true /\
    (count_events is_http_get attempts <= Z.to_nat (max_retries config + 1))%nat.
Proof.
  unfold _make_request, retry_with_backoff.
  set (request := fun k : nat => (_, _) : io json).
  pose proof (retry_loop_trace request (max_retries config)
                default_base_delay default_backoff_factor is_request_or_sleep
                (fun _ => eq_refl) (fun _ => eq_refl)
                (range (max_retries config + 1)) None) as Htrace.
  pose proof (retry_loop_attempts request (max_retries config)
                default_base_delay default_backoff_factor is_http_get
                (fun _ => le_n 1) (fun _ => eq_refl)
                (range (max_retries config + 1)) None) as Hcount.
  destruct (retry_loop request _ _ _ _ _) as [r evs].
  exists evs. simpl in *. repeat split; auto.
  unfold range in Hcount. now rewrite length_seq in Hcount.
Qed.

End Transport.

(** C3, as the spec states it, fails.  When the first attempt of a
    request times out, the second attempt is made without a new slot:
    two HTTP requests are sent under a single acquisition. *)
Lemma make_request_retry_without_slot :
  let trace :=
    snd (_make_request Token.config Token.flaky_world
           (contract_query "getabi" Token.address)) in
  count_events is_http_get trace = 2%nat /\
  count_events is_throttle_acquire trace = 1%nat /\
  slot_before_each_request false trace = false.
Proof. vm_compute. repeat split. Qed.

(** ** Single and batched calls *)

Section Calls.

Variable config : Config.

(** Callables that answer alike are retried alike. *)
Lemma retry_loop_ext {A} (f g : callable A) (m : Z) (b q : Q) :
  (forall k, f k = g k) ->
  forall attempts last, retry_loop f m b q attempts last = retry_loop g m b q attempts last.
Proof.
  intros Hfg. induction attempts as [|a rest IH]; intros last; simpl; [reflexivity|].
  rewrite Hfg. destruct (g a) as [[v|e] evs]; [reflexivity|].
  now rewrite IH.
Qed.

(** A value returned by the loop was returned by one of its attempts. *)
Lemma retry_loop_ok_inv {A} (f : callable A) (m : Z) (b q : Q) (v : A) :
  forall attempts last,
    fst (retry_loop f m b q attempts last) = Ok v ->
    exists k, In k attempts /\ fst (f k) = Ok v.
Proof.
  induction attempts as [|a rest IH]; intros last; simpl.
  - destruct last; discriminate.
  - destruct (f a) as [[v'|e] evs] eqn:Hf; simpl.
    + intros Hv. exists a. rewrite Hf. auto.
    + destruct (Z.of_nat a =? m); [discriminate|].
      specialize (IH (Some e)).
      destruct (retry_loop f m b q rest (Some e)) as [r evs']. simpl in *.
      intros Hv. destruct (IH Hv) as (k & Hin & Hk). eauto.
Qed.

Lemma classify_exception_status (name : json) (e : exn) :
  cr_status (classify_exception name e) = "error" /\
  cr_function_name (classify_exception name e) = name /\
  cr_result (classify_exception name e) = None.
Proof.
  unfold classify_exception.
  destruct (is_contract_logic_error e), (is_web3_exception e); auto.
Qed.

(** A call never raises: every path of [call_view_function] ends in a
    [dict] that carries the name it was given. *)
Lemma call_view_function_returns (contract : Contract) (name : json) :
  exists r evs,
    call_view_function config contract name = (Ok r, evs) /\
    cr_function_name r = name /\
    (cr_status r = "success" /\ cr_result r <> None \/
     cr_status r = "error" /\ cr_result r = None).
Proof.
  assert (forall nm e (evs : list event),
             exists r evs',
               (Ok (classify_exception nm e), evs) = (Ok r, evs') /\
               cr_function_name r = nm /\
               (cr_status r = "success" /\ cr_result r <> None \/
                cr_status r = "error" /\ cr_result r = None)) as Hclassified.
  { intros nm e evs. exists (classify_exception nm e), evs.
    destruct (classify_exception_status nm e) as (-> & -> & ->). auto. }
  unfold call_view_function.
  destruct name as [|b|z|s|items|fields]; try apply Hclassified.
  destruct (functions contract s) as [func|].
  - destruct (retry_with_backoff _ _ _ _) as [[v|e] evs]; [|apply Hclassified].
    do 2 eexists. split; [reflexivity|]. simpl. split; [reflexivity|].
    left. split; [reflexivity | discriminate].
  - do 2 eexists. split; [reflexivity|]. simpl. auto.
Qed.

Lemma call_outcome_eq (contract : Contract) (name : json) :
  fst (call_view_function config contract name) = Ok (call_outcome config contract name).
Proof.
  unfold call_outcome.
  destruct (call_view_function_returns contract name) as (r & evs & -> & _).
  reflexivity.
Qed.

(** The loop over the gathered results, started at the index where the
    names [rest] begin, appends one outcome per name, in order. *)
Lemma process_gathered_spec (contract : Contract) :
  forall rest done processed,
    process_gathered (done ++ rest) (List.length done)
      (map fst (map (call_view_function config contract) rest)) processed
    = Ok (processed ++ map (call_outcome config contract) rest)%list.
Proof.
  induction rest as [|name rest IH]; intros done processed; simpl.
  - now rewrite app_nil_r.
  - rewrite call_outcome_eq.
    replace (done ++ name :: rest)%list with ((done ++ [name]) ++ rest)%list
      by now rewrite <- app_assoc.
    replace (S (List.length done)) with (List.length (done ++ [name]))
      by (rewrite length_app; simpl; lia).
    rewrite IH, <- app_assoc. reflexivity.
Qed.

Lemma batch_call_view_functions_eq (contract : Contract) (names : list json) :
  fst (batch_call_view_functions config contract names)
    = Ok (map (call_outcome config contract) names).
Proof.
  unfold batch_call_view_functions, gather. simpl.
  apply (process_gathered_spec contract names [] []).
Qed.

Lemma invocation_fails_error (contract : Contract) (name : json) :
  invocation_fails config contract name ->
  cr_status (call_outcome config contract name) = "error".
Proof.
  unfold invocation_fails, call_outcome, call_view_function.
  destruct name as [|b|z|s|items|fields]; try (intros _; apply classify_exception_status).
  destruct (functions contract s) as [func|]; [|reflexivity].
  intros Hfail.
  destruct (retry_with_backoff _ _ _ _) as [[v|e] evs] eqn:Hrun; simpl;
    [|apply classify_exception_status].
  exfalso. unfold retry_with_backoff in Hrun.
  destruct (retry_loop_ok_inv (fun k => (func k, [EvCall s])) (max_retries config)
              default_base_delay default_backoff_factor v
              (range (max_retries config + 1)) None)
    as (k & Hin & Hk); [now rewrite Hrun|].
  unfold range in Hin. apply in_seq in Hin.
  destruct (Hfail k ltac:(lia)) as [e He]. simpl in Hk. congruence.
Qed.

Lemma invocation_returns_success (contract : Contract) (name : json) (v : value) :
  invocation_returns config contract name v ->
  call_outcome config contract name = call_success name v.
Proof.
  intros (s & func & k & -> & Hfunc & Hk & Hfail & Hok).
  unfold call_outcome, call_view_function, retry_with_backoff, range.
  rewrite Hfunc.
  replace (Z.to_nat (max_retries config + 1)) with (S (Z.to_nat (max_retries config)))
    by lia.
  rewrite (retry_loop_success (fun k => (func k, [EvCall s])) (max_retries config)
             default_base_delay default_backoff_factor v k 0%nat
             (S (Z.to_nat (max_retries config))) None); simpl; auto; try lia.
  intros j Hj. destruct (Hfail j ltac:(lia)) as [e He]. exists e. simpl. assumption.
Qed.

Lemma same_invocation_outcome (c1 c2 : Contract) (name : json) :
  same_invocation c1 c2 name ->
  call_outcome config c2 name = call_outcome config c1 name.
Proof.
  unfold same_invocation, call_outcome, call_view_function.
  destruct name as [|b|z|s|items|fields]; try reflexivity.
  destruct (functions c1 s) as [f1|], (functions c2 s) as [f2|];
    try contradiction; [|reflexivity].
  intros Hsame. unfold retry_with_backoff.
  rewrite (retry_loop_ext (fun k => (f2 k, [EvCall s])) (fun k => (f1 k, [EvCall s])));
    [reflexivity|].
  intros k. now rewrite Hsame.
Qed.

(** C1.  A batch over [N] names returns [N] outcomes, the outcome at
    each position being the one of the call of the name at that
    position.  It carries that name; it is an error outcome when the
    invocation of the name fails and the successful outcome when the
    invocation returns; and it stays the same whatever the contract does
    for the other names.  So a failing call neither aborts the batch nor
    changes the outcome of a sibling. *)
Theorem batch_call_view_functions_isolated (contract : Contract) (names : list json) :
  exists outcomes,
    fst (batch_call_view_functions config contract names) = Ok outcomes /\
    List.length outcomes = List.length names /\
    outcomes = map (call_outcome config contract) names /\
    forall i name,
      nth_error names i = Some name ->
      exists r,
        nth_error outcomes i = Some r /\
        cr_function_name r = name /\
        fst (call_view_function config contract name) = Ok r /\
        (invocation_fails config contract name -> cr_status r = "error") /\
        (forall v, invocation_returns config contract name v ->
                   r = call_success name v) /\
        (forall contract',
            same_invocation contract contract' name ->
            nth_error (map (call_outcome config contract') names) i = Some r).
Proof.
  exists (map (call_outcome config contract) names).
  split; [apply batch_call_view_functions_eq|].
  split; [apply length_map|].
  split; [reflexivity|].
  intros i name Hi. exists (call_outcome config contract name).
  split; [now apply map_nth_error|].
  split.
  { destruct (call_view_function_returns contract name) as (r & evs & Hr & Hname & _).
    unfold call_outcome. now rewrite Hr. }
  split; [apply call_outcome_eq|].
  split; [apply invocation_fails_error|].
  split; [apply invocation_returns_success|].
  intros contract' Hsame.
  rewrite <- (same_invocation_outcome contract contract' name Hsame).
  now apply map_nth_error.
Qed.

End Calls.

(** C5, as the spec states it, fails: the outcome for a function the
    contract does not have, and the outcome for a call that reverts,
    have the status [error], which is neither [success] nor [failed]. *)
Lemma call_view_function_status_error :
  (exists r evs,
      call_view_function Token.config Token.contract (JStr "missing") = (Ok r, evs) /\
      cr_status r = "error" /\ cr_status r <> "success" /\ cr_status r <> "failed") /\
  (exists r evs,
      call_view_function Token.config Token.contract (JStr "paused") = (Ok r, evs) /\
      cr_status r = "error" /\ cr_status r <> "success" /\ cr_status r <> "failed").
Proof.
  split; do 2 eexists; (split; [vm_compute; reflexivity|]);
    simpl; repeat split; discriminate.
Qed.

(** The batch isolation scenario of the spec: of the two names the second
    one reverts; both outcomes are reported, in order, and the first is
    the same as with a contract where nothing fails. *)
Example batch_isolation_scenario :
  let names := [JStr "totalSupply"; JStr "paused"] in
  let statuses contract :=
    match fst (batch_call_view_functions Token.config contract names) with
    | Ok outcomes => map cr_status outcomes
    | Raise _ => []
    end in
  statuses Token.contract = ["success"; "error"] /\
  statuses Token.healthy_contract = ["success"; "success"] /\
  nth_error (map (call_outcome Token.config Token.contract) names) 0
    = nth_error (map (call_outcome Token.config Token.healthy_contract) names) 0.
Proof. vm_compute. repeat split. Qed.

(** ** The ABI filter *)

Section AbiFilter.

(** On an ABI entry the test of the loop is the selection predicate. *)
Lemma is_view_function_invocable (item : json) :
  abi_entry item -> is_view_function item = Ok (invocable item).
Proof.
  intros (fields & -> & params & Hinputs).
  unfold is_view_function, invocable. simpl.
  destruct (Json.eq_str (Dict.get fields "type") "function"); simpl; [|reflexivity].
  destruct (Json.eq_str (Dict.get fields "stateMutability") "view"
            || Json.eq_str (Dict.get fields "stateMutability") "pure");
    simpl; [|reflexivity].
  rewrite Hinputs. destruct params; reflexivity.
Qed.

(** C6.  On a decoded ABI, [extract_view_functions] returns the entries
    of kind [function] whose mutability is [view] or [pure] and whose
    input list is empty, the others left out, in the order of the ABI:
    the result is the ABI filtered by the selection predicate. *)
Theorem extract_view_functions_selects (abi : list json) :
  Forall abi_entry abi ->
  extract_view_functions abi = Ok (filter invocable abi).
Proof.
  induction 1 as [|item abi Hitem _ IH]; simpl; [reflexivity|].
  rewrite (is_view_function_invocable item Hitem), IH. simpl.
  destruct (invocable item); reflexivity.
Qed.

End AbiFilter.

(** Of a [view] function without inputs, a [view] function with one
    input and a [nonpayable] function without inputs, the first alone is
    selected. *)
Example extract_view_functions_scenario :
  extract_view_functions [Token.totalSupply; Token.balanceOf; Token.transfer]
    = Ok [Token.totalSupply].
Proof. reflexivity. Qed.

(** The ABI of the sample token is well formed, and its two [view]
    functions without inputs are selected, in the order of the ABI. *)
Lemma extract_view_functions_selects_witness :
  Forall abi_entry Token.abi /\
  extract_view_functions Token.abi = Ok [Token.totalSupply; Token.paused].
Proof.
  assert (Forall abi_entry Token.abi) as Hentries.
  { repeat constructor; eexists; (split; [reflexivity|]); eexists; reflexivity. }
  split; [exact Hentries|].
  exact (extract_view_functions_selects Token.abi Hentries).
Defined.

(** ** The result classifier *)

Section FloatFacts.

Lemma round_half_even_bounds (n d : Z) :
  0 <= n -> 0 < d -> 0 <= Float.round_half_even n d <= n + 1.
Proof.
  intros Hn Hd. unfold Float.round_half_even.
  assert (0 <= n / d) by (apply Z.div_pos; lia).
  assert (n / d <= n) by (apply Z.div_le_upper_bound; nia).
  destruct (2 * (n mod d) <? d), (d <? 2 * (n mod d)), (Z.even (n / d)); lia.
Qed.

Lemma log2_quotient_le (a b : Z) :
  0 < b -> Float.log2_quotient a b <= Z.log2 a.
Proof.
  intros Hb. unfold Float.log2_quotient.
  pose proof (Z.log2_nonneg b).
  destruct (if 0 <=? Z.log2 a - Z.log2 b then _ else _); lia.
Qed.

(** The quotient of a [uint256] by a positive integer fits a float. *)
Lemma true_divide_uint256 (a b : Z) :
  0 < a < 2 ^ 256 -> 0 < b ->
  Float.true_divide a b = Ok (Float.divide_pos a b).
Proof.
  intros [Ha Hlt] Hb. unfold Float.true_divide.
  destruct (Z.eqb_spec b 0) as [|_]; [lia|].
  destruct (Z.eqb_spec a 0) as [|_]; [lia|].
  rewrite (Z.abs_eq a), (Z.abs_eq b) by lia.
  assert (Float.overflows (Float.divide_pos a b) = false) as ->.
  { unfold Float.overflows, Float.divide_pos. cbn [Float.mantissa Float.exponent].
    set (e := Z.max (Float.log2_quotient a b - 52) (-1074)).
    destruct (Z.leb_spec 0 e) as [He|He]; [|reflexivity].
    cbn [andb]. apply Z.leb_gt.
    assert (e <= 203) as He'.
    { pose proof (log2_quotient_le a b Hb).
      assert (Z.log2 a < 256) by (apply Z.log2_lt_pow2; lia).
      unfold e. lia. }
    assert (0 < 2 ^ e) as Hpos by (apply Z.pow_pos_nonneg; lia).
    assert (2 ^ e <= 2 ^ 203) as Hpow by (apply Z.pow_le_mono_r; lia).
    destruct (round_half_even_bounds a (b * 2 ^ e)) as [Hm0 Hm1]; [lia | nia |].
    rewrite Z.abs_eq by assumption.
    apply Z.le_lt_trans with (2 ^ 256 * 2 ^ 203).
    - apply Z.mul_le_mono_nonneg; lia.
    - rewrite <- Z.pow_add_r by lia. apply Z.pow_lt_mono_r; lia. }
  destruct (Float.divide_pos a b) as [m e]. cbn [Float.mantissa Float.exponent].
  rewrite (Z.sgn_pos a), (Z.sgn_pos b) by lia.
  now rewrite !Z.mul_1_l.
Qed.

(** Rounding goes to a nearest integer. *)
Lemma round_half_even_nearest (n d : Z) :
  0 <= n -> 0 < d -> 2 * Z.abs (n - d * Float.round_half_even n d) <= d.
Proof.
  intros Hn Hd. unfold Float.round_half_even.
  pose proof (Z.div_mod n d ltac:(lia)) as Hdiv.
  pose proof (Z.mod_pos_bound n d Hd) as Hmod.
  destruct (Z.ltb_spec (2 * (n mod d)) d); [lia|].
  destruct (Z.ltb_spec d (2 * (n mod d))); [lia|].
  destruct (Z.even (n / d)); lia.
Qed.

(** An exact quotient is left as it is. *)
Lemma round_half_even_multiple (c d : Z) :
  0 < d -> Float.round_half_even (c * d) d = c.
Proof.
  intros Hd. unfold Float.round_half_even.
  rewrite Z.div_mul, Z.mod_mul by lia.
  destruct (Z.ltb_spec (2 * 0) d); [reflexivity | lia].
Qed.

Lemma pow2_split (x y : Z) : 0 <= x -> 0 <= y -> 2 ^ (x + y) = 2 ^ x * 2 ^ y.
Proof. intros. now apply Z.pow_add_r. Qed.

(** [log2_quotient a b] is the integer [q] with [2^q <= a / b < 2^(q+1)]. *)
Lemma log2_quotient_spec (a b : Z) :
  0 < a -> 0 < b ->
  let q := Float.log2_quotient a b in
  (0 <= q -> b * 2 ^ q <= a < b * 2 ^ (q + 1)) /\
  (q < 0 -> b <= a * 2 ^ (- q) /\ a * 2 ^ (- q - 1) < b).
Proof.
  intros Ha Hb. unfold Float.log2_quotient.
  destruct (Z.log2_spec a Ha) as [Ha0 Ha1].
  destruct (Z.log2_spec b Hb) as [Hb0 Hb1].
  pose proof (Z.log2_nonneg a) as Hla. pose proof (Z.log2_nonneg b) as Hlb.
  set (la := Z.log2 a) in *. set (lb := Z.log2 b) in *.
  unfold Z.succ in *.
  destruct (Z.leb_spec 0 (la - lb)) as [HK|HK].
  - destruct (Z.ltb_spec a (b * 2 ^ (la - lb))) as [Hbelow|Hnot].
    + split; intros Hq.
      * replace (la - lb - 1 + 1) with (la - lb) by lia. split; [|assumption].
        assert (2 ^ la = 2 ^ (lb + 1) * 2 ^ (la - lb - 1)) as Heq.
        { rewrite <- pow2_split by lia. f_equal. lia. }
        assert (0 < 2 ^ (la - lb - 1)) by (apply Z.pow_pos_nonneg; lia).
        nia.
      * assert (la - lb = 0) as HK0 by lia.
        replace (- (la - lb - 1)) with 1 by lia.
        replace (- (la - lb - 1) - 1) with 0 by lia.
        rewrite HK0 in Hbelow.
        replace la with lb in * by lia.
        rewrite (pow2_split lb 1) in * by lia.
        change (2 ^ 1) with 2 in *. change (2 ^ 0) with 1 in *. lia.
    + split; intros Hq; [|lia].
      split; [assumption|].
      assert (2 ^ (la + 1) = 2 ^ lb * 2 ^ (la - lb + 1)) as Heq.
      { rewrite <- pow2_split by lia. f_equal. lia. }
      assert (0 < 2 ^ (la - lb + 1)) by (apply Z.pow_pos_nonneg; lia).
      nia.
  - destruct (Z.ltb_spec (a * 2 ^ (- (la - lb))) b) as [Hbelow|Hnot].
    + split; intros Hq; [lia|].
      replace (- (la - lb - 1) - 1) with (- (la - lb)) by lia.
      split; [|assumption].
      assert (2 ^ (lb + 1) = 2 ^ la * 2 ^ (- (la - lb - 1))) as Heq.
      { rewrite <- pow2_split by lia. f_equal. lia. }
      assert (0 < 2 ^ (- (la - lb - 1))) by (apply Z.pow_pos_nonneg; lia).
      nia.
    + split; intros Hq; [lia|].
      split; [assumption|].
      assert (2 ^ lb = 2 ^ (la + 1) * 2 ^ (- (la - lb) - 1)) as Heq.
      { rewrite <- pow2_split by lia. f_equal. lia. }
      assert (0 < 2 ^ (- (la - lb) - 1)) by (apply Z.pow_pos_nonneg; lia).
      nia.
Qed.

Lemma log2_quotient_multiple (k b : Z) :
  0 < k -> 0 < b -> Float.log2_quotient (k * b) b = Z.log2 k.
Proof.
  intros Hk Hb.
  destruct (log2_quotient_spec (k * b) b ltac:(nia) Hb) as [Hpos Hneg].
  set (q := Float.log2_quotient (k * b) b) in *.
  destruct (Z.lt_ge_cases q 0) as [Hq|Hq].
  - destruct (Hneg Hq) as [_ Habs].
    assert (0 < 2 ^ (- q - 1)) by (apply Z.pow_pos_nonneg; lia).
    assert (b <= k * b) by nia.
    assert (k * b * 1 <= k * b * 2 ^ (- q - 1)) by (apply Z.mul_le_mono_nonneg_l; nia).
    lia.
  - destruct (Hpos Hq) as [Hlo Hhi].
    assert (0 < 2 ^ q) by (apply Z.pow_pos_nonneg; lia).
    assert (0 < 2 ^ (q + 1)) by (apply Z.pow_pos_nonneg; lia).
    symmetry. apply Z.log2_unique; [assumption|]. unfold Z.succ. nia.
Qed.

(** The quotient of [k * b] by [b] is the float [k], for a [k] of at most
    53 bits. *)
Lemma divide_pos_multiple (k b : Z) :
  0 < k < 2 ^ 53 -> 0 < b ->
  Float.divide_pos (k * b) b
    = Float.mk (k * 2 ^ (52 - Z.log2 k)) (Z.log2 k - 52).
Proof.
  intros [Hk Hlt] Hb. unfold Float.divide_pos.
  rewrite (log2_quotient_multiple k b Hk Hb).
  pose proof (Z.log2_nonneg k) as HL.
  assert (Z.log2 k < 53) as HL' by (apply Z.log2_lt_pow2; lia).
  rewrite Z.max_l by lia.
  destruct (Z.leb_spec 0 (Z.log2 k - 52)) as [He|He].
  - replace (Z.log2 k - 52) with 0 by lia. replace (52 - Z.log2 k) with 0 by lia.
    change (2 ^ 0) with 1. rewrite !Z.mul_1_r.
    now rewrite round_half_even_multiple.
  - replace (- (Z.log2 k - 52)) with (52 - Z.log2 k) by lia.
    replace (k * b * 2 ^ (52 - Z.log2 k)) with (k * 2 ^ (52 - Z.log2 k) * b) by ring.
    now rewrite round_half_even_multiple.
Qed.

Lemma format_f6_whole (k e : Z) :
  0 < k -> e <= 0 ->
  Float.format_f6 (Float.mk (k * 2 ^ (- e)) e) = Str.of_Z k ++ ".000000".
Proof.
  intros Hk He. unfold Float.format_f6. cbn [Float.mantissa Float.exponent].
  assert (0 < 2 ^ (- e)) as Hpow by (apply Z.pow_pos_nonneg; lia).
  rewrite Z.abs_eq by nia.
  assert ((if 0 <=? e then k * 2 ^ (- e) * 2 ^ e * 10 ^ 6
           else Float.round_half_even (k * 2 ^ (- e) * 10 ^ 6) (2 ^ (- e)))
          = k * 10 ^ 6) as ->.
  { destruct (Z.leb_spec 0 e).
    - replace e with 0 by lia. change (2 ^ (- 0)) with 1. change (2 ^ 0) with 1. ring.
    - replace (k * 2 ^ (- e) * 10 ^ 6) with (k * 10 ^ 6 * 2 ^ (- e)) by ring.
      now apply round_half_even_multiple. }
  rewrite Z.div_mul, Z.mod_mul by (apply Z.pow_nonzero; lia).
  destruct (Z.ltb_spec (k * 2 ^ (- e)) 0); [nia|].
  reflexivity.
Qed.

(** The float quotient is a nearest multiple of [2 ^ exponent]. *)
Lemma divide_pos_nearest (a b : Z) :
  0 < a -> 0 < b ->
  let x := Float.divide_pos a b in
  let e := Float.exponent x in
  if 0 <=? e then 2 * Z.abs (a - b * 2 ^ e * Float.mantissa x) <= b * 2 ^ e
  else 2 * Z.abs (a * 2 ^ (- e) - b * Float.mantissa x) <= b.
Proof.
  intros Ha Hb. unfold Float.divide_pos. cbn [Float.mantissa Float.exponent].
  set (e := Z.max (Float.log2_quotient a b - 52) (-1074)).
  destruct (Z.leb_spec 0 e) as [He|He].
  - assert (0 < 2 ^ e) by (apply Z.pow_pos_nonneg; lia).
    apply round_half_even_nearest; nia.
  - assert (0 < 2 ^ (- e)) by (apply Z.pow_pos_nonneg; lia).
    apply round_half_even_nearest; nia.
Qed.

End FloatFacts.

(** ** Numerals *)

Section Numerals.

Lemma append_assoc (a b c : string) : ((a ++ b) ++ c = a ++ (b ++ c))%string.
Proof. induction a as [|x a IH]; simpl; [reflexivity | now rewrite IH]. Qed.






End Numerals.

(** ** The printed quotient *)

Section Printed.



End Printed.

Section Classifier.

Variable world : World.

(** Nothing is attached to an integer that does not exceed [10^15]. *)
Lemma format_success_small_uint (func_info : json) (r : call_result)
    (v : value) (n : Z) (ty : string) :
  _get_output_type func_info = Ok (JStr ty) ->
  Str.startswith ty "uint" = true ->
  cr_result r = Some v -> as_int v = Some n ->
  n <= 10 ^ 15 ->
  format_success world func_info r = Ok (basic_result r v ty).
Proof.
  intros Hty Hprefix Hres Hint Hsmall.
  unfold format_success, result_of. rewrite Hty, Hres.
  cbn [Py.bind as_type_string]. rewrite Hprefix, Hint.
  destruct (Z.ltb_spec (10 ^ 15) n); [lia | reflexivity].
Qed.


End Classifier.

(** X23.  A whole number of Ether, of at most 53 bits, is printed exactly:
    the quotient by [10^18] is computed in floating point, and for these
    values it loses nothing. *)
Lemma format_large_number_whole_ether (k : Z) :
  0 < k < 2 ^ 53 ->
  _format_large_number (k * 10 ^ 18) = Ok ((Str.of_Z k ++ ".000000") ++ " Ether").
Proof.
  intros Hk. unfold _format_large_number.
  destruct (Z.leb_spec (10 ^ 18) (k * 10 ^ 18)) as [_|]; [|lia].
  rewrite true_divide_uint256.
  - rewrite divide_pos_multiple by lia. cbn [Py.bind].
    replace (52 - Z.log2 k) with (- (Z.log2 k - 52)) by lia.
    rewrite format_f6_whole; [reflexivity | lia |].
    assert (Z.log2 k < 53) by (apply Z.log2_lt_pow2; lia). lia.
  - split; [lia|].
    apply Z.lt_trans with (2 ^ 53 * 10 ^ 18); [nia | reflexivity].
  - lia.
Qed.

(** Values as the interpreter prints them: the quotient is rounded to a
    float first, so the largest [uint256] is not printed digit for digit. *)
Example format_large_number_values :
  _format_large_number 1234567890123456789 = Ok "1.234568 Ether" /\
  _format_large_number 1000000500000000000 = Ok "1.000001 Ether" /\
  _format_large_number 1234567890123456 = Ok "1.234568 milli-Ether" /\
  _format_large_number 7812500000000 = Ok "7.812500 micro-Ether" /\
  _format_large_number 999999999999 = Ok "999999999999" /\
  _format_large_number (2 ^ 256 - 1)
    = Ok "115792089237316203707617735395386539918674240093853421928448.000000 Ether".
Proof. vm_compute. repeat split. Qed.


(** ** The orchestrator *)

Section Orchestrator.

Variable config : Config.
Variable world : World.

(** The liveness check returns a boolean, by probes and sleeps only. *)
Lemma verify_connection_returns (self : Analyzer) :
  exists ok evs self',
    verify_connection world self = ((Ok ok, evs), self') /\
    forallb is_probe_or_sleep evs = true.
Proof.
  unfold verify_connection, retry_with_backoff.
  set (probe := fun k : nat => (_, _) : io bool).
  pose proof (retry_loop_trace probe 3 default_base_delay default_backoff_factor
                is_probe_or_sleep (fun _ => eq_refl) (fun _ => eq_refl)
                (range (3 + 1)) None) as Htrace.
  destruct (retry_loop probe _ _ _ _ _) as [[ok|e] evs]; simpl in Htrace; eauto.
Qed.

(** Initialization returns a boolean; it probes the connection unless
    the analyzer is initialized already. *)
Lemma initialize_returns (self : Analyzer) :
  exists ok evs self',
    initialize world self = ((Ok ok, evs), self') /\
    forallb is_probe_or_sleep evs = true /\
    (_initialized self = true -> ok = true /\ evs = []).
Proof.
  unfold initialize.
  destruct (_initialized self) eqn:Hinit.
  - exists true, [], self. auto.
  - destruct (verify_connection_returns self) as (ok & evs & self' & -> & Hevs).
    destruct ok; do 3 eexists; (split; [reflexivity|]); split; auto; discriminate.
Qed.

(** C2, as the code has it.  For an address that the validator rejects
    the orchestrator first runs the initialization check, which probes
    the connection unless the analyzer is initialized already.  When that check fails
    the report gives the initialization as the reason; otherwise the
    report has status [error] and names the invalid address format.
    In both cases the probes and sleeps of the initialization are the
    only effects: no contract check, no metadata request, no call. *)
Theorem analyze_contract_invalid_address (self : Analyzer) (contract_address : string)
    (Hinvalid : is_valid_ethereum_address contract_address = false) :
  exists ok evs self',
    initialize world self = ((Ok ok, evs), self') /\
    analyze_contract config world self contract_address
      = ((Ok (if ok then invalid_address_report world contract_address
              else initialization_failed_report world), evs), self') /\
    status (invalid_address_report world contract_address) = "error" /\
    forallb is_probe_or_sleep evs = true /\
    (_initialized self = true -> ok = true /\ evs = []).
Proof.
  destruct (initialize_returns self) as (ok & evs & self' & Hinit & Hevs & Hdone).
  exists ok, evs, self'. repeat split; try tauto.
  unfold analyze_contract. rewrite Hinit. unfold io_bind.
  destruct ok; simpl; [rewrite Hinvalid; simpl|]; now rewrite app_nil_r.
Qed.

End Orchestrator.

(** An analyzer that is initialized already answers a malformed address
    without any effect. *)
Lemma analyze_contract_invalid_address_witness :
  is_valid_ethereum_address "not-an-address" = false /\
  analyze_contract Token.config Token.world
    {| _initialized := true; _connection_verified := true |} "not-an-address"
  = ((Ok (invalid_address_report Token.world "not-an-address"), []),
     {| _initialized := true; _connection_verified := true |}).
Proof.
  split; [reflexivity|].
  destruct (analyze_contract_invalid_address Token.config Token.world
              {| _initialized := true; _connection_verified := true |}
              "not-an-address" eq_refl)
    as (ok & evs & self' & Hinit & Hrun & _ & _ & Hdone).
  destruct (Hdone eq_refl) as [-> ->].
  inversion Hinit; subst self'. exact Hrun.
Defined.

(** C2, as the spec states it, fails on a fresh analyzer: the connection
    is probed before the address is looked at.  When the node is not
    reachable the reason reported for a malformed address is the failed
    initialization; when it is reachable the reason is the address
    format, but a network call has been made. *)
Lemma analyze_contract_probes_before_validation :
  is_valid_ethereum_address "not-an-address" = false /\
  fst (analyze_contract Token.config Token.offline_world Token.fresh_analyzer
         "not-an-address")
    = (Ok (initialization_failed_report Token.offline_world), [EvIsConnected]) /\
  error (initialization_failed_report Token.offline_world)
    <> error (invalid_address_report Token.offline_world "not-an-address") /\
  fst (analyze_contract Token.config Token.world Token.fresh_analyzer "not-an-address")
    = (Ok (invalid_address_report Token.world "not-an-address"), [EvIsConnected]) /\
  existsb is_network_call [EvIsConnected] = true.
Proof.
  repeat split; try reflexivity. discriminate.
Qed.

(** ** Consistency of a success report *)

Section Report.

Variable config : Config.
Variable world : World.

Lemma io_bind_ok {A B} (m : io A) (k : A -> io B) (b : B) :
  fst (io_bind m k) = Ok b -> exists a, fst m = Ok a /\ fst (k a) = Ok b.
Proof.
  destruct m as [[a|e] evs]; simpl; [|discriminate].
  destruct (k a) as [r evs'] eqn:Hk. simpl. intros ->.
  exists a. now rewrite Hk.
Qed.

Lemma function_names_of_length (view_functions : list json) :
  forall names,
    function_names_of view_functions = Ok names ->
    List.length names = List.length view_functions.
Proof.
  induction view_functions as [|func rest IH]; simpl; intros names.
  - now intros [= <-].
  - destruct (Json.get func "name") as [[name|]|]; simpl; try discriminate.
    destruct (function_names_of rest) as [names'|]; simpl; [|discriminate].
    intros [= <-]. simpl. now rewrite (IH names').
Qed.

(** Each call result goes to exactly one of the two lists. *)
Lemma partition_results_length (view_functions : list json) :
  forall call_results i successful failed successful' failed',
    partition_results world view_functions i call_results successful failed
      = Ok (successful', failed') ->
    (List.length successful' + List.length failed'
     = List.length successful + List.length failed + List.length call_results)%nat.
Proof.
  induction call_results as [|r rest IH]; simpl;
    intros i successful failed successful' failed'.
  - intros [= <- <-]. lia.
  - destruct (String.eqb (cr_status r) "success").
    + destruct (index view_functions i) as [func_info|]; simpl; [|discriminate].
      destruct (format_success world func_info r) as [fr|]; simpl; [|discriminate].
      intros H. apply IH in H. rewrite length_app in H. simpl in H. lia.
    + intros H. apply IH in H. rewrite length_app in H. simpl in H. lia.
Qed.

(** The entries of the two lists carry the statuses [success] and
    [failed]. *)
Lemma partition_results_statuses (view_functions : list json) :
  forall call_results i successful failed successful' failed',
    partition_results world view_functions i call_results successful failed
      = Ok (successful', failed') ->
    Forall (fun fr => fr_status fr = "success") successful ->
    Forall (fun fc => fc_status fc = "failed") failed ->
    Forall (fun fr => fr_status fr = "success") successful' /\
    Forall (fun fc => fc_status fc = "failed") failed'.
Proof.
  induction call_results as [|r rest IH]; simpl;
    intros i successful failed successful' failed'.
  - intros [= <- <-]. auto.
  - destruct (String.eqb (cr_status r) "success").
    + destruct (index view_functions i) as [func_info|]; simpl; [|discriminate].
      destruct (format_success world func_info r) as [fr|] eqn:Hfr;
        simpl; [|discriminate].
      intros H Hs Hf. apply (IH _ _ _ _ _ H); [|assumption].
      apply Forall_app. split; [assumption|]. constructor; [|constructor].
      unfold format_success in Hfr.
      destruct (_get_output_type func_info) as [output_type|];
        cbn [Py.bind] in Hfr; [|discriminate].
      destruct (result_of r) as [value|]; cbn [Py.bind] in Hfr; [|discriminate].
      destruct (as_type_string output_type) as [ty|];
        cbn [Py.bind] in Hfr; [|discriminate].
      destruct (if Str.startswith ty "uint" then as_int value else None) as [n|].
      * destruct (10 ^ 15 <? n).
        -- destruct (_format_large_number n); cbn [Py.bind] in Hfr; [|discriminate].
           now inversion Hfr.
        -- now inversion Hfr.
      * destruct (String.eqb ty "address"); now inversion Hfr.
    + intros H Hs Hf. apply (IH _ _ _ _ _ H); [assumption|].
      apply Forall_app. split; [assumption|]. constructor; [reflexivity|constructor].
Qed.

Lemma analyze_abi_consistent (checksum_address : string) (abi : list json) (rep : report) :
  fst (analyze_abi config world checksum_address abi) = Ok rep ->
  status rep = "success" ->
  consistent rep.
Proof.
  unfold analyze_abi. intros H.
  apply io_bind_ok in H as (view_functions & _ & H).
  destruct view_functions as [|func rest].
  { simpl in H. destruct (count_functions abi); simpl in H; [|discriminate].
    inversion H; subst rep. discriminate. }
  set (view_functions := func :: rest) in *.
  apply io_bind_ok in H as ([contract|] & _ & H);
    [|simpl in H; inversion H; subst rep; discriminate].
  apply io_bind_ok in H as (names & Hnames & H).
  unfold io_pure in Hnames. cbn [fst] in Hnames.
  apply io_bind_ok in H as (call_results & Hbatch & H).
  apply io_bind_ok in H as ([successful failed] & Hpart & H).
  unfold io_pure in Hpart. cbn [fst] in Hpart.
  apply io_bind_ok in H as (name & _ & H). simpl in H.
  inversion H; subst rep; clear H. intros _.
  rewrite batch_call_view_functions_eq in Hbatch. inversion Hbatch; subst call_results.
  apply partition_results_length in Hpart.
  rewrite length_map, (function_names_of_length _ _ Hnames) in Hpart. simpl in Hpart.
  exists {| total_view_functions := len view_functions;
            successful_calls := len successful;
            failed_calls := len failed |}, successful.
  unfold len. simpl. repeat split.
  - unfold view_functions. simpl List.length. lia.
  - destruct failed; [reflexivity | simpl; lia].
  - destruct failed; discriminate.
  - intros failed'. destruct failed; [discriminate|]. now intros [= <-].
Qed.

(** C10.  A report with status [success] is consistent: the number of
    view functions is the number of successful calls plus the number of
    failed calls, [successful_functions] has as many entries as the
    summary counts successes, and [failed_functions] is [None], never
    an empty list, when no call failed (and otherwise has as many
    entries as the summary counts failures). *)
Theorem analyze_contract_success_consistent (self : Analyzer)
    (contract_address : string) (rep : report) :
  fst (fst (analyze_contract config world self contract_address)) = Ok rep ->
  status rep = "success" ->
  consistent rep.
Proof.
  unfold analyze_contract.
  destruct (initialize world self) as [initialized self']. simpl.
  intros H Hstatus.
  apply io_bind_ok in H as (ok & _ & H).
  destruct ok; simpl in H; [|inversion H; subst rep; discriminate].
  destruct (is_valid_ethereum_address contract_address); simpl in H;
    [|inversion H; subst rep; discriminate].
  apply io_bind_ok in H as (is_contract & _ & H).
  destruct is_contract; simpl in H; [|inversion H; subst rep; discriminate].
  apply io_bind_ok in H as (abi & _ & H).
  destruct abi as [[|item abi]|]; try (simpl in H; inversion H; subst rep; discriminate).
  now apply analyze_abi_consistent in H.
Qed.

End Report.

(** The sample token: two view functions without inputs, one call
    succeeds and one reverts. *)
Lemma analyze_contract_success_consistent_witness :
  exists rep,
    token_report = Ok rep /\ status rep = "success" /\
    summary rep = Some {| total_view_functions := 2; successful_calls := 1;
                          failed_calls := 1 |} /\
    consistent rep.
Proof.
  unfold token_report.
  destruct (fst (fst (analyze_contract Token.config Token.world Token.fresh_analyzer
                        Token.address))) as [rep|e] eqn:Hrun;
    vm_compute in Hrun; [|discriminate].
  exists rep. split; [reflexivity|].
  inversion Hrun as [Hrep].
  split; [reflexivity|]. split; [reflexivity|].
  rewrite Hrep.
  apply (analyze_contract_success_consistent Token.config Token.world
           Token.fresh_analyzer Token.address rep).
  - rewrite <- Hrep. vm_compute. reflexivity.
  - rewrite <- Hrep. reflexivity.
Defined.

(** ** The entries of the two lists *)

Section Lists.

Variable config : Config.
Variable world : World.

(** An outcome that is no success carries an error text. *)
Lemma call_outcome_error (contract : Contract) (name : json) :
  is_success (call_outcome config contract name) = false ->
  cr_status (call_outcome config contract name) = "error" /\
  exists msg, cr_error (call_outcome config contract name) = Some msg.
Proof.
  assert (forall nm e,
             cr_status (classify_exception nm e) = "error" /\
             exists msg, cr_error (classify_exception nm e) = Some msg) as Hclassified.
  { intros nm e. unfold classify_exception.
    destruct (is_contract_logic_error e), (is_web3_exception e);
      (split; [reflexivity | eexists; reflexivity]). }
  unfold is_success, call_outcome, call_view_function.
  destruct name as [|b|z|s|items|fields]; try (intros _; apply Hclassified).
  destruct (functions contract s) as [func|].
  - destruct (retry_with_backoff _ _ _ _) as [[v|e] evs]; cbn [fst].
    + discriminate.
    + intros _. apply Hclassified.
  - intros _. split; [reflexivity | eexists; reflexivity].
Qed.

(** The loop of step 7 appends to the second list the entry made of
    each call result that is no success, in the order of the results. *)
Lemma partition_results_failed (view_functions : list json) :
  forall call_results i successful failed successful' failed',
    partition_results world view_functions i call_results successful failed
      = Ok (successful', failed') ->
    failed'
    = (failed ++ map format_failure
                   (filter (fun r => negb (is_success r)) call_results))%list.
Proof.
  induction call_results as [|r rest IH]; simpl;
    intros i successful failed successful' failed'.
  - intros [= <- <-]. now rewrite app_nil_r.
  - change (String.eqb (cr_status r) "success") with (is_success r).
    destruct (is_success r); cbn [negb].
    + destruct (index view_functions i) as [func_info|]; cbn [Py.bind]; [|discriminate].
      destruct (format_success world func_info r) as [fr|]; cbn [Py.bind]; [|discriminate].
      apply IH.
    + intros H. apply IH in H. rewrite H, <- app_assoc. reflexivity.
Qed.

(** What a report with status [success] is made of: the ABI that the
    explorer returned, the contract bound to it, the names of its view
    functions, and the two lists that step 7 makes of the outcomes of
    the batch. *)
Lemma analyze_contract_success_inv (self : Analyzer) (contract_address : string)
    (rep : report) :
  let checksum_address := to_checksum_address (keccak_hex world) contract_address in
  fst (fst (analyze_contract config world self contract_address)) = Ok rep ->
  status rep = "success" ->
  exists abi contract view_functions names successful failed,
    fst (get_contract_abi config world checksum_address) = Ok (Some abi) /\
    fst (get_contract_instance config world checksum_address abi) = Ok (Some contract) /\
    extract_view_functions abi = Ok view_functions /\
    function_names_of view_functions = Ok names /\
    partition_results world view_functions 0
      (map (call_outcome config contract) names) [] [] = Ok (successful, failed) /\
    successful_functions rep = Some successful /\
    failed_functions rep = match failed with [] => None | _ => Some failed end.
Proof.
  intros checksum_address. unfold analyze_contract.
  destruct (initialize world self) as [initialized self']. cbn [fst].
  intros H Hstatus.
  apply io_bind_ok in H as (ok & _ & H).
  destruct ok; cbn [negb] in H; [|inversion H; subst rep; discriminate].
  destruct (is_valid_ethereum_address contract_address); cbn [negb] in H;
    [|inversion H; subst rep; discriminate].
  apply io_bind_ok in H as (is_contract & _ & H).
  destruct is_contract; cbn [negb] in H; [|inversion H; subst rep; discriminate].
  apply io_bind_ok in H as (abi & Habi & H).
  fold checksum_address in Habi, H.
  destruct abi as [[|item abi]|]; try (inversion H; subst rep; discriminate).
  unfold analyze_abi in H.
  apply io_bind_ok in H as (view_functions & Hextract & H).
  unfold io_pure in Hextract. cbn [fst] in Hextract.
  destruct view_functions as [|func rest].
  { cbn [io_pure fst] in H.
    destruct (count_functions (item :: abi)); cbn [Py.bind] in H; [|discriminate].
    inversion H; subst rep. discriminate. }
  apply io_bind_ok in H as ([contract|] & Hcontract & H);
    [|inversion H; subst rep; discriminate].
  apply io_bind_ok in H as (names & Hnames & H).
  unfold io_pure in Hnames. cbn [fst] in Hnames.
  apply io_bind_ok in H as (call_results & Hbatch & H).
  apply io_bind_ok in H as ([successful failed] & Hpart & H).
  unfold io_pure in Hpart. cbn [fst] in Hpart.
  apply io_bind_ok in H as (name & _ & H).
  inversion H; subst rep; clear H. cbn [successful_functions failed_functions].
  rewrite batch_call_view_functions_eq in Hbatch. inversion Hbatch; subst call_results.
  exists (item :: abi), contract, (func :: rest), names, successful, failed.
  repeat split; assumption || reflexivity.
Qed.

(** C5, as the code has it.  Every outcome of [call_view_function] has
    status [success] or [error], on each of its paths.  The status
    [failed] is the one the orchestrator gives: in a report with status
    [success], the entries of [failed_functions] are, in order, what it
    makes of the outcomes of the batch that are no success, one entry
    for each; such an outcome has status [error], and its entry has
    status [failed] with the name and the error text of the outcome. *)
Theorem call_view_function_status (contract : Contract) (name : json)
    (self : Analyzer) (contract_address : string) :
  (exists r evs,
      call_view_function config contract name = (Ok r, evs) /\
      (cr_status r = "success" \/ cr_status r = "error")) /\
  (forall rep,
      fst (fst (analyze_contract config world self contract_address)) = Ok rep ->
      status rep = "success" ->
      exists bound names,
        bound_view_functions config world
          (to_checksum_address (keccak_hex world) contract_address) bound names /\
        Forall2 relabelled
          (filter (fun outcome => negb (is_success outcome))
             (map (call_outcome config bound) names))
          (failed_entries rep)).
Proof.
  split.
  - destruct (call_view_function_returns config contract name) as (r & evs & Hr & _ & Hs).
    exists r, evs. split; [assumption|].
    destruct Hs as [[-> _] | [-> _]]; auto.
  - intros rep Hrep Hstatus.
    destruct (analyze_contract_success_inv self contract_address rep Hrep Hstatus)
      as (abi & bound & view_functions & names & successful & failed
          & Habi & Hbound & Hview & Hnames & Hpart & _ & Hfailed).
    exists bound, names. split; [exists abi, view_functions; auto|].
    apply partition_results_failed in Hpart. cbn [app] in Hpart.
    assert (failed_entries rep = failed) as ->.
    { unfold failed_entries. rewrite Hfailed. now destruct failed. }
    subst failed. clear Hfailed Hnames.
    induction names as [|nm names IH]; cbn [map filter]; [constructor|].
    destruct (is_success (call_outcome config bound nm)) eqn:Hs; cbn [negb map];
      [exact IH|].
    constructor; [|exact IH].
    destruct (call_outcome_error bound nm Hs) as (Herr & msg & Hmsg).
    unfold relabelled, format_failure. cbn [fc_status fc_function_name fc_error].
    rewrite Hmsg. auto.
Qed.

End Lists.

(** The sample token: [paused] reverts, its outcome has status [error]
    and its entry in [failed_functions] has status [failed]. *)
Lemma call_view_function_status_witness :
  exists rep,
    token_report = Ok rep /\ status rep = "success" /\
    map fc_status (failed_entries rep) = ["failed"] /\
    exists bound names,
      bound_view_functions Token.config Token.world Scenario.checksum_address
        bound names /\
      Forall2 relabelled
        (filter (fun outcome => negb (is_success outcome))
           (map (call_outcome Token.config bound) names))
        (failed_entries rep).
Proof.
  unfold token_report.
  destruct (fst (fst (analyze_contract Token.config Token.world Token.fresh_analyzer
                        Token.address))) as [rep|e] eqn:Hrun;
    vm_compute in Hrun; [|discriminate].
  exists rep. split; [reflexivity|].
  inversion Hrun as [Hrep]. split; [reflexivity|]. split; [reflexivity|].
  rewrite Hrep.
  apply (proj2 (call_view_function_status Token.config Token.world Token.contract
                  (JStr "paused") Token.fresh_analyzer Token.address) rep).
  - rewrite <- Hrep. vm_compute. reflexivity.
  - rewrite <- Hrep. reflexivity.
Defined.


(* ===================================================================== *)
(** * Further properties *)
(* ===================================================================== *)

(** ** Truncation *)

Section TruncateFacts.

Context {char : Type}.
Variable dot : char.

Lemma slice_to_length (text : list char) (stop : Z) :
  Z.of_nat (List.length (slice_to text stop))
  = if 0 <=? stop then Z.min stop (Z.of_nat (List.length text))
    else Z.max (Z.of_nat (List.length text) + stop) 0.
Proof.
  unfold slice_to. destruct (Z.leb_spec 0 stop); rewrite length_firstn; lia.
Qed.

(** The length of the result, for every text and every limit. *)
Lemma truncate_string_length_cases (text : list char) (max_length : Z) :
  Z.of_nat (List.length (truncate_string dot text max_length))
  = if Z.of_nat (List.length text) <=? max_length then Z.of_nat (List.length text)
    else if 0 <=? max_length - 3 then max_length
    else Z.max (Z.of_nat (List.length text) + max_length - 3) 0 + 3.
Proof.
  unfold truncate_string.
  destruct (Z.leb_spec (Z.of_nat (List.length text)) max_length); [reflexivity|].
  rewrite length_app, Nat2Z.inj_add, slice_to_length.
  destruct (Z.leb_spec 0 (max_length - 3)); simpl List.length; lia.
Qed.

(** X1.  With a limit of at least 3 the result never exceeds the limit: a
    text within the limit is returned as it is, a longer one is cut to
    exactly [max_length] characters. *)
Theorem truncate_string_length (text : list char) (max_length : Z) :
  3 <= max_length ->
  Z.of_nat (List.length (truncate_string dot text max_length))
  = Z.min (Z.of_nat (List.length text)) max_length.
Proof.
  intros Hmax. rewrite truncate_string_length_cases.
  destruct (Z.leb_spec (Z.of_nat (List.length text)) max_length); [lia|].
  destruct (Z.leb_spec 0 (max_length - 3)); lia.
Qed.

(** X2.  With a limit below 3 the slice counts from the end of the text:
    a text longer than the limit loses [3 - max_length] characters (all
    of them at most) and gains the three dots, so the result is longer
    than the limit. *)
Theorem truncate_string_small_limit (text : list char) (max_length : Z) :
  max_length < 3 ->
  max_length < Z.of_nat (List.length text) ->
  Z.of_nat (List.length (truncate_string dot text max_length))
  = Z.max (Z.of_nat (List.length text) + max_length - 3) 0 + 3 /\
  max_length < Z.of_nat (List.length (truncate_string dot text max_length)).
Proof.
  intros Hsmall Hlong. rewrite truncate_string_length_cases.
  destruct (Z.leb_spec (Z.of_nat (List.length text)) max_length); [lia|].
  destruct (Z.leb_spec 0 (max_length - 3)); lia.
Qed.

(** X3.  With a limit of at least 3, truncating twice is truncating once,
    and a truncated text ends in the three dots after a prefix of the
    original. *)
Theorem truncate_string_idempotent (text : list char) (max_length : Z) :
  3 <= max_length ->
  truncate_string dot (truncate_string dot text max_length) max_length
  = truncate_string dot text max_length /\
  (max_length < Z.of_nat (List.length text) ->
   truncate_string dot text max_length
   = (firstn (Z.to_nat (max_length - 3)) text ++ [dot; dot; dot])%list).
Proof.
  intros Hmax. split.
  - pose proof (truncate_string_length_cases text max_length) as Hlen.
    unfold truncate_string at 1.
    destruct (Z.leb_spec
                (Z.of_nat (List.length (truncate_string dot text max_length)))
                max_length) as [|Hover]; [reflexivity|].
    rewrite Hlen in Hover.
    destruct (Z.leb_spec (Z.of_nat (List.length text)) max_length); [lia|].
    destruct (Z.leb_spec 0 (max_length - 3)); lia.
  - intros Hlong. unfold truncate_string, slice_to.
    destruct (Z.leb_spec (Z.of_nat (List.length text)) max_length); [lia|].
    destruct (Z.leb_spec 0 (max_length - 3)); [reflexivity | lia].
Qed.

End TruncateFacts.

(** An address cut to eight characters: [0x5aa...]. *)
Lemma truncate_string_length_witness :
  3 <= 8 /\
  Z.of_nat (List.length
              (truncate_string "."%char (list_ascii_of_string "0x5aaeb6053f3e94c9") 8))
  = Z.min (Z.of_nat (List.length (list_ascii_of_string "0x5aaeb6053f3e94c9"))) 8.
Proof.
  split; [lia|].
  exact (truncate_string_length "."%char
           (list_ascii_of_string "0x5aaeb6053f3e94c9") 8 ltac:(lia)).
Defined.

(** [truncate_string("abcdef", 2)] is [abcde...], eight characters. *)
Lemma truncate_string_small_limit_witness :
  2 < 3 /\ 2 < 6 /\
  Z.of_nat (List.length (truncate_string "."%char (list_ascii_of_string "abcdef") 2))
  = 8.
Proof.
  split; [lia|]. split; [lia|].
  exact (proj1 (truncate_string_small_limit "."%char (list_ascii_of_string "abcdef") 2
                  ltac:(lia) ltac:(simpl; lia))).
Defined.

Lemma truncate_string_idempotent_witness :
  3 <= 8 /\
  truncate_string "."%char
    (truncate_string "."%char (list_ascii_of_string "0x5aaeb6053f3e94c9") 8) 8
  = truncate_string "."%char (list_ascii_of_string "0x5aaeb6053f3e94c9") 8.
Proof.
  split; [lia|].
  exact (proj1 (truncate_string_idempotent "."%char
                  (list_ascii_of_string "0x5aaeb6053f3e94c9") 8 ltac:(lia))).
Defined.

(** ** Wei formatting *)

Section WeiFormat.

Lemma rstrip_char_snoc_same (c : ascii) (s : string) :
  Fmt.rstrip_char c (s ++ String c "") = Fmt.rstrip_char c s.
Proof.
  induction s as [|a s IH]; simpl.
  - now rewrite Ascii.eqb_refl.
  - now rewrite IH.
Qed.

Lemma rstrip_char_snoc_other (c c' : ascii) (s : string) :
  c' <> c -> Fmt.rstrip_char c (s ++ String c' "") = s ++ String c' "".
Proof.
  intros Hne. induction s as [|a s IH]; simpl.
  - destruct (Ascii.eqb_spec c' c); [contradiction | reflexivity].
  - rewrite IH. destruct s; reflexivity.
Qed.

Lemma rstrip_char_absent (c : ascii) (s : string) :
  Str.all_chars (fun x => negb (Ascii.eqb x c)) s = true ->
  Fmt.rstrip_char c s = s.
Proof.
  induction s as [|a s IH]; simpl; [reflexivity|].
  intros H. apply andb_prop in H as [Ha Hs]. rewrite (IH Hs).
  destruct s; [|reflexivity].
  destruct (Ascii.eqb a c); [discriminate | reflexivity].
Qed.

(** Stripping leaves nothing only of a string made of that character. *)
Lemma rstrip_char_empty (c : ascii) (s : string) :
  Fmt.rstrip_char c s = "" -> Str.all_chars (fun x => Ascii.eqb x c) s = true.
Proof.
  induction s as [|a s IH]; simpl; [reflexivity|].
  destruct (Fmt.rstrip_char c s); [|discriminate].
  destruct (Ascii.eqb a c); [|discriminate].
  intros _. now rewrite IH.
Qed.

Lemma uint_digits (d : Decimal.uint) :
  Str.all_chars Str.is_digit (NilEmpty.string_of_uint d) = true.
Proof. induction d; simpl; auto. Qed.

Lemma nilzero_digits (d : Decimal.uint) :
  Str.all_chars Str.is_digit (NilZero.string_of_uint d) = true /\
  NilZero.string_of_uint d <> "".
Proof.
  destruct d; (split; [|discriminate]); try reflexivity;
    apply (uint_digits (_ d)).
Qed.

(** The decimal numeral of a natural number is a non-empty string of
    digits. *)
Lemma of_Z_digits (k : Z) :
  0 <= k -> Str.all_chars Str.is_digit (Str.of_Z k) = true /\ Str.of_Z k <> "".
Proof.
  intros Hk. unfold Str.of_Z.
  destruct k as [|p|p]; [split; [reflexivity | discriminate]| |lia].
  apply nilzero_digits.
Qed.

Lemma all_chars_impl (p q : ascii -> bool) (s : string) :
  (forall c, p c = true -> q c = true) ->
  Str.all_chars p s = true -> Str.all_chars q s = true.
Proof.
  intros Hpq. induction s as [|a s IH]; simpl; [reflexivity|].
  intros H. apply andb_prop in H as [Ha Hs]. now rewrite (Hpq a Ha), (IH Hs).
Qed.

Lemma digit_not_dot (c : ascii) :
  Str.is_digit c = true -> negb (Ascii.eqb c ".") = true.
Proof. destruct c as [[] [] [] [] [] [] [] []]; vm_compute; congruence. Qed.

Lemma pad_digits_zero (w : nat) :
  Float.pad_digits (S w) 0 = (Float.pad_digits w 0 ++ "0")%string.
Proof. reflexivity. Qed.

(** Stripping the zeros and the point of a numeral with a zero
    fraction leaves the integer part. *)
Lemma rstrip_zero_fraction (k : Z) (w : nat) :
  0 <= k ->
  Fmt.rstrip_char "." (Fmt.rstrip_char "0" (Str.of_Z k ++ "." ++ Float.pad_digits w 0))
  = Str.of_Z k.
Proof.
  intros Hk. destruct (of_Z_digits k Hk) as [Hdigits _].
  induction w as [|w IH].
  - simpl Float.pad_digits.
    change (Str.of_Z k ++ "." ++ "")%string with (Str.of_Z k ++ String "." "")%string.
    rewrite rstrip_char_snoc_other by discriminate.
    rewrite rstrip_char_snoc_same. apply rstrip_char_absent.
    now apply (all_chars_impl Str.is_digit); [apply digit_not_dot|].
  - rewrite pad_digits_zero.
    rewrite <- (append_assoc "." (Float.pad_digits w 0) "0").
    rewrite <- (append_assoc (Str.of_Z k) ("." ++ Float.pad_digits w 0) "0").
    rewrite (rstrip_char_snoc_same "0"). exact IH.
Qed.

(** The quotient of [k * b] by [b] is exact and does not overflow. *)
Lemma true_divide_multiple (k b : Z) :
  0 < k < 2 ^ 53 -> 0 < b ->
  Float.true_divide (k * b) b
  = Ok (Float.mk (k * 2 ^ (52 - Z.log2 k)) (Z.log2 k - 52)).
Proof.
  intros Hk Hb. unfold Float.true_divide.
  destruct (Z.eqb_spec b 0) as [|_]; [lia|].
  destruct (Z.eqb_spec (k * b) 0) as [|_]; [nia|].
  rewrite (Z.abs_eq (k * b)), (Z.abs_eq b) by nia.
  rewrite (divide_pos_multiple k b Hk Hb).
  pose proof (Z.log2_nonneg k) as HL.
  assert (Z.log2 k < 53) as HL' by (apply Z.log2_lt_pow2; lia).
  unfold Float.overflows. cbn [Float.mantissa Float.exponent].
  assert ((0 <=? Z.log2 k - 52)
          && (2 ^ 1024 <=? Z.abs (k * 2 ^ (52 - Z.log2 k)) * 2 ^ (Z.log2 k - 52))
          = false) as ->.
  { destruct (Z.leb_spec 0 (Z.log2 k - 52)); [|reflexivity].
    replace (Z.log2 k - 52) with 0 by lia. replace (52 - Z.log2 k) with 0 by lia.
    change (2 ^ 0) with 1. rewrite !Z.mul_1_r, Z.abs_eq by lia.
    apply Z.leb_gt. apply Z.lt_trans with (2 ^ 53); [lia | reflexivity]. }
  rewrite (Z.sgn_pos (k * b)), (Z.sgn_pos b) by nia.
  now rewrite !Z.mul_1_l.
Qed.

(** An integral float is printed with a zero fraction. *)
Lemma format_fixed_whole (digits : nat) (k e : Z) :
  0 < k -> e <= 0 ->
  Fmt.format_fixed digits (Float.mk (k * 2 ^ (- e)) e)
  = (Str.of_Z k ++ match digits with
                   | O => ""
                   | _ => "." ++ Float.pad_digits digits 0
                   end)%string.
Proof.
  intros Hk He. unfold Fmt.format_fixed. cbn [Float.mantissa Float.exponent].
  assert (0 < 2 ^ (- e)) as Hpow by (apply Z.pow_pos_nonneg; lia).
  assert (0 < 10 ^ Z.of_nat digits) as Hunit by (apply Z.pow_pos_nonneg; lia).
  rewrite Z.abs_eq by nia.
  assert ((if 0 <=? e then k * 2 ^ (- e) * 2 ^ e * 10 ^ Z.of_nat digits
           else Float.round_half_even (k * 2 ^ (- e) * 10 ^ Z.of_nat digits) (2 ^ (- e)))
          = k * 10 ^ Z.of_nat digits) as ->.
  { destruct (Z.leb_spec 0 e).
    - replace e with 0 by lia. change (2 ^ (- 0)) with 1. change (2 ^ 0) with 1. ring.
    - replace (k * 2 ^ (- e) * 10 ^ Z.of_nat digits)
        with (k * 10 ^ Z.of_nat digits * 2 ^ (- e)) by ring.
      now apply round_half_even_multiple. }
  rewrite Z.div_mul, Z.mod_mul by lia.
  destruct (Z.ltb_spec (k * 2 ^ (- e)) 0); [nia|].
  reflexivity.
Qed.

End WeiFormat.

Section WeiValue.

Lemma all_chars_rstrip (p : ascii -> bool) (c : ascii) (s : string) :
  Str.all_chars p s = true -> Str.all_chars p (Fmt.rstrip_char c s) = true.
Proof.
  induction s as [|a s IH]; simpl; [reflexivity|].
  intros H. apply andb_prop in H as [Ha Hs]. specialize (IH Hs).
  destruct (Fmt.rstrip_char c s).
  - destruct (Ascii.eqb a c); simpl; [reflexivity | now rewrite Ha].
  - simpl in *. now rewrite Ha, IH.
Qed.

Lemma rstrip_char_cons_other (c a : ascii) (s : string) :
  a <> c -> Fmt.rstrip_char c (String a s) = String a (Fmt.rstrip_char c s).
Proof.
  intros Hne. simpl. destruct (Fmt.rstrip_char c s); [|reflexivity].
  destruct (Ascii.eqb_spec a c); [contradiction | reflexivity].
Qed.

Lemma rstrip_char_cons_kept (c a : ascii) (s : string) :
  Fmt.rstrip_char c s <> "" ->
  Fmt.rstrip_char c (String a s) = String a (Fmt.rstrip_char c s).
Proof.
  intros Hne. simpl. destruct (Fmt.rstrip_char c s); [contradiction | reflexivity].
Qed.

(** A numeral made of zeros only denotes zero. *)
Lemma zeros_of_uint (d : Decimal.uint) :
  Str.all_chars (fun x => Ascii.eqb x "0") (NilEmpty.string_of_uint d) = true ->
  Pos.of_uint d = 0%N.
Proof. induction d; simpl; auto; discriminate. Qed.

Lemma zeros_nilzero (d : Decimal.uint) :
  d <> Decimal.Nil ->
  Str.all_chars (fun x => Ascii.eqb x "0") (NilZero.string_of_uint d) = true ->
  Pos.of_uint d = 0%N.
Proof.
  intros Hnil. destruct d; [contradiction| ..]; apply zeros_of_uint.
Qed.

Lemma of_Z_not_zeros (k : Z) :
  0 < k -> Str.all_chars (fun x => Ascii.eqb x "0") (Str.of_Z k) = false.
Proof.
  intros Hk. destruct k as [|p|p]; try lia.
  destruct (Str.all_chars _ _) eqn:Hall; [|reflexivity].
  unfold Str.of_Z in Hall. simpl in Hall.
  apply zeros_nilzero in Hall; [|apply DecimalPos.Unsigned.to_uint_nonnil].
  rewrite DecimalPos.Unsigned.of_to in Hall. discriminate.
Qed.

(** X4.  A whole number of units is printed as that number: with at
    least one decimal, [format_wei_value(k * 10**decimals, decimals)] is
    [str(k)] for every positive [k] of at most 53 bits. *)
Theorem format_wei_value_whole (k decimals : Z) :
  0 < k < 2 ^ 53 -> 1 <= decimals ->
  format_wei_value (k * 10 ^ decimals) decimals = Str.of_Z k.
Proof.
  intros Hk Hd.
  assert (0 < 10 ^ decimals) as Hpow by (apply Z.pow_pos_nonneg; lia).
  unfold format_wei_value, format_wei_value_try, Fmt.format_quotient.
  destruct (Z.eqb_spec (k * 10 ^ decimals) 0) as [|_]; [nia|].
  destruct (Z.ltb_spec decimals 0) as [|_]; [lia|].
  rewrite Z.abs_eq by nia.
  rewrite (true_divide_multiple k (10 ^ decimals) Hk Hpow). cbn [Py.bind].
  destruct (Z.ltb_spec (k * 10 ^ decimals) 0) as [|_]; [nia|].
  replace (52 - Z.log2 k) with (- (Z.log2 k - 52)) by lia.
  assert (Z.log2 k < 53) by (apply Z.log2_lt_pow2; lia).
  rewrite format_fixed_whole by lia.
  destruct (Z.to_nat decimals) as [|w] eqn:Hw; [lia|].
  change ("" ++ (Str.of_Z k ++ "." ++ Float.pad_digits (S w) 0))%string
    with (Str.of_Z k ++ "." ++ Float.pad_digits (S w) 0)%string.
  rewrite rstrip_zero_fraction by lia.
  destruct (of_Z_digits k ltac:(lia)) as [_ Hne].
  destruct (String.eqb_spec (Str.of_Z k) ""); [contradiction | reflexivity].
Qed.

(** X5.  Without decimals there is no point to stop at, and the zeros
    that end the integer itself are stripped:
    [format_wei_value(k, 0)] is [str(k).rstrip('0')]. *)
Theorem format_wei_value_no_decimals (k : Z) :
  0 < k < 2 ^ 53 ->
  format_wei_value k 0 = Fmt.rstrip_char "0" (Str.of_Z k).
Proof.
  intros Hk.
  unfold format_wei_value, format_wei_value_try, Fmt.format_quotient.
  destruct (Z.eqb_spec k 0) as [|_]; [lia|].
  change (0 <? 0) with false. change (10 ^ 0) with 1. cbv iota.
  rewrite Z.abs_eq by lia.
  replace k with (k * 1) at 1 by lia.
  rewrite (true_divide_multiple k 1 Hk ltac:(lia)). cbn [Py.bind].
  destruct (Z.ltb_spec k 0) as [|_]; [lia|].
  replace (52 - Z.log2 k) with (- (Z.log2 k - 52)) by lia.
  assert (Z.log2 k < 53) by (apply Z.log2_lt_pow2; lia).
  rewrite format_fixed_whole by lia.
  change (Z.to_nat 0) with 0%nat. cbv iota.
  change ("" ++ (Str.of_Z k ++ ""))%string with (Str.of_Z k ++ "")%string.
  assert (forall s : string, (s ++ "")%string = s) as Hnil.
  { induction s as [|a s IH]; simpl; congruence. }
  rewrite Hnil.
  destruct (of_Z_digits k ltac:(lia)) as [Hdigits _].
  rewrite (rstrip_char_absent "." (Fmt.rstrip_char "0" (Str.of_Z k))).
  - destruct (String.eqb_spec (Fmt.rstrip_char "0" (Str.of_Z k)) "") as [Hempty|];
      [|reflexivity].
    apply rstrip_char_empty in Hempty.
    rewrite (of_Z_not_zeros k ltac:(lia)) in Hempty. discriminate.
  - apply all_chars_rstrip.
    now apply (all_chars_impl Str.is_digit); [apply digit_not_dot|].
Qed.

Lemma round_half_even_unique (n d c : Z) :
  0 <= n -> 0 < d -> 2 * Z.abs (n - c * d) < d -> Float.round_half_even n d = c.
Proof.
  intros Hn Hd Hc.
  pose proof (round_half_even_nearest n d Hn Hd) as Hr.
  set (r := Float.round_half_even n d) in *.
  assert (Z.abs (r - c) * d < 1 * d) as Hlt by nia.
  apply Z.mul_lt_mono_pos_r in Hlt; lia.
Qed.

(** Below [2^52] the quotient by [10^18] has an exponent of at most -60. *)
Lemma small_quotient_exponent (value : Z) :
  0 < value < 2 ^ 52 ->
  Float.exponent (Float.divide_pos value (10 ^ 18)) <= -60.
Proof.
  intros Hv. unfold Float.divide_pos. cbn [Float.exponent].
  destruct (log2_quotient_spec value (10 ^ 18) ltac:(lia) ltac:(lia)) as [Hpos Hneg].
  set (q := Float.log2_quotient value (10 ^ 18)) in *.
  assert (q <= -8); [|lia].
  destruct (Z.lt_ge_cases q 0) as [Hq|Hq].
  - destruct (Z.le_gt_cases q (-8)) as [|Hbig]; [assumption|].
    destruct (Hneg Hq) as [Hlo _].
    assert (2 ^ (- q) <= 2 ^ 7) by (apply Z.pow_le_mono_r; lia).
    assert (value * 2 ^ (- q) <= 2 ^ 52 * 2 ^ 7) by (apply Z.mul_le_mono_nonneg; lia).
    change (2 ^ 52 * 2 ^ 7) with 576460752303423488 in *.
    change (10 ^ 18) with 1000000000000000000 in *. lia.
  - destruct (Hpos Hq) as [Hlo _].
    assert (0 < 2 ^ q) by (apply Z.pow_pos_nonneg; lia).
    change (10 ^ 18) with 1000000000000000000 in *.
    change (2 ^ 52) with 4503599627370496 in *. nia.
Qed.

(** X6.  With the default of 18 decimals a value below [2^52] is printed
    exactly: the digits after [0.] are the 18 digits of the value, before
    the trailing zeros and a final point are stripped. *)
Theorem format_wei_value_exact (value : Z) :
  0 < value < 2 ^ 52 ->
  format_wei_value value 18
  = Fmt.rstrip_char "." (Fmt.rstrip_char "0" ("0." ++ Float.pad_digits 18 value)).
Proof.
  intros Hv.
  unfold format_wei_value, format_wei_value_try, Fmt.format_quotient.
  destruct (Z.eqb_spec value 0) as [|_]; [lia|].
  change (18 <? 0) with false. cbv iota.
  rewrite Z.abs_eq by lia.
  assert (value < 2 ^ 256) as Hbig.
  { apply Z.lt_trans with (2 ^ 52); [lia | reflexivity]. }
  rewrite (true_divide_uint256 value (10 ^ 18)) by lia. cbn [Py.bind].
  destruct (Z.ltb_spec value 0) as [|_]; [lia|].
  pose proof (small_quotient_exponent value Hv) as He.
  pose proof (divide_pos_nearest value (10 ^ 18) ltac:(lia) ltac:(lia)) as Hnear.
  cbv zeta in Hnear.
  assert (0 <= Float.mantissa (Float.divide_pos value (10 ^ 18))) as Hm.
  { unfold Float.divide_pos. cbn [Float.mantissa].
    set (e := Z.max _ _).
    assert (0 < 2 ^ e \/ e < 0) as [Hp|Hn] by
      (destruct (Z.lt_ge_cases e 0); [now right | left; apply Z.pow_pos_nonneg; lia]).
    - destruct (0 <=? e).
      + apply round_half_even_bounds; nia.
      + assert (0 < 2 ^ (- e) \/ 0 <= e) as [|] by
          (destruct (Z.lt_ge_cases e 0);
           [left; apply Z.pow_pos_nonneg; lia | now right]).
        * apply round_half_even_bounds; nia.
        * apply round_half_even_bounds; [|lia].
          assert (0 <= 2 ^ (- e)) by (apply Z.pow_nonneg; lia). nia.
    - destruct (Z.leb_spec 0 e); [lia|].
      assert (0 < 2 ^ (- e)) by (apply Z.pow_pos_nonneg; lia).
      apply round_half_even_bounds; nia. }
  destruct (Float.divide_pos value (10 ^ 18)) as [m e].
  cbn [Float.mantissa Float.exponent] in *.
  destruct (Z.leb_spec 0 e) as [|_]; [lia|].
  unfold Fmt.format_fixed. cbn [Float.mantissa Float.exponent].
  destruct (Z.leb_spec 0 e) as [|_]; [lia|].
  change (Z.to_nat 18) with 18%nat.
  change (10 ^ Z.of_nat 18) with (10 ^ 18).
  rewrite (Z.abs_eq m) by assumption.
  assert (2 ^ 60 <= 2 ^ (- e)) as Hd by (apply Z.pow_le_mono_r; lia).
  rewrite (round_half_even_unique (m * 10 ^ 18) (2 ^ (- e)) value).
  - rewrite Z.div_small, Z.mod_small
      by (split; [lia | apply Z.lt_trans with (2 ^ 52); [lia | reflexivity]]).
    destruct (Z.ltb_spec m 0) as [|_]; [lia|].
    set (digits := Float.pad_digits 18 value).
    set (kept := Fmt.rstrip_char "." (Fmt.rstrip_char "0" (String "0" (String "." digits)))).
    change ((if String.eqb kept "" then "0" else kept) = kept).
    assert (kept <> "") as Hkept.
    { unfold kept. rewrite (rstrip_char_cons_kept "0" "0").
      - rewrite (rstrip_char_cons_other "." "0") by discriminate. discriminate.
      - rewrite (rstrip_char_cons_other "0" ".") by discriminate. discriminate. }
    destruct (String.eqb_spec kept ""); [contradiction | reflexivity].
  - assert (0 <= 10 ^ 18) by lia. nia.
  - lia.
  - change (10 ^ 18) with 1000000000000000000 in *.
    change (2 ^ 60) with 1152921504606846976 in *.
    replace (m * 1000000000000000000 - value * 2 ^ (- e))
      with (- (value * 2 ^ (- e) - 1000000000000000000 * m)) by ring.
    rewrite Z.abs_opp. lia.
Qed.

End WeiValue.

(** One and a half Ether, to be divided by [10^17] with 17 decimals. *)
Lemma format_wei_value_whole_witness :
  0 < 15 < 2 ^ 53 /\ 1 <= 17 /\
  format_wei_value (15 * 10 ^ 17) 17 = Str.of_Z 15.
Proof.
  assert (0 < 15 < 2 ^ 53) as Hk by (split; reflexivity).
  split; [exact Hk|]. split; [lia|].
  exact (format_wei_value_whole 15 17 Hk ltac:(lia)).
Defined.

(** [format_wei_value(100, 0)] is [1]. *)
Lemma format_wei_value_no_decimals_witness :
  0 < 100 < 2 ^ 53 /\
  format_wei_value 100 0 = Fmt.rstrip_char "0" (Str.of_Z 100) /\
  Fmt.rstrip_char "0" (Str.of_Z 100) = "1".
Proof.
  assert (0 < 100 < 2 ^ 53) as Hk by (split; reflexivity).
  split; [exact Hk|]. split; [|reflexivity].
  exact (format_wei_value_no_decimals 100 Hk).
Defined.

(** One gwei: [0.000000001]. *)
Lemma format_wei_value_exact_witness :
  0 < 1000000000 < 2 ^ 52 /\
  format_wei_value 1000000000 18
  = Fmt.rstrip_char "."
      (Fmt.rstrip_char "0" ("0." ++ Float.pad_digits 18 1000000000)) /\
  format_wei_value 1000000000 18 = "0.000000001".
Proof.
  assert (0 < 1000000000 < 2 ^ 52) as Hv by (split; reflexivity).
  split; [exact Hv|]. split; [|reflexivity].
  exact (format_wei_value_exact 1000000000 Hv).
Defined.

(** ** The metadata client *)

Section Metadata.

Variable config : Config.
Variable world : World.

Lemma dict_get_set_same (d : dict) (key : string) (v : json) :
  Dict.get (Dict.set d key v) key = Some v.
Proof.
  induction d as [|[k v'] d IH]; simpl.
  - now rewrite String.eqb_refl.
  - destruct (String.eqb_spec k key) as [->|Hne]; simpl.
    + now rewrite String.eqb_refl.
    + destruct (String.eqb_spec k key); [contradiction | exact IH].
Qed.

Lemma dict_get_set_other (d : dict) (key key' : string) (v : json) :
  key' <> key -> Dict.get (Dict.set d key v) key' = Dict.get d key'.
Proof.
  intros Hne. induction d as [|[k v'] d IH]; simpl.
  - destruct (String.eqb_spec key key'); [congruence | reflexivity].
  - destruct (String.eqb_spec k key) as [->|Hk]; simpl.
    + destruct (String.eqb_spec key key'); [congruence | reflexivity].
    + destruct (String.eqb_spec k key'); [reflexivity | exact IH].
Qed.

(** The effects of a retried callable all satisfy what the effects of
    its attempts and the sleeps satisfy. *)
Lemma retry_loop_trace_Forall {A} (func : callable A) (m : Z) (b q : Q)
    (P : event -> Prop) :
  (forall k, Forall P (snd (func k))) ->
  (forall d, P (EvSleep d)) ->
  forall attempts last, Forall P (snd (retry_loop func m b q attempts last)).
Proof.
  intros Hfunc Hsleep. induction attempts as [|a rest IH]; intros last; simpl.
  - constructor.
  - specialize (Hfunc a). destruct (func a) as [[v|e] evs]; simpl in *; [assumption|].
    destruct (Z.of_nat a =? m); simpl; [assumption|].
    specialize (IH (Some e)).
    destruct (retry_loop func m b q rest (Some e)) as [r evs']. simpl in *.
    apply Forall_app. split; [assumption|]. constructor; auto.
Qed.

(** A value returned by the loop is the value of its first attempt that
    does not raise. *)
Lemma retry_loop_ok_first {A} (func : callable A) (m : Z) (b q : Q) (v : A) :
  forall more a last,
    fst (retry_loop func m b q (seq a more) last) = Ok v ->
    exists k, (a <= k < a + more)%nat /\
              (forall j, (a <= j < k)%nat -> raises func j) /\
              fst (func k) = Ok v.
Proof.
  induction more as [|more IH]; intros a last; simpl.
  - destruct last; discriminate.
  - destruct (func a) as [[v'|e] evs] eqn:Hf; simpl.
    + intros [= ->]. exists a. rewrite Hf. repeat split; lia.
    + destruct (Z.of_nat a =? m); [discriminate|].
      specialize (IH (S a) (Some e)).
      destruct (retry_loop func m b q (seq (S a) more) (Some e)) as [r evs'].
      simpl in *. intros Hr. destruct (IH Hr) as (k & Hk & Hfail & Hok).
      exists k. repeat split; try lia; [|assumption].
      intros j Hj. destruct (Nat.eq_dec j a) as [->|Hne].
      * exists e. now rewrite Hf.
      * apply Hfail. lia.
Qed.

Lemma requests_of_app (l1 l2 : list event) :
  requests_of (l1 ++ l2) = (requests_of l1 ++ requests_of l2)%list.
Proof.
  induction l1 as [|ev l1 IH]; simpl; [reflexivity|].
  destruct ev; simpl; now rewrite ?IH.
Qed.

(** The parameters a request is sent with. *)
Local Abbreviation sent params :=
  (Dict.update params
     [("apikey", JStr (etherscan_api_key config)); ("chainid", JNum (chain_id config))]).

(** X7.  Every HTTP attempt of a request carries the same parameters:
    those of the caller, except that [apikey] and [chainid] are the
    configured ones, whatever the caller passed under these keys. *)
Theorem make_request_params (params : dict) :
  Dict.get (sent params) "apikey" = Some (JStr (etherscan_api_key config)) /\
  Dict.get (sent params) "chainid" = Some (JNum (chain_id config)) /\
  (forall key, key <> "apikey" -> key <> "chainid" ->
               Dict.get (sent params) key = Dict.get params key) /\
  Forall (fun request => request = sent params)
    (requests_of (snd (_make_request config world params))).
Proof.
  unfold Dict.update. cbn [fold_left fst snd].
  split; [|split; [|split]].
  - rewrite dict_get_set_other by discriminate. apply dict_get_set_same.
  - apply dict_get_set_same.
  - intros key Hk1 Hk2. now rewrite !dict_get_set_other.
  - unfold _make_request, retry_with_backoff, Dict.update. cbn [fold_left fst snd].
    set (p := Dict.set _ _ _).
    assert (Forall (fun ev => match ev with EvHttpGet r => r = p | _ => True end)
              (snd (retry_loop (fun k => (http_get_json world p k, [EvHttpGet p]))
                      (max_retries config) default_base_delay default_backoff_factor
                      (range (max_retries config + 1)) None))) as Htrace.
    { apply retry_loop_trace_Forall; [|exact (fun _ => I)].
      intros k. simpl. repeat constructor. }
    destruct (retry_loop _ _ _ _ _ _) as [r evs]. cbn [snd] in *.
    simpl requests_of. rewrite requests_of_app. simpl. rewrite app_nil_r.
    clear r. induction Htrace as [|ev evs Hev _ IH]; simpl; [constructor|].
    destruct ev; auto.
Qed.

(** What a request returns was the answer to one of its attempts. *)
Lemma make_request_ok (params : dict) (response : json) :
  fst (_make_request config world params) = Ok response ->
  exists k, Z.of_nat k <= max_retries config /\
            http_get_json world (sent params) k = Ok response.
Proof.
  unfold _make_request, retry_with_backoff.
  set (request := fun k : nat => (_, _) : io json).
  intros H.
  destruct (retry_loop request _ _ _ _ _) as [r evs] eqn:Hrun. simpl in H. subst r.
  destruct (retry_loop_ok_inv request (max_retries config)
              default_base_delay default_backoff_factor response
              (range (max_retries config + 1)) None) as (k & Hin & Hk).
  { now rewrite Hrun. }
  unfold range in Hin. apply in_seq in Hin.
  exists k. split; [lia | exact Hk].
Qed.

Lemma eq_str_true (j : option json) (s : string) :
  Json.eq_str j s = true -> j = Some (JStr s).
Proof.
  destruct j as [[| | |s'| |]|]; simpl; try discriminate.
  intros H. apply String.eqb_eq in H. now subst.
Qed.

(** X8.  An ABI is returned only when an attempt of the [getabi]
    request was answered with status ["1"] and a [result] string that
    parses to a JSON array: the ABI is that array. *)
Theorem get_contract_abi_sound (contract_address : string) (abi : list json) :
  fst (get_contract_abi config world contract_address) = Ok (Some abi) ->
  exists k response text,
    Z.of_nat k <= max_retries config /\
    http_get_json world (sent (contract_query "getabi" contract_address)) k
      = Ok response /\
    Json.get response "status" = Ok (Some (JStr "1")) /\
    Json.get_default response "result" (JStr "") = Ok (JStr text) /\
    json_loads world text = Some (JArr abi).
Proof.
  unfold get_contract_abi, io_catch, io_bind, io_pure.
  destruct (_make_request config world (contract_query "getabi" contract_address))
    as [[response|e] evs] eqn:Hreq; [|discriminate].
  destruct (make_request_ok _ response ltac:(now rewrite Hreq)) as (k & Hk & Hget).
  destruct (Json.get response "status") as [status|] eqn:Hstatus;
    cbn [Py.bind]; [|discriminate].
  destruct (Json.eq_str status "1") eqn:Hone; cbn [negb]; [|discriminate].
  apply eq_str_true in Hone. subst status.
  destruct (Json.get_default response "result" (JStr "")) as [abi_string|] eqn:Hresult;
    cbn [Py.bind]; [|discriminate].
  destruct (Json.truthy abi_string); cbn [negb]; [|discriminate].
  unfold safe_json_loads.
  destruct abi_string as [| | |text| |]; try discriminate.
  destruct (json_loads world text) as [[| | | |items|]|] eqn:Hloads; try discriminate.
  cbn [fst]. intros [= <-].
  exists k, response, text. auto.
Qed.

Lemma rstrip_idempotent (s : string) : Str.rstrip (Str.rstrip s) = Str.rstrip s.
Proof.
  induction s as [|c s IH]; simpl; [reflexivity|].
  destruct (Str.rstrip s) as [|c' r] eqn:Hr.
  - destruct (Str.is_space c) eqn:Hc; simpl; [reflexivity | now rewrite Hc].
  - simpl in IH. simpl. now rewrite IH.
Qed.

(** The result of [lstrip] is empty or begins with a character that is
    no white space. *)
Lemma lstrip_head (s : string) :
  match Str.lstrip s with
  | EmptyString => True
  | String c _ => Str.is_space c = false
  end.
Proof.
  induction s as [|c s IH]; simpl; [exact I|].
  destruct (Str.is_space c) eqn:Hc; [exact IH | exact Hc].
Qed.

Lemma strip_idempotent (s : string) : Str.strip (Str.strip s) = Str.strip s.
Proof.
  unfold Str.strip. pose proof (lstrip_head s) as Hhead.
  destruct (Str.lstrip s) as [|c t]; [reflexivity|].
  assert (exists r, Str.rstrip (String c t) = String c r) as [r Hr].
  { simpl. destruct (Str.rstrip t); [rewrite Hhead|]; eauto. }
  rewrite Hr. simpl Str.lstrip. rewrite Hhead. rewrite <- Hr.
  apply rstrip_idempotent.
Qed.

(** X9.  A contract name, when one is returned, is not blank and has no
    white space around it. *)
Theorem get_contract_name_stripped (contract_address name : string) :
  fst (get_contract_name config world contract_address) = Ok (Some name) ->
  name <> "" /\ Str.strip name = name.
Proof.
  unfold get_contract_name, io_catch, io_bind, io_pure.
  destruct (get_contract_source_code config world contract_address)
    as [[source_info|e] evs]; [|discriminate].
  destruct source_info as [info|]; [|discriminate].
  destruct (Json.truthy info); cbn [negb]; [|discriminate].
  destruct (Json.get_default info "ContractName" (JStr "")) as [[| | |text| |]|];
    cbn [Py.bind fst]; try discriminate.
  destruct (String.eqb_spec (Str.strip text) "") as [|Hne]; [discriminate|].
  intros [= <-]. split; [assumption | apply strip_idempotent].
Qed.

End Metadata.

(** The request for the ABI of the sample token is answered at once. *)
Lemma get_contract_abi_sound_witness :
  fst (get_contract_abi Token.config Token.world Token.address) = Ok (Some Token.abi) /\
  exists k response text,
    Z.of_nat k <= max_retries Token.config /\
    http_get_json Token.world
      (Dict.update (contract_query "getabi" Token.address)
         [("apikey", JStr (etherscan_api_key Token.config));
          ("chainid", JNum (chain_id Token.config))]) k = Ok response /\
    Json.get response "status" = Ok (Some (JStr "1")) /\
    Json.get_default response "result" (JStr "") = Ok (JStr text) /\
    json_loads Token.world text = Some (JArr Token.abi).
Proof.
  split; [reflexivity|].
  exact (get_contract_abi_sound Token.config Token.world Token.address Token.abi
           eq_refl).
Defined.

(** The service answers [" Token "]; the name reported is [Token]. *)
Lemma get_contract_name_stripped_witness :
  fst (get_contract_name Token.config Token.world Token.address) = Ok (Some "Token") /\
  "Token" <> "" /\ Str.strip "Token" = "Token".
Proof.
  split; [reflexivity|].
  exact (get_contract_name_stripped Token.config Token.world Token.address "Token"
           eq_refl).
Defined.

(** ** The chain client *)

Section Chain.

Variable config : Config.
Variable world : World.

(** X10.  The liveness check probes the node at most four times,
    whatever the configured retry budget.  An answer, [True] or [False],
    is final: it is returned after that single probe and stored in
    [_connection_verified].  Only an exception is retried, and when all
    four probes raise the check returns [False] and stores nothing. *)
Theorem verify_connection_probes (self : Analyzer) :
  exists ok evs self',
    verify_connection world self = ((Ok ok, evs), self') /\
    (count_events is_probe evs <= 4)%nat /\
    (forall answer,
        is_connected world 0%nat = Ok answer ->
        ok = answer /\ evs = [EvIsConnected] /\
        self' = {| _initialized := _initialized self;
                   _connection_verified := answer |}) /\
    ((forall k, (k <= 3)%nat -> exists e, is_connected world k = Raise e) ->
     ok = false /\ self' = self).
Proof.
  unfold verify_connection, retry_with_backoff.
  set (probe := fun k : nat => (is_connected world k, [EvIsConnected]) : io bool).
  pose proof (retry_loop_attempts probe 3 default_base_delay default_backoff_factor
                is_probe (fun _ => le_n 1) (fun _ => eq_refl) (range (3 + 1)) None)
    as Hcount.
  change (List.length (range (3 + 1))) with 4%nat in Hcount.
  destruct (retry_loop probe 3 _ _ (range (3 + 1)) None) as [[ok|e] evs] eqn:Hrun;
    cbn [snd] in Hcount.
  - exists ok, evs, {| _initialized := _initialized self; _connection_verified := ok |}.
    split; [reflexivity|]. split; [assumption|]. split.
    + intros answer Hanswer.
      pose proof (retry_loop_success probe 3 default_base_delay default_backoff_factor
                    answer 0 0%nat 4%nat None ltac:(lia) ltac:(simpl; lia)
                    ltac:(intros; lia) Hanswer) as Hfirst.
      change (seq 0 4) with (range (3 + 1)) in Hfirst. rewrite Hrun in Hfirst.
      inversion Hfirst. auto.
    + intros Hfail. exfalso.
      destruct (Hfail 3%nat ltac:(lia)) as [e He].
      pose proof (retry_loop_exhausted probe 3 default_base_delay default_backoff_factor
                    e 3 0%nat None eq_refl
                    ltac:(intros j Hj; destruct (Hfail j ltac:(lia)) as [e' He'];
                          exists e'; exact He')
                    He) as Hall.
      change (seq 0 4) with (range (3 + 1)) in Hall. rewrite Hrun in Hall.
      discriminate.
  - exists false, evs, self.
    split; [reflexivity|]. split; [assumption|]. split; [|auto].
    intros answer Hanswer. exfalso.
    pose proof (retry_loop_success probe 3 default_base_delay default_backoff_factor
                  answer 0 0%nat 4%nat None ltac:(lia) ltac:(simpl; lia)
                  ltac:(intros; lia) Hanswer) as Hfirst.
    change (seq 0 4) with (range (3 + 1)) in Hfirst. rewrite Hrun in Hfirst.
    discriminate.
Qed.

(** X11.  [is_contract_address] answers [True] exactly when the first
    code lookup that does not raise, within the retry budget, finds code
    of positive length.  In every other case, an account without code
    and a node that fails at each attempt alike, it answers [False]. *)
Theorem is_contract_address_true (address : string) :
  let checksum_address := to_checksum_address (keccak_hex world) address in
  (fst (is_contract_address config world address) = Ok true \/
   fst (is_contract_address config world address) = Ok false) /\
  (fst (is_contract_address config world address) = Ok true <->
   exists k code_len,
     Z.of_nat k <= max_retries config /\
     (forall j, (j < k)%nat -> exists e, get_code world checksum_address j = Raise e) /\
     get_code world checksum_address k = Ok code_len /\ 0 < code_len).
Proof.
  intros checksum_address.
  unfold is_contract_address, io_catch, retry_with_backoff, range.
  fold checksum_address.
  set (lookup := fun k : nat => (_, _) : io bool).
  assert (forall k, fst (lookup k) = Ok true <->
                    exists n, get_code world checksum_address k = Ok n /\ 0 < n) as Htrue.
  { intros k. unfold lookup. cbn [fst].
    destruct (get_code world checksum_address k) as [n|e]; cbn [Py.bind].
    - destruct (Z.ltb_spec 0 n); split.
      + intros _. eauto.
      + reflexivity.
      + discriminate.
      + intros (n' & [= <-] & Hn). lia.
    - split; [discriminate|]. intros (n & Hn & _). discriminate. }
  assert (forall k, raises lookup k <->
                    exists e, get_code world checksum_address k = Raise e) as Hraise.
  { intros k. unfold raises, lookup. cbn [fst].
    destruct (get_code world checksum_address k) as [n|e]; cbn [Py.bind]; split;
      intros [e' He']; try discriminate; eauto. }
  split.
  { destruct (retry_loop lookup _ _ _ _ _) as [[[|]|e] evs]; auto. }
  split.
  - intros Hrun.
    destruct (retry_loop lookup _ _ _ _ _) as [[ok|e] evs] eqn:Hloop;
      cbn [fst] in Hrun; [|discriminate].
    inversion Hrun; subst ok.
    destruct (retry_loop_ok_first lookup (max_retries config)
                default_base_delay default_backoff_factor true
                (Z.to_nat (max_retries config + 1)) 0%nat None)
      as (k & Hk & Hfail & Hok); [now rewrite Hloop|].
    apply Htrue in Hok as (n & Hn & Hpos).
    exists k, n. repeat split; try lia; try assumption.
    intros j Hj. apply Hraise, Hfail. lia.
  - intros (k & n & Hk & Hfail & Hn & Hpos).
    replace (Z.to_nat (max_retries config + 1))
      with (S (Z.to_nat (max_retries config))) by lia.
    rewrite (retry_loop_success lookup (max_retries config)
               default_base_delay default_backoff_factor true k 0%nat
               (S (Z.to_nat (max_retries config))) None); simpl; try lia; auto.
    + intros j Hj. apply Hraise, Hfail. lia.
    + apply Htrue. eauto.
Qed.

Lemma count_events_app (p : event -> bool) (l1 l2 : list event) :
  count_events p (l1 ++ l2) = (count_events p l1 + count_events p l2)%nat.
Proof. unfold count_events. now rewrite filter_app, length_app. Qed.

Lemma call_view_function_count (contract : Contract) (name : json) :
  (count_events is_call (snd (call_view_function config contract name))
   <= Z.to_nat (max_retries config + 1))%nat.
Proof.
  unfold call_view_function, count_events.
  destruct name as [|b|z|s|items|fields]; try (simpl; lia).
  destruct (functions contract s) as [func|]; [|simpl; lia].
  fold (count_events is_call).
  unfold retry_with_backoff.
  pose proof (retry_loop_attempts (fun k => (func k, [EvCall s])) (max_retries config)
                default_base_delay default_backoff_factor
                is_call (fun _ => le_n 1) (fun _ => eq_refl)
                (range (max_retries config + 1)) None) as Hcount.
  unfold range in Hcount at 2. rewrite length_seq in Hcount.
  fold (count_events is_call (snd (retry_loop (fun k => (func k, [EvCall s]))
          (max_retries config) default_base_delay default_backoff_factor
          (range (max_retries config + 1)) None))) in Hcount |- *.
  destruct (retry_loop _ _ _ _ _ _) as [[v|e] evs]; exact Hcount.
Qed.

(** X12.  A call reaches the node only for a function the contract has:
    for a name that is no string or names no function the outcome is
    produced without any effect.  Otherwise the calls are calls of that
    function, at most [max_retries + 1] of them, and a batch over [N]
    names makes at most [N * (max_retries + 1)] calls. *)
Theorem call_view_function_calls (contract : Contract) (names : list json)
    (name : json) :
  ((forall s func, name = JStr s -> functions contract s <> Some func) ->
   snd (call_view_function config contract name) = []) /\
  Forall (fun ev => match ev with
                    | EvCall s => name = JStr s
                    | EvSleep _ => True
                    | _ => False
                    end)
    (snd (call_view_function config contract name)) /\
  (count_events is_call (snd (call_view_function config contract name))
   <= Z.to_nat (max_retries config + 1))%nat /\
  (count_events is_call (snd (batch_call_view_functions config contract names))
   <= List.length names * Z.to_nat (max_retries config + 1))%nat.
Proof.
  split; [|split; [|split]].
  - intros Habsent. unfold call_view_function.
    destruct name as [|b|z|s|items|fields]; try reflexivity.
    destruct (functions contract s) as [func|] eqn:Hfunc; [|reflexivity].
    now destruct (Habsent s func eq_refl).
  - unfold call_view_function.
    destruct name as [|b|z|s|items|fields]; try constructor.
    destruct (functions contract s) as [func|]; [|constructor].
    unfold retry_with_backoff.
    assert (Forall (fun ev => match ev with
                              | EvCall s' => JStr s = JStr s'
                              | EvSleep _ => True
                              | _ => False
                              end)
              (snd (retry_loop (fun k => (func k, [EvCall s])) (max_retries config)
                      default_base_delay default_backoff_factor
                      (range (max_retries config + 1)) None))) as Htrace.
    { apply retry_loop_trace_Forall; [|exact (fun _ => I)].
      intros k. simpl. repeat constructor. }
    destruct (retry_loop _ _ _ _ _ _) as [[v|e] evs]; exact Htrace.
  - apply call_view_function_count.
  - unfold batch_call_view_functions, gather. cbn [snd].
    induction names as [|n names IH]; [unfold count_events; simpl; lia|].
    cbn [map List.concat List.length Nat.mul].
    rewrite count_events_app.
    pose proof (call_view_function_count contract n). lia.
Qed.

End Chain.

(** ** The order of the steps *)

Section Steps.

Variable config : Config.
Variable world : World.

Lemma forallb_impl {A} (p q : A -> bool) (l : list A) :
  (forall x, p x = true -> q x = true) -> forallb p l = true -> forallb q l = true.
Proof.
  intros Hpq. induction l as [|x l IH]; simpl; [reflexivity|].
  intros H. apply andb_prop in H as [Hx Hl]. now rewrite (Hpq x Hx), (IH Hl).
Qed.

Lemma io_bind_trace {A B} (m : io A) (k : A -> io B) :
  snd (io_bind m k)
  = match fst m with
    | Ok a => (snd m ++ snd (k a))%list
    | Raise _ => snd m
    end.
Proof.
  destruct m as [[a|e] evs]; simpl; [|reflexivity].
  now destruct (k a).
Qed.

Lemma io_bind_forallb {A B} (p : event -> bool) (m : io A) (k : A -> io B) :
  forallb p (snd m) = true ->
  (forall a, forallb p (snd (k a)) = true) ->
  forallb p (snd (io_bind m k)) = true.
Proof.
  intros Hm Hk. rewrite io_bind_trace.
  destruct (fst m); [|assumption]. now rewrite forallb_app, Hm, Hk.
Qed.

Lemma io_catch_trace {A} (m : io A) (default : A) : snd (io_catch m default) = snd m.
Proof. now destruct m as [[a|e] evs]. Qed.

Lemma in_phase_order_weaken (trace : list event) :
  forall c1 c2, (c1 <= c2)%nat ->
  in_phase_order c2 trace = true -> in_phase_order c1 trace = true.
Proof.
  induction trace as [|ev trace IH]; intros c1 c2 Hc; simpl; [reflexivity|].
  destruct (phase ev) as [p|]; [|now apply IH].
  intros H. apply andb_prop in H as [Hp Hrest]. apply Nat.leb_le in Hp.
  rewrite Hrest, andb_true_r. apply Nat.leb_le. lia.
Qed.

Lemma in_phase_order_app (p : nat) (l rest : list event) :
  forall cur, (cur <= p)%nat ->
  forallb (in_phase p) l = true ->
  in_phase_order p rest = true ->
  in_phase_order cur (l ++ rest) = true.
Proof.
  induction l as [|ev l IH]; intros cur Hcur Hl Hrest; simpl.
  - apply (in_phase_order_weaken rest cur p); assumption.
  - simpl in Hl. apply andb_prop in Hl as [Hev Hl]. unfold in_phase in Hev.
    destruct (phase ev) as [q|].
    + apply Nat.eqb_eq in Hev. subst q.
      rewrite (IH p (le_n p) Hl Hrest), andb_true_r. now apply Nat.leb_le.
    + now apply IH.
Qed.

Lemma in_phase_order_bind {A B} (p cur : nat) (m : io A) (k : A -> io B) :
  (cur <= p)%nat ->
  forallb (in_phase p) (snd m) = true ->
  (forall a, in_phase_order p (snd (k a)) = true) ->
  in_phase_order cur (snd (io_bind m k)) = true.
Proof.
  intros Hcur Hm Hk. rewrite io_bind_trace. destruct (fst m).
  - now apply (in_phase_order_app p).
  - rewrite <- (app_nil_r (snd m)). now apply (in_phase_order_app p).
Qed.

(** From the second step on there is no liveness probe. *)
Lemma in_phase_order_no_probe (trace : list event) :
  forall cur, (2 <= cur)%nat ->
  in_phase_order cur trace = true -> count_events is_probe trace = 0%nat.
Proof.
  unfold count_events.
  induction trace as [|ev trace IH]; intros cur Hcur; simpl; [reflexivity|].
  destruct ev; cbn [phase is_probe filter]; try (now apply IH).
  - destruct (Json.eq_str _ _); intros H; apply andb_prop in H as [Hp H];
      [apply (IH 3%nat ltac:(lia) H) | apply (IH 6%nat ltac:(lia) H)].
  - destruct (Nat.leb_spec cur 1); [lia | discriminate].
  - intros H; apply andb_prop in H as [Hp H]. apply (IH 2%nat (le_n 2) H).
  - intros H; apply andb_prop in H as [Hp H]. apply Nat.leb_le in Hp.
    apply (IH 4%nat ltac:(lia) H).
  - intros H; apply andb_prop in H as [Hp H]. apply Nat.leb_le in Hp.
    apply (IH 5%nat ltac:(lia) H).
Qed.

Lemma retried_in_phase {A} (p : nat) (func : callable A) (m : Z) :
  (forall k, forallb (in_phase p) (snd (func k)) = true) ->
  forallb (in_phase p)
    (snd (retry_with_backoff func m default_base_delay default_backoff_factor)) = true.
Proof.
  intros Hfunc. unfold retry_with_backoff.
  apply retry_loop_trace; [assumption | reflexivity].
Qed.

Lemma is_contract_address_phase (address : string) :
  forallb (in_phase 2) (snd (is_contract_address config world address)) = true.
Proof.
  unfold is_contract_address. rewrite io_catch_trace.
  apply retried_in_phase. reflexivity.
Qed.

Lemma get_contract_instance_phase (address : string) (abi : list json) :
  forallb (in_phase 4) (snd (get_contract_instance config world address abi)) = true.
Proof.
  unfold get_contract_instance. rewrite io_catch_trace.
  apply retried_in_phase. reflexivity.
Qed.

Lemma make_request_phase (p : nat) (params : dict) :
  phase (EvHttpGet
           (Dict.update params
              [("apikey", JStr (etherscan_api_key config));
               ("chainid", JNum (chain_id config))])) = Some p ->
  forallb (in_phase p) (snd (_make_request config world params)) = true.
Proof.
  intros Hphase. unfold _make_request.
  set (sent := Dict.update params _) in *.
  pose proof (retried_in_phase p (fun k => (http_get_json world sent k, [EvHttpGet sent]))
                (max_retries config)) as Htrace.
  destruct (retry_with_backoff _ _ _ _) as [r evs]. cbn [snd] in *.
  change (forallb (in_phase p) (evs ++ [EvThrottleRelease]) = true).
  rewrite forallb_app, Htrace; [reflexivity|].
  intros k. cbn [snd forallb]. unfold in_phase at 1. now rewrite Hphase, Nat.eqb_refl.
Qed.

Lemma get_contract_abi_phase (address : string) :
  forallb (in_phase 3) (snd (get_contract_abi config world address)) = true.
Proof.
  unfold get_contract_abi. rewrite io_catch_trace.
  apply io_bind_forallb; [|reflexivity].
  now apply make_request_phase.
Qed.

Lemma get_contract_source_code_phase (address : string) :
  forallb (in_phase 6) (snd (get_contract_source_code config world address)) = true.
Proof.
  unfold get_contract_source_code. rewrite io_catch_trace.
  apply io_bind_forallb; [|reflexivity].
  now apply make_request_phase.
Qed.

Lemma get_contract_name_phase (address : string) :
  forallb (in_phase 6) (snd (get_contract_name config world address)) = true.
Proof.
  unfold get_contract_name. rewrite io_catch_trace.
  apply io_bind_forallb; [apply get_contract_source_code_phase | reflexivity].
Qed.

Lemma call_view_function_phase (contract : Contract) (name : json) :
  forallb (in_phase 5) (snd (call_view_function config contract name)) = true.
Proof.
  unfold call_view_function.
  destruct name as [|b|z|s|items|fields]; try reflexivity.
  destruct (functions contract s) as [func|]; [|reflexivity].
  pose proof (retried_in_phase 5 (fun k => (func k, [EvCall s])) (max_retries config)
                (fun _ => eq_refl)) as Htrace.
  destruct (retry_with_backoff _ _ _ _) as [[v|e] evs]; exact Htrace.
Qed.

Lemma batch_call_view_functions_phase (contract : Contract) (names : list json) :
  forallb (in_phase 5) (snd (batch_call_view_functions config contract names)) = true.
Proof.
  unfold batch_call_view_functions, gather. cbn [snd].
  induction names as [|n names IH]; [reflexivity|].
  cbn [map List.concat]. now rewrite forallb_app, call_view_function_phase, IH.
Qed.

Lemma forallb_in_phase_order (p : nat) (trace : list event) :
  forallb (in_phase p) trace = true -> in_phase_order p trace = true.
Proof.
  intros H. rewrite <- (app_nil_r trace). now apply (in_phase_order_app p).
Qed.

(** Steps 4 to 6: binding, calls, name. *)
Lemma analyze_abi_phase (checksum_address : string) (abi : list json) :
  in_phase_order 3 (snd (analyze_abi config world checksum_address abi)) = true.
Proof.
  unfold analyze_abi.
  apply (in_phase_order_bind 3); [lia | reflexivity|].
  intros [|func rest]; [reflexivity|].
  apply (in_phase_order_bind 4); [lia | apply get_contract_instance_phase|].
  intros [contract|]; [|reflexivity].
  apply (in_phase_order_bind 4); [lia | reflexivity|]. intros names.
  apply (in_phase_order_bind 5); [lia | apply batch_call_view_functions_phase|].
  intros call_results.
  apply (in_phase_order_bind 5); [lia | reflexivity|]. intros [successful failed].
  apply (in_phase_order_bind 6); [lia | apply get_contract_name_phase|].
  reflexivity.
Qed.

(** The trace of an analysis: the effects of the initialization, then
    the steps from the code lookup on, in order. *)
Lemma analyze_contract_trace (self : Analyzer) (contract_address : string) :
  exists ok init_evs self' rest,
    initialize world self = ((Ok ok, init_evs), self') /\
    snd (analyze_contract config world self contract_address) = self' /\
    snd (fst (analyze_contract config world self contract_address))
      = (init_evs ++ rest)%list /\
    forallb (in_phase 1) init_evs = true /\
    in_phase_order 2 rest = true /\
    (_initialized self = true -> init_evs = [] /\ self' = self) /\
    (ok = false ->
     fst (fst (analyze_contract config world self contract_address))
       = Ok (initialization_failed_report world)) /\
    (ok = true -> _initialized self' = true).
Proof.
  destruct (initialize_returns world self) as (ok & evs & self' & Hinit & Hevs & Hdone).
  unfold analyze_contract. rewrite Hinit.
  match goal with |- context [io_bind _ ?f] => set (k := f) end.
  exists ok, evs, self', (snd (k ok)).
  split; [reflexivity|]. split; [reflexivity|].
  split; [cbn [fst snd]; unfold io_bind; now destruct (k ok)|].
  split; [revert Hevs; apply forallb_impl; now intros [] |].
  split.
  { unfold k. destruct ok; [|reflexivity].
    cbn [negb]. destruct (is_valid_ethereum_address contract_address);
      [|reflexivity]. cbn [negb].
    apply (in_phase_order_bind 2); [lia | apply is_contract_address_phase|].
    intros [|]; [|reflexivity]. cbn [negb].
    apply (in_phase_order_bind 3); [lia | apply get_contract_abi_phase|].
    intros [[|item abi]|]; try reflexivity.
    apply analyze_abi_phase. }
  split.
  { intros Hi. destruct (Hdone Hi) as [_ ->]. split; [reflexivity|].
    unfold initialize in Hinit. rewrite Hi in Hinit. now inversion Hinit. }
  split.
  { intros ->. cbn [fst]. unfold io_bind, k. cbn [negb io_pure]. reflexivity. }
  intros ->. unfold initialize in Hinit.
  destruct (_initialized self) eqn:Hi; [now inversion Hinit; subst|].
  destruct (verify_connection world self) as [[[[|]|e] evs0] self0];
    inversion Hinit; subst; reflexivity.
Qed.

(** X13.  The steps of an analysis never go back: the liveness probes
    come first, then the code lookups, the ABI request, the binding of
    the contract, the calls, and the request for the name last, however
    many of these steps the analysis reaches. *)
Theorem analyze_contract_phase_order (self : Analyzer) (contract_address : string) :
  in_phase_order 1
    (snd (fst (analyze_contract config world self contract_address))) = true.
Proof.
  destruct (analyze_contract_trace self contract_address)
    as (ok & evs & self' & rest & _ & _ & -> & Hinit & Hrest & _).
  apply (in_phase_order_app 1); [lia | assumption|].
  apply (in_phase_order_weaken rest 1 2); [lia | assumption].
Qed.

(** X14.  An initialized analyzer is not probed again: the analysis
    leaves its state as it is and makes no liveness probe. *)
Theorem analyze_contract_initialized (self : Analyzer) (contract_address : string) :
  _initialized self = true ->
  snd (analyze_contract config world self contract_address) = self /\
  count_events is_probe
    (snd (fst (analyze_contract config world self contract_address))) = 0%nat.
Proof.
  intros Hi.
  destruct (analyze_contract_trace self contract_address)
    as (ok & evs & self' & rest & _ & -> & -> & _ & Hrest & Hdone & _).
  destruct (Hdone Hi) as [-> ->]. split; [reflexivity|].
  apply (in_phase_order_no_probe rest 2); [lia | assumption].
Qed.

(** X15.  Every report but the one of a failed initialization leaves the
    analyzer initialized, so that the next analysis does not probe. *)
Theorem analyze_contract_initializes (self : Analyzer) (contract_address : string) :
  fst (fst (analyze_contract config world self contract_address))
    <> Ok (initialization_failed_report world) ->
  _initialized (snd (analyze_contract config world self contract_address)) = true /\
  forall next_address,
    count_events is_probe
      (snd (fst (analyze_contract config world
                   (snd (analyze_contract config world self contract_address))
                   next_address))) = 0%nat.
Proof.
  intros Hreport.
  destruct (analyze_contract_trace self contract_address)
    as (ok & evs & self' & rest & _ & Hself & _ & _ & _ & _ & Hfail & Hok).
  rewrite Hself.
  assert (_initialized self' = true) as Hi.
  { destruct ok; [now apply Hok|]. now destruct (Hreport (Hfail eq_refl)). }
  split; [assumption|].
  intros next_address.
  destruct (analyze_contract_trace self' next_address)
    as (ok' & evs' & self'' & rest' & _ & _ & -> & _ & Hrest & Hdone & _).
  destruct (Hdone Hi) as [-> _].
  apply (in_phase_order_no_probe rest' 2); [lia | assumption].
Qed.

End Steps.

(** ** The early exits of the orchestrator *)

Section EarlyExits.

Variable config : Config.
Variable world : World.

(** X16.  For a well-formed address without code, after a successful
    initialization, the report is the error that names the address as no
    contract, and the analysis stops there: its effects are those of the
    initialization and of the code lookup, nothing else. *)
Theorem analyze_contract_not_a_contract (self : Analyzer) (contract_address : string) :
  let checksum_address := to_checksum_address (keccak_hex world) contract_address in
  is_valid_ethereum_address contract_address = true ->
  fst (fst (initialize world self)) = Ok true ->
  fst (is_contract_address config world checksum_address) = Ok false ->
  fst (analyze_contract config world self contract_address)
  = (Ok (error_report ("地址 " ++ checksum_address ++ " 不是合约地址") None
           (now_isoformat world)),
     (snd (fst (initialize world self))
        ++ snd (is_contract_address config world checksum_address))%list).
Proof.
  intros checksum_address Hvalid Hinit Hcode.
  unfold analyze_contract.
  destruct (initialize world self) as [[ok init_evs] self'].
  cbn [fst snd] in *. subst ok. unfold io_bind at 1. cbn [negb].
  rewrite Hvalid. cbn [negb]. fold checksum_address.
  destruct (is_contract_address config world checksum_address) as [is_contract evs].
  cbn [fst snd] in *. subst is_contract.
  unfold io_bind, io_pure. cbn [negb]. now rewrite app_nil_r.
Qed.

(** The entries that pass the filter are function entries, and the
    filter changes nothing when applied to its own result. *)
Lemma extract_view_functions_facts (abi : list json) :
  forall view_functions,
    extract_view_functions abi = Ok view_functions ->
    extract_view_functions view_functions = Ok view_functions /\
    exists total, count_functions abi = Ok total /\ 0 <= len view_functions <= total.
Proof.
  unfold len.
  induction abi as [|item abi IH]; simpl; intros view_functions.
  - intros [= <-]. split; [reflexivity|]. exists 0. simpl. split; [reflexivity | lia].
  - destruct (is_view_function item) as [keep|] eqn:Hkeep; cbn [Py.bind]; [|discriminate].
    destruct (extract_view_functions abi) as [rest|]; cbn [Py.bind]; [|discriminate].
    destruct (IH rest eq_refl) as (Hidem & total & Htotal & Hle).
    assert (exists ty, Json.get item "type" = Ok ty /\
                       (keep = true -> Json.eq_str ty "function" = true))
      as (ty & Hty & Hfun).
    { unfold is_view_function in Hkeep.
      destruct (Json.get item "type") as [ty|]; cbn [Py.bind] in Hkeep; [|discriminate].
      exists ty. split; [reflexivity|].
      destruct (Json.eq_str ty "function"); [reflexivity|].
      inversion Hkeep. congruence. }
    rewrite Hty, Htotal. cbn [Py.bind].
    intros [= <-]. destruct keep; cbv iota.
    + split.
      * simpl. rewrite Hkeep, Hidem. reflexivity.
      * rewrite (Hfun eq_refl). exists (1 + total). split; [reflexivity|].
        change (List.length (item :: rest)) with (S (List.length rest)). lia.
    + split; [assumption|].
      exists (if Json.eq_str ty "function" then 1 + total else total).
      split; [reflexivity|]. destruct (Json.eq_str ty "function"); lia.
Qed.

(** X17.  The filter is idempotent, and it keeps function entries only:
    applied to its own result it returns that result, and the number of
    entries it keeps is at most the number of function entries that the
    warning report counts. *)
Theorem extract_view_functions_idempotent (abi view_functions : list json) :
  extract_view_functions abi = Ok view_functions ->
  extract_view_functions view_functions = Ok view_functions /\
  exists total, count_functions abi = Ok total /\ 0 <= len view_functions <= total.
Proof. apply extract_view_functions_facts. Qed.

(** X18.  When the ABI of a contract has no view function without
    inputs, the report is a warning that counts the function entries of
    the ABI, and the analysis stops after the ABI request: no contract is
    bound, no function is called and the name is not asked for. *)
Theorem analyze_contract_no_view_functions (self : Analyzer)
    (contract_address : string) (abi : list json) :
  let checksum_address := to_checksum_address (keccak_hex world) contract_address in
  is_valid_ethereum_address contract_address = true ->
  fst (fst (initialize world self)) = Ok true ->
  fst (is_contract_address config world checksum_address) = Ok true ->
  fst (get_contract_abi config world checksum_address) = Ok (Some abi) ->
  abi <> [] ->
  extract_view_functions abi = Ok [] ->
  exists total,
    count_functions abi = Ok total /\ 0 <= total /\
    fst (analyze_contract config world self contract_address)
    = (Ok (warning_report "合约中没有找到无参数的 view 函数" checksum_address total
             (now_isoformat world)),
       (snd (fst (initialize world self))
          ++ snd (is_contract_address config world checksum_address)
          ++ snd (get_contract_abi config world checksum_address))%list).
Proof.
  intros checksum_address Hvalid Hinit Hcode Habi Hnonempty Hnone.
  destruct (extract_view_functions_facts abi [] Hnone) as (_ & total & Htotal & Hle).
  exists total. split; [assumption|]. split; [unfold len in Hle; simpl in Hle; lia|].
  unfold analyze_contract.
  destruct (initialize world self) as [[ok init_evs] self'].
  cbn [fst snd] in *. subst ok. unfold io_bind at 1. cbn [negb].
  rewrite Hvalid. cbn [negb]. fold checksum_address.
  destruct (is_contract_address config world checksum_address) as [is_contract evs].
  cbn [fst snd] in *. subst is_contract. unfold io_bind at 1. cbn [negb].
  destruct (get_contract_abi config world checksum_address) as [found abi_evs].
  cbn [fst snd] in *. subst found. unfold io_bind at 1.
  destruct abi as [|item abi]; [contradiction|].
  unfold analyze_abi. rewrite Hnone. unfold io_bind, io_pure.
  rewrite Htotal. cbn [Py.bind]. now rewrite !app_nil_r.
Qed.

End EarlyExits.

Lemma analyze_contract_not_a_contract_witness :
  is_valid_ethereum_address Token.address = true /\
  fst (analyze_contract Token.config Scenario.empty_account Token.fresh_analyzer
         Token.address)
  = (Ok (error_report ("地址 " ++ Scenario.checksum_address ++ " 不是合约地址") None
           (now_isoformat Scenario.empty_account)),
     [EvIsConnected; EvGetCode Scenario.checksum_address]).
Proof.
  split; [reflexivity|].
  exact (analyze_contract_not_a_contract Token.config Scenario.empty_account
           Token.fresh_analyzer Token.address eq_refl eq_refl eq_refl).
Defined.

Lemma extract_view_functions_idempotent_witness :
  extract_view_functions Token.abi = Ok [Token.totalSupply; Token.paused] /\
  extract_view_functions [Token.totalSupply; Token.paused]
    = Ok [Token.totalSupply; Token.paused] /\
  exists total,
    count_functions Token.abi = Ok total /\
    0 <= len [Token.totalSupply; Token.paused] <= total.
Proof.
  split; [reflexivity|].
  exact (extract_view_functions_idempotent Token.abi [Token.totalSupply; Token.paused]
           eq_refl).
Defined.

Lemma analyze_contract_no_view_functions_witness :
  Scenario.plain_abi <> [] /\
  extract_view_functions Scenario.plain_abi = Ok [] /\
  exists total,
    count_functions Scenario.plain_abi = Ok total /\ 0 <= total /\
    fst (analyze_contract Token.config Scenario.plain_token Token.fresh_analyzer
           Token.address)
    = (Ok (warning_report "合约中没有找到无参数的 view 函数" Scenario.checksum_address
             total (now_isoformat Scenario.plain_token)),
       (snd (fst (initialize Scenario.plain_token Token.fresh_analyzer))
          ++ snd (is_contract_address Token.config Scenario.plain_token
                    Scenario.checksum_address)
          ++ snd (get_contract_abi Token.config Scenario.plain_token
                    Scenario.checksum_address))%list).
Proof.
  assert (Scenario.plain_abi <> []) as Hne by discriminate.
  split; [exact Hne|]. split; [reflexivity|].
  exact (analyze_contract_no_view_functions Token.config Scenario.plain_token
           Token.fresh_analyzer Token.address Scenario.plain_abi
           eq_refl eq_refl eq_refl eq_refl Hne eq_refl).
Defined.

(** ** The entries of a success report *)

Section Entries.

Variable config : Config.
Variable world : World.

Lemma format_success_name (func_info : json) (r : call_result) (fr : formatted_result) :
  format_success world func_info r = Ok fr ->
  fr_function_name fr = cr_function_name r /\ fr_status fr = "success" /\
  cr_result r = Some (fr_result fr).
Proof.
  unfold format_success, result_of.
  destruct (_get_output_type func_info) as [output_type|]; cbn [Py.bind]; [|discriminate].
  destruct (cr_result r) as [value|]; cbn [Py.bind]; [|discriminate].
  destruct (as_type_string output_type) as [ty|]; cbn [Py.bind]; [|discriminate].
  destruct (if Str.startswith ty "uint" then as_int value else None) as [n|].
  - destruct (10 ^ 15 <? n).
    + destruct (_format_large_number n); cbn [Py.bind]; [|discriminate].
      intros [= <-]. auto.
    + intros [= <-]. auto.
  - destruct (String.eqb ty "address"); intros [= <-]; auto.
Qed.

(** The loop of step 7 appends the successes to one list and the others
    to the other list, in the order of the call results. *)
Lemma partition_results_names (view_functions : list json) :
  forall call_results i successful failed successful' failed',
    partition_results world view_functions i call_results successful failed
      = Ok (successful', failed') ->
    map fr_function_name successful'
      = (map fr_function_name successful
           ++ map cr_function_name (filter is_success call_results))%list /\
    map fc_function_name failed'
      = (map fc_function_name failed
           ++ map cr_function_name
                (filter (fun r => negb (is_success r)) call_results))%list.
Proof.
  induction call_results as [|r rest IH]; simpl;
    intros i successful failed successful' failed'.
  - intros [= <- <-]. now rewrite !app_nil_r.
  - change (String.eqb (cr_status r) "success") with (is_success r).
    destruct (is_success r); cbn [negb].
    + destruct (index view_functions i) as [func_info|]; cbn [Py.bind]; [|discriminate].
      destruct (format_success world func_info r) as [fr|] eqn:Hfr;
        cbn [Py.bind]; [|discriminate].
      intros H. apply IH in H as [Hs Hf].
      destruct (format_success_name _ _ _ Hfr) as (Hname & _).
      split; [|exact Hf].
      rewrite Hs, map_app, <- app_assoc. simpl. now rewrite Hname.
    + intros H. apply IH in H as [Hs Hf].
      split; [exact Hs|].
      rewrite Hf, map_app, <- app_assoc. reflexivity.
Qed.

Lemma filter_outcome_names (contract : Contract) (p : call_result -> bool)
    (names : list json) :
  map cr_function_name (filter p (map (call_outcome config contract) names))
  = filter (fun name => p (call_outcome config contract name)) names.
Proof.
  induction names as [|name names IH]; simpl; [reflexivity|].
  destruct (p (call_outcome config contract name)) eqn:Hp; simpl; rewrite IH; [|reflexivity].
  f_equal. unfold call_outcome.
  destruct (call_view_function_returns config contract name) as (r & evs & -> & Hname & _).
  exact Hname.
Qed.

(** X19.  In a success report the view functions keep the order of the
    ABI and each is listed once.  For the ABI that the explorer returns
    for the address and the contract bound to it, [successful_functions]
    names the view functions whose call succeeds, with status [success],
    and [failed_functions] names the others, with status [failed]; it
    is [None], never an empty list, when there is none. *)
Theorem analyze_contract_entries (self : Analyzer) (contract_address : string)
    (rep : report) :
  fst (fst (analyze_contract config world self contract_address)) = Ok rep ->
  status rep = "success" ->
  listed_in_order config world
    (to_checksum_address (keccak_hex world) contract_address) rep.
Proof.
  intros Hrep Hstatus.
  destruct (analyze_contract_success_inv config world self contract_address rep
              Hrep Hstatus)
    as (abi & contract & view_functions & names & successful & failed
        & Habi & Hcontract & Hview & Hnames & Hpart & Hsuccessful & Hfailed).
  destruct (partition_results_names _ _ _ _ _ _ _ Hpart) as [Hs Hf].
  destruct (partition_results_statuses world _ _ _ _ _ _ _ Hpart
              (Forall_nil _) (Forall_nil _)) as [Hss Hfs].
  cbn [map app] in Hs, Hf. rewrite filter_outcome_names in Hs, Hf.
  assert (failed_entries rep = failed) as Hentries.
  { unfold failed_entries. rewrite Hfailed. now destruct failed. }
  exists contract, names, successful.
  split; [exists abi, view_functions; auto|].
  rewrite Hentries. repeat split; try assumption.
  rewrite Hfailed. destruct failed; discriminate.
Qed.

End Entries.

(** The sample token: [totalSupply] is listed as successful, [paused] as
    failed. *)
Lemma analyze_contract_entries_witness :
  exists rep,
    token_report = Ok rep /\ status rep = "success" /\
    map fr_function_name (match successful_functions rep with
                          | Some successful => successful
                          | None => []
                          end) = [JStr "totalSupply"] /\
    map fc_function_name (failed_entries rep) = [JStr "paused"] /\
    listed_in_order Token.config Token.world Scenario.checksum_address rep.
Proof.
  unfold token_report.
  destruct (fst (fst (analyze_contract Token.config Token.world Token.fresh_analyzer
                        Token.address))) as [rep|e] eqn:Hrun;
    vm_compute in Hrun; [|discriminate].
  exists rep. split; [reflexivity|].
  inversion Hrun as [Hrep]. split; [reflexivity|].
  split; [reflexivity|]. split; [reflexivity|]. rewrite Hrep.
  apply (analyze_contract_entries Token.config Token.world Token.fresh_analyzer
           Token.address rep).
  - rewrite <- Hrep. vm_compute. reflexivity.
  - rewrite <- Hrep. reflexivity.
Defined.

(** ** The summary and the tools *)

Section Summary.

Variable config : Config.
Variable world : World.

Lemma count_events_none (p : event -> bool) (trace : list event) :
  forallb (fun ev => negb (p ev)) trace = true -> count_events p trace = 0%nat.
Proof.
  unfold count_events. induction trace as [|ev trace IH]; simpl; [reflexivity|].
  intros H. apply andb_prop in H as [Hev Htrace].
  destruct (p ev); [discriminate | now apply IH].
Qed.

Lemma in_phase_not (p : nat) (q : event -> bool) (trace : list event) :
  (forall ev, in_phase p ev = true -> q ev = false) ->
  forallb (in_phase p) trace = true -> count_events q trace = 0%nat.
Proof.
  intros Hq H. apply count_events_none. revert H. apply forallb_impl.
  intros ev Hev. now rewrite (Hq ev Hev).
Qed.

(** One request takes one slot. *)
Lemma make_request_acquires (params : dict) :
  count_events is_throttle_acquire (snd (_make_request config world params)) = 1%nat.
Proof.
  unfold _make_request, retry_with_backoff.
  set (request := fun k : nat => (_, _) : io json).
  pose proof (retry_loop_trace request (max_retries config)
                default_base_delay default_backoff_factor
                (fun ev => negb (is_throttle_acquire ev))
                (fun _ => eq_refl) (fun _ => eq_refl)
                (range (max_retries config + 1)) None) as Htrace.
  destruct (retry_loop request _ _ _ _ _) as [r evs]. cbn [snd] in *.
  change (count_events is_throttle_acquire
            ([EvThrottleAcquire] ++ evs ++ [EvThrottleRelease]) = 1%nat).
  rewrite !count_events_app, (count_events_none _ _ Htrace). reflexivity.
Qed.

Lemma get_contract_source_code_acquires (address : string) :
  count_events is_throttle_acquire
    (snd (get_contract_source_code config world address)) = 1%nat.
Proof.
  unfold get_contract_source_code. rewrite io_catch_trace, io_bind_trace.
  pose proof (make_request_acquires (contract_query "getsourcecode" address)) as H.
  destruct (fst (_make_request config world _)); [|exact H].
  rewrite count_events_app, H. reflexivity.
Qed.

Lemma io_catch_ok {A} (m : io A) (default : A) :
  exists a, fst (io_catch m default) = Ok a.
Proof. destruct m as [[a|e] evs]; simpl; eauto. Qed.

(** X20.  The summary looks at the address first and needs no
    initialization: for a malformed address it is the error [dict],
    without any effect; otherwise it holds the checksummed address and
    the three answers, obtained without a liveness probe and with two
    metadata requests, each under a rate limiter slot of its own. *)
Theorem get_contract_summary_steps (contract_address : string) :
  let checksum_address := to_checksum_address (keccak_hex world) contract_address in
  if is_valid_ethereum_address contract_address then
    exists is_contract is_verified contract_name,
      fst (get_contract_summary config world contract_address)
        = Ok (Summary checksum_address is_contract is_verified contract_name) /\
      fst (is_contract_address config world checksum_address) = Ok is_contract /\
      fst (is_contract_verified config world checksum_address) = Ok is_verified /\
      fst (get_contract_name config world checksum_address) = Ok contract_name /\
      count_events is_probe (snd (get_contract_summary config world contract_address))
        = 0%nat /\
      count_events is_throttle_acquire
        (snd (get_contract_summary config world contract_address)) = 2%nat
  else
    get_contract_summary config world contract_address
      = (Ok (SummaryError "无效的地址格式"), []).
Proof.
  intros checksum_address. unfold get_contract_summary. fold checksum_address.
  destruct (is_valid_ethereum_address contract_address); cbn [negb]; [|reflexivity].
  pose proof (is_contract_address_phase config world checksum_address) as Hphase1.
  assert (count_events is_throttle_acquire
            (snd (is_contract_address config world checksum_address)) = 0%nat)
    as Hacquire1.
  { apply count_events_none. unfold is_contract_address, retry_with_backoff.
    rewrite io_catch_trace. apply retry_loop_trace; reflexivity. }
  assert (exists b, fst (is_contract_address config world checksum_address) = Ok b)
    as [is_contract H1] by (unfold is_contract_address; apply io_catch_ok).
  assert (exists b, fst (is_contract_verified config world checksum_address) = Ok b)
    as [is_verified H2] by (unfold is_contract_verified; apply io_catch_ok).
  assert (exists b, fst (get_contract_name config world checksum_address) = Ok b)
    as [name H3] by (unfold get_contract_name; apply io_catch_ok).
  assert (count_events is_throttle_acquire
            (snd (is_contract_verified config world checksum_address)) = 1%nat
          /\ count_events is_probe
               (snd (is_contract_verified config world checksum_address)) = 0%nat)
    as [Hv Hvp].
  { unfold is_contract_verified. rewrite io_catch_trace, io_bind_trace.
    pose proof (get_contract_source_code_acquires checksum_address) as Hacq.
    pose proof (in_phase_not 6 is_probe _ ltac:(now intros [])
                  (get_contract_source_code_phase config world checksum_address)) as Hp.
    destruct (fst (get_contract_source_code config world checksum_address));
      [|auto].
    rewrite !count_events_app, Hacq, Hp. auto. }
  assert (count_events is_throttle_acquire
            (snd (get_contract_name config world checksum_address)) = 1%nat
          /\ count_events is_probe
               (snd (get_contract_name config world checksum_address)) = 0%nat)
    as [Hn Hnp].
  { split.
    - unfold get_contract_name. rewrite io_catch_trace, io_bind_trace.
      pose proof (get_contract_source_code_acquires checksum_address) as Hacq.
      destruct (fst (get_contract_source_code config world checksum_address));
        [|auto].
      rewrite !count_events_app, Hacq. auto.
    - apply (in_phase_not 6); [now intros [] | apply get_contract_name_phase]. }
  exists is_contract, is_verified, name.
  destruct (is_contract_address config world checksum_address) as [r1 evs1].
  destruct (is_contract_verified config world checksum_address) as [r2 evs2].
  destruct (get_contract_name config world checksum_address) as [r3 evs3].
  cbn [fst snd] in *. subst r1 r2 r3. unfold io_bind, io_pure. cbn [fst snd].
  rewrite app_nil_r, !count_events_app, Hv, Hn, Hvp, Hnp.
  rewrite (in_phase_not 2 is_probe evs1 ltac:(now intros []) Hphase1).
  rewrite Hacquire1.
  repeat split.
Qed.

Lemma text_len_app (s t : string) : Text.len (s ++ t) = Text.len s + Text.len t.
Proof. induction s as [|c s IH]; simpl; [reflexivity | rewrite IH; lia]. Qed.

Lemma hex_not_continuation (c : ascii) :
  Str.is_hex c = true -> Text.is_continuation c = false.
Proof. destruct c as [[] [] [] [] [] [] [] []]; vm_compute; congruence. Qed.

Lemma text_len_hex (s : string) :
  Str.all_chars Str.is_hex s = true -> Text.len s = Z.of_nat (String.length s).
Proof.
  induction s as [|c s IH]; [reflexivity|].
  cbn [Str.all_chars]. intros H. apply andb_prop in H as [Hc Hs].
  cbn [Text.len String.length]. rewrite (hex_not_continuation c Hc), (IH Hs). lia.
Qed.

Lemma startswith_0x (s : string) : Str.startswith ("0x" ++ s) "0x" = true.
Proof. destruct s; reflexivity. Qed.

Variable json_dumps : tool_payload -> result string.

(** X21.  Through the tool the validator is exact.  An address that it
    accepts without its having the documented format (the one followed by
    a line feed) is turned down by the tool, with an exception, before
    the analyzer is entered; an address of the documented format passes
    the tool's own check, and the analysis runs on it. *)
Theorem contract_info_validates_exactly (self : Analyzer) (contract_address : string) :
  is_valid_ethereum_address contract_address = true ->
  (exact_address_format contract_address ->
   snd (contract_info json_dumps config world self contract_address)
     = snd (analyze_contract config world self contract_address) /\
   snd (fst (contract_info json_dumps config world self contract_address))
     = snd (fst (analyze_contract config world self contract_address))) /\
  (~ exact_address_format contract_address ->
   exists e,
     contract_info json_dumps config world self contract_address
       = ((Raise e, []), self)).
Proof.
  intros Hvalid.
  assert (forall body, Str.all_chars Str.is_hex body = true ->
                       String.length body = 40%nat ->
                       Text.len ("0x" ++ body) = 42 /\
                       Text.len ("0x" ++ body ++ String Str.newline "") = 43) as Hlen.
  { intros body Hhex Hforty.
    change ("0x" ++ body ++ String Str.newline "")%string
      with ("0x" ++ (body ++ String Str.newline ""))%string.
    rewrite !text_len_app, (text_len_hex body Hhex), Hforty. split; reflexivity. }
  split.
  - intros (body & -> & Hforty & Hhex).
    destruct (Hlen body Hhex Hforty) as [H42 _].
    unfold contract_info.
    assert (String.eqb ("0x" ++ body) "" = false) as -> by reflexivity.
    rewrite startswith_0x.
    rewrite H42. cbn [negb orb Z.eqb Pos.eqb].
    destruct (analyze_contract config world self ("0x" ++ body))
      as [[result evs] self'].
    destruct (Py.bind result _); auto.
  - intros Hnot.
    apply is_valid_ethereum_address_accepts in Hvalid as (body & Hforty & Hhex & Hform).
    destruct Hform as [-> | ->].
    + destruct Hnot. exists body. auto.
    + destruct (Hlen body Hhex Hforty) as [_ H43].
      unfold contract_info.
      assert (String.eqb ("0x" ++ body ++ String Str.newline "") "" = false)
        as -> by reflexivity.
      rewrite startswith_0x.
      rewrite H43. cbn [negb orb Z.eqb Pos.eqb]. eauto.
Qed.

End Summary.

(** ** Formatting one result *)

Section FunctionResult.

Variable keccak_hex : string -> string.
Variable truth : string -> bool.

(** X22.  For a result that, when it is an integer, lies in the range
    of the [uint] types, [format_function_result] keeps the name, the
    type and the status [success], and replaces the raw result only for
    the type [bool], by a boolean.  It attaches [formatted_value]
    exactly to an integer result of a [uint...] type, and
    [checksum_address] only to a [str] result of type [address], never
    both; the attached address is the result in checksum format. *)
Theorem format_function_result_keys (func_name : string) (result : value)
    (output_type : string)
    (Hrange : forall n, as_int result = Some n -> 0 <= n < 2 ^ 256) :
  let fr := format_function_result keccak_hex truth func_name result output_type in
  fr_function_name fr = JStr func_name /\
  fr_type fr = output_type /\
  fr_status fr = "success" /\
  (fr_result fr = result \/
   output_type = "bool" /\ fr_result fr = VBool (py_bool truth result)) /\
  (fr_formatted_value fr <> None <->
   Str.startswith output_type "uint" = true /\ as_int result <> None) /\
  (forall address,
      fr_checksum_address fr = Some address ->
      output_type = "address" /\
      fr_formatted_value fr = None /\
      exists raw, result = VStr raw /\ address = to_checksum_address keccak_hex raw).
Proof.
  unfold format_function_result.
  destruct (Str.startswith output_type "uint") eqn:Huint.
  - assert (String.eqb output_type "address" = false) as Haddr.
    { destruct (String.eqb_spec output_type "address") as [->|];
        [discriminate | reflexivity]. }
    assert (String.eqb output_type "bool" = false) as Hbool.
    { destruct (String.eqb_spec output_type "bool") as [->|];
        [discriminate | reflexivity]. }
    destruct (as_int result) as [n|] eqn:Hint.
    + cbn. repeat (split; [reflexivity|]). split; [now left|].
      split; [|discriminate].
      split; [intros _; split; [reflexivity | discriminate] | discriminate].
    + rewrite Haddr, Hbool. cbn. repeat (split; [reflexivity|]). split; [now left|].
      split; [|discriminate].
      split; [intros H; now destruct H | intros [_ H]; now destruct H].
  - destruct (String.eqb_spec output_type "address") as [->|Hne].
    + destruct (as_str result) as [address|] eqn:Hstr; cbn;
        repeat (split; [reflexivity|]); (split; [now left|]);
          (split; [split; [intros H; now destruct H | intros [H _]; discriminate]|]).
      * intros a [= <-]. repeat split. exists address. split; [|reflexivity].
        destruct result; try discriminate. now injection Hstr as ->.
      * discriminate.
    + destruct (String.eqb_spec output_type "bool") as [->|]; cbn;
        repeat (split; [reflexivity|]).
      * split; [right; split; reflexivity|].
        split; [|discriminate].
        split; [intros H; now destruct H | intros [H _]; discriminate].
      * split; [now left|]. split; [|discriminate].
        split; [intros H; now destruct H | intros [H _]; discriminate].
Qed.

End FunctionResult.

(** A [uint256] of one and a half units is given the formatted value
    [1.5]. *)
Lemma format_function_result_keys_witness :
  let result := VInt 1500000000000000000 in
  let fr := format_function_result Sample.sample_keccak (fun _ => true)
              "totalSupply" result "uint256" in
  (forall n, as_int result = Some n -> 0 <= n < 2 ^ 256) /\
  fr_formatted_value fr <> None /\
  fr_formatted_value fr = Some "1.5".
Proof.
  intros result fr.
  assert (forall n, as_int result = Some n -> 0 <= n < 2 ^ 256) as Hrange.
  { intros n [= <-]. split; reflexivity || discriminate. }
  split; [exact Hrange|]. split; [|reflexivity].
  destruct (format_function_result_keys Sample.sample_keccak (fun _ => true)
              "totalSupply" result "uint256" Hrange)
    as (_ & _ & _ & _ & Hattached & _).
  apply Hattached. split; [reflexivity | discriminate].
Defined.

(** A thousand Ether. *)
Lemma format_large_number_whole_ether_witness :
  0 < 1000 < 2 ^ 53 /\
  _format_large_number (1000 * 10 ^ 18) = Ok ((Str.of_Z 1000 ++ ".000000") ++ " Ether").
Proof.
  assert (0 < 1000 < 2 ^ 53) as Hk by (split; reflexivity).
  split; [exact Hk|].
  exact (format_large_number_whole_ether 1000 Hk).
Defined.

(** An analyzer that is initialized runs the whole analysis of the sample
    token without a probe. *)
Lemma analyze_contract_initialized_witness :
  _initialized Scenario.initialized = true /\
  snd (analyze_contract Token.config Token.world Scenario.initialized Token.address)
    = Scenario.initialized /\
  count_events is_probe
    (snd (fst (analyze_contract Token.config Token.world Scenario.initialized
                 Token.address))) = 0%nat.
Proof.
  split; [reflexivity|].
  exact (analyze_contract_initialized Token.config Token.world Scenario.initialized
           Token.address eq_refl).
Defined.

(** After the analysis of the sample token a fresh analyzer is
    initialized. *)
Lemma analyze_contract_initializes_witness :
  fst (fst (analyze_contract Token.config Token.world Token.fresh_analyzer Token.address))
    <> Ok (initialization_failed_report Token.world) /\
  _initialized
    (snd (analyze_contract Token.config Token.world Token.fresh_analyzer Token.address))
    = true.
Proof.
  assert (fst (fst (analyze_contract Token.config Token.world Token.fresh_analyzer
                      Token.address))
          <> Ok (initialization_failed_report Token.world)) as Hreport.
  { intros H. vm_compute in H. discriminate. }
  split; [exact Hreport|].
  exact (proj1 (analyze_contract_initializes Token.config Token.world
                  Token.fresh_analyzer Token.address Hreport)).
Defined.

(** The address followed by a line feed is accepted by the validator and
    turned down by the tool. *)
Lemma contract_info_validates_exactly_witness :
  is_valid_ethereum_address Sample.address_with_newline = true /\
  exists e,
    contract_info Scenario.dumps Token.config Token.world Token.fresh_analyzer
      Sample.address_with_newline
    = ((Raise e, []), Token.fresh_analyzer).
Proof.
  split; [reflexivity|].
  apply (proj2 (contract_info_validates_exactly Token.config Token.world Scenario.dumps
                  Token.fresh_analyzer Sample.address_with_newline eq_refl)).
  intros (body & Hs & Hlen & _).
  apply (f_equal String.length) in Hs. simpl in Hs. rewrite Hlen in Hs. discriminate.
Defined.

